(** * Real-time networking demo: client clock, snapshot buffer, transport

    A shallow embedding of [src/index.ts] and [src/math.ts].

    Conventions of the embedding.
    - A JavaScript [number] that holds a time, a position or a rate is a
      rational [Q]; numeric equality is [==] ([Qeq]).  Tick counters, which
      the program only initialises to [0], increments and copies, are [Z].
    - The program computes in IEEE 754 binary64.  The statements over [Q]
      are those that rounding leaves as they are: the order of two
      numbers, the sign of one difference, a bound that a loop test or a
      [Math.max] enforces, and the structure of the data.  What rounding
      decides is not stated over [Q]: the value that repeated additions
      or subtractions reach (the frame in which a time remaining gets to
      zero, the number of ticks counted when the elapsed time is a whole
      multiple of [tickDuration]) and [lerp] at [alpha = 1].  The lines
      concerned are embedded a second time over binary64 (section
      Binary64) and evaluated there.
    - [Math.random()] is an explicit argument: a rational in [[0, 1)].
    - The mutable singleton [app] and the module variable [lastFrameTime]
      are threaded as explicit state.
    - Division is that of [Q], where [a / 0] is [0]; JavaScript gives an
      infinity or NaN there.  The divisors of the program are
      [tickDuration], the length of the offset window and
      [next.tick - prev.tick]; they are shown below to be positive
      wherever the program divides.
    - The DOM ([display], [updateEntityElementPosition]) is not modelled;
      its element lookups are taken to succeed.  The reads of the game
      state that feed it are modelled.
    - A frame that does not complete is a [Fault]: a [TypeError] raised by
      reading a position that a message or the client's entity list does
      not have, or a [while] loop that never exits. *)

From Stdlib Require Import Floats.PrimFloat.
From Stdlib Require Import QArith Qabs Qround Qminmax Lqa ZArith Lia.
From stdpp Require Import base list sorting.

Local Open Scope Z_scope.

Set Warnings "-inexact-float".

(** ** Numbers *)

Definition Qltb (a b : Q) : bool := negb (Qle_bool b a).

(** [arr.reduce((a, c) => a + c, 0.0)] *)
Definition Qsum (l : list Q) : Q := fold_left Qplus l 0%Q.

(** [arr.length] read as a number *)
Definition Qlength {A} (l : list A) : Q := inject_Z (Z.of_nat (length l)).

(** ** src/math.ts *)

Definition lerp (a b alpha : Q) : Q := (a + (b - a) * alpha)%Q.

(** ** Data model of src/index.ts *)

Definition NUM_ENTITIES : nat := 4.

Definition SERVER_TICK_DURATION : Q := (1 / 90)%Q.

Record Vec2 := mkVec2 { x : Q; y : Q }.

Record Entity := mkEntity {
  position : Vec2;
  speed : Q;
  angle : Q;
  angularVelocity : Q
}.

Record Game := mkGame { entities : list Entity }.

Record Server := mkServer {
  server_game : Game;
  server_tick : Z;
  server_tickDuration : Q;
  server_tickAccumulator : Q
}.

Record ServerNetMessage := mkMessage {
  msg_tick : Z;
  entityPositions : list Vec2
}.

Record ClientInFlightMessage := mkInFlight {
  message : ServerNetMessage;
  timeRemaining : Q
}.

(** [client.net.sim] *)
Record NetSim := mkNetSim {
  sim_latency : Q;
  sim_jitter : Q;
  sim_packetLoss : Q;
  inFlightMessages : list ClientInFlightMessage
}.

(** [client.net.measured] *)
Record NetMeasured := mkNetMeasured {
  measured_latency : Q;
  measured_jitter : Q;
  measured_packetLoss : Q;
  jitterBackBuffer : list Q
}.

(** [client.net] *)
Record ClientNet := mkClientNet {
  sim : NetSim;
  measured : NetMeasured;
  lastReceivedTick : Z;
  backBuffer : list ServerNetMessage;
  interpolationDelay : Q
}.

Record Client := mkClient {
  game : Game;
  net : ClientNet;
  tick : Z;
  tickAccumulator : Q;
  clockPaused : bool;
  tickDuration : Q;
  prevNetState : option ServerNetMessage;
  nextNetState : option ServerNetMessage
}.

Record App := mkApp {
  server : Server;
  client : Client
}.

(** The program state: [app] together with the module variable
    [lastFrameTime]. *)
Record World := mkWorld {
  app : App;
  lastFrameTime : Q
}.

(** *** Field assignments *)

Definition set_inFlightMessages (q : list ClientInFlightMessage) (c : Client) : Client :=
  let n := net c in let s := sim n in
  mkClient (game c)
    (mkClientNet (mkNetSim (sim_latency s) (sim_jitter s) (sim_packetLoss s) q)
       (measured n) (lastReceivedTick n) (backBuffer n) (interpolationDelay n))
    (tick c) (tickAccumulator c) (clockPaused c) (tickDuration c)
    (prevNetState c) (nextNetState c).

Definition set_jitterBackBuffer (j : list Q) (c : Client) : Client :=
  let n := net c in let m := measured n in
  mkClient (game c)
    (mkClientNet (sim n)
       (mkNetMeasured (measured_latency m) (measured_jitter m) (measured_packetLoss m) j)
       (lastReceivedTick n) (backBuffer n) (interpolationDelay n))
    (tick c) (tickAccumulator c) (clockPaused c) (tickDuration c)
    (prevNetState c) (nextNetState c).

Definition set_lastReceivedTick (t : Z) (c : Client) : Client :=
  let n := net c in
  mkClient (game c)
    (mkClientNet (sim n) (measured n) t (backBuffer n) (interpolationDelay n))
    (tick c) (tickAccumulator c) (clockPaused c) (tickDuration c)
    (prevNetState c) (nextNetState c).

Definition set_backBuffer (b : list ServerNetMessage) (c : Client) : Client :=
  let n := net c in
  mkClient (game c)
    (mkClientNet (sim n) (measured n) (lastReceivedTick n) b (interpolationDelay n))
    (tick c) (tickAccumulator c) (clockPaused c) (tickDuration c)
    (prevNetState c) (nextNetState c).

Definition set_tick (t : Z) (c : Client) : Client :=
  mkClient (game c) (net c) t (tickAccumulator c) (clockPaused c) (tickDuration c)
    (prevNetState c) (nextNetState c).

Definition set_tickAccumulator (a : Q) (c : Client) : Client :=
  mkClient (game c) (net c) (tick c) a (clockPaused c) (tickDuration c)
    (prevNetState c) (nextNetState c).

Definition set_clockPaused (p : bool) (c : Client) : Client :=
  mkClient (game c) (net c) (tick c) (tickAccumulator c) p (tickDuration c)
    (prevNetState c) (nextNetState c).

Definition set_tickDuration (d : Q) (c : Client) : Client :=
  mkClient (game c) (net c) (tick c) (tickAccumulator c) (clockPaused c) d
    (prevNetState c) (nextNetState c).

Definition set_prevNetState (p : option ServerNetMessage) (c : Client) : Client :=
  mkClient (game c) (net c) (tick c) (tickAccumulator c) (clockPaused c) (tickDuration c)
    p (nextNetState c).

Definition set_nextNetState (p : option ServerNetMessage) (c : Client) : Client :=
  mkClient (game c) (net c) (tick c) (tickAccumulator c) (clockPaused c) (tickDuration c)
    (prevNetState c) p.

Definition set_entities (es : list Entity) (c : Client) : Client :=
  mkClient (mkGame es) (net c) (tick c) (tickAccumulator c) (clockPaused c) (tickDuration c)
    (prevNetState c) (nextNetState c).

(** ** onReceiveServerMessage *)

Definition MAX_JITTER_ROLLING_AVERAGE : nat := 5.

(** [client.tick + client.tickAccumulator / client.tickDuration] *)
Definition clientTime (c : Client) : Q :=
  (inject_Z (tick c) + tickAccumulator c / tickDuration c)%Q.

(** The window after [push] and the [splice(0, length - MAX)] that follows
    it when the window is over capacity. *)
Definition pushSample (d : Q) (w : list Q) : list Q :=
  let w1 := w ++ [d] in
  if (MAX_JITTER_ROLLING_AVERAGE <? length w1)%nat
  then drop (length w1 - MAX_JITTER_ROLLING_AVERAGE) w1
  else w1.

(** [reduce(...) / length] *)
Definition clockDiff (w : list Q) : Q := (Qsum w / Qlength w)%Q.

(** The right-hand side of the assignment to [client.tickDuration]. *)
Definition driftCorrected (w : list Q) : Q :=
  Qmax (SERVER_TICK_DURATION * 0.9)
       (SERVER_TICK_DURATION - 0.01 * (clockDiff w * SERVER_TICK_DURATION)).

Definition onReceiveServerMessage (c : Client) (m : ServerNetMessage) : Client :=
  let clockDiffForPacket := (inject_Z (msg_tick m) - clientTime c)%Q in
  let w := pushSample clockDiffForPacket (jitterBackBuffer (measured (net c))) in
  let c1 := set_tickDuration (driftCorrected w) (set_jitterBackBuffer w c) in
  if msg_tick m <? lastReceivedTick (net c1) then c1
  else
    let c2 := set_lastReceivedTick (msg_tick m) c1 in
    let c3 :=
      if clockPaused c2
      then set_tickAccumulator 0 (set_tick (msg_tick m) (set_clockPaused false c2))
      else c2 in
    set_backBuffer (backBuffer (net c3) ++ [m]) c3.

(** ** Outcomes of a frame *)

Inductive Fault := TypeError | NonTermination.

Inductive result (A : Type) :=
  | Ok (a : A)
  | Fail (f : Fault).
Arguments Ok {A} a.
Arguments Fail {A} f.

Definition bind {A B} (r : result A) (k : A -> result B) : result B :=
  match r with
  | Ok a => k a
  | Fail f => Fail f
  end.

(** ** Server: serverTick, serverNetSend *)

(** The motion of one entity during one server tick (cosine, sine, random
    turns, bouncing off the walls) is not modelled: it is an oracle that
    receives the tick, the step [dt], the entity's index and the entity. *)
Definition Physics := Z -> Q -> nat -> Entity -> Entity.

Definition serverTick (phys : Physics) (dt : Q) (s : Server) : Server :=
  mkServer
    (mkGame (imap (phys (server_tick s) dt) (entities (server_game s))))
    (server_tick s + 1)
    (server_tickDuration s)
    (server_tickAccumulator s).

(** The message [serverNetSend] builds from the server state. *)
Definition snapshot (s : Server) : ServerNetMessage :=
  mkMessage (server_tick s) (map position (entities (server_game s))).

(** [(2 * Math.random() - 1) * jitter] *)
Definition jitterOffset (r jit : Q) : Q := ((2 * r - 1) * jit)%Q.

(** [((latency / 2) + jitter) / 1000.0] *)
Definition sendDelay (lat jit r : Q) : Q :=
  ((lat / 2 + jitterOffset r jit) / 1000)%Q.

(** [rDrop] and [rJitter] are the two values of [Math.random()]; the second
    is only drawn when the packet is not dropped. *)
Definition serverNetSend (rDrop rJitter : Q) (a : App) : App :=
  let msg := snapshot (server a) in
  let c := client a in
  let s := sim (net c) in
  if Qltb rDrop (sim_packetLoss s) then a
  else
    let inFlightMessage :=
      mkInFlight msg (sendDelay (sim_latency s) (sim_jitter s) rJitter) in
    mkApp (server a)
      (set_inFlightMessages (inFlightMessages s ++ [inFlightMessage]) c).

(** ** The two accumulator loops *)

(** [while (acc > dur) { acc -= dur; tick++ }]; [None] when the fuel runs
    out before the guard fails. *)
Fixpoint tickLoop (fuel : nat) (tk : Z) (acc dur : Q) : option (Z * Q) :=
  if Qltb dur acc then
    match fuel with
    | O => None
    | S n => tickLoop n (tk + 1) (acc - dur)%Q dur
    end
  else Some (tk, acc).

(** Enough iterations for a positive [dur]. *)
Definition loopFuel (acc dur : Q) : nat := Z.to_nat (Qceiling (acc / dur)).

Fixpoint serverLoop (fuel : nat) (phys : Physics) (s : Server) (ticked : bool)
  : option (Server * bool) :=
  if Qltb (server_tickDuration s) (server_tickAccumulator s) then
    match fuel with
    | O => None
    | S n =>
        let s1 := mkServer (server_game s) (server_tick s) (server_tickDuration s)
                    (server_tickAccumulator s - server_tickDuration s)%Q in
        serverLoop n phys (serverTick phys (server_tickDuration s1) s1) true
    end
  else Some (s, ticked).

(** ** Client: transport advance *)

(** The [filter] over [inFlightMessages]: every message ages by [rdt]; an
    expired one is handed to [onReceiveServerMessage] at once, in queue
    order, and leaves the queue. *)
Fixpoint deliverInFlight (rdt : Q) (q : list ClientInFlightMessage) (c : Client)
  : list ClientInFlightMessage * Client :=
  match q with
  | [] => ([], c)
  | f :: q' =>
      let f' := mkInFlight (message f) (timeRemaining f - rdt)%Q in
      if Qle_bool (timeRemaining f') 0
      then deliverInFlight rdt q' (onReceiveServerMessage c (message f'))
      else
        let '(kept, c') := deliverInFlight rdt q' c in
        (f' :: kept, c')
  end.

Definition handleReceived (rdt : Q) (c : Client) : Client :=
  let '(kept, c') := deliverInFlight rdt (inFlightMessages (sim (net c))) c in
  set_inFlightMessages kept c'.

(** ** Client: clock update *)

Definition updateClientClock (rdt : Q) (c : Client) : result Client :=
  if clockPaused c then Ok c
  else
    let acc := (tickAccumulator c + rdt)%Q in
    match tickLoop (loopFuel acc (tickDuration c)) (tick c) acc (tickDuration c) with
    | Some (tk, acc') => Ok (set_tickAccumulator acc' (set_tick tk c))
    | None => Fail NonTermination
    end.

(** ** Client: bracket search, trim, interpolation *)

(** [Array.prototype.findIndex]: the first index that satisfies [p], or [-1]. *)
Fixpoint findIndexFrom {A} (p : A -> bool) (l : list A) (i : Z) : Z :=
  match l with
  | [] => -1
  | a :: l' => if p a then i else findIndexFrom p l' (i + 1)
  end.

Definition findIndex {A} (p : A -> bool) (l : list A) : Z := findIndexFrom p l 0.

(** [arr[i] ?? null] *)
Definition at_index {A} (l : list A) (i : Z) : option A :=
  if i <? 0 then None else l !! Z.to_nat i.

(** [arr.splice(0, k)]: the delete count is clamped below by [0]. *)
Definition spliceFront {A} (k : Z) (l : list A) : list A := drop (Z.to_nat k) l.

Definition set_position (p : Vec2) (e : Entity) : Entity :=
  mkEntity p (speed e) (angle e) (angularVelocity e).

(** The [forEach] over [client.game.entities]; [None] when a position is
    missing from [prev] or [next] (reading [.x] of [undefined] throws). *)
Fixpoint interpolateEntities (prev next : list Vec2) (alpha : Q) (idx : nat)
    (es : list Entity) : option (list Entity) :=
  match es with
  | [] => Some []
  | e :: es' =>
      match prev !! idx, next !! idx with
      | Some prevPosition, Some nextPosition =>
          let interpolatedPosition :=
            mkVec2 (lerp (x prevPosition) (x nextPosition) alpha)
                   (lerp (y prevPosition) (y nextPosition) alpha) in
          match interpolateEntities prev next alpha (S idx) es' with
          | Some r => Some (set_position interpolatedPosition e :: r)
          | None => None
          end
      | _, _ => None
      end
  end.

(** [1 - ((n - t) / (n - p))] *)
Definition interpolationAlpha (t : Q) (p n : Z) : Q :=
  (1 - (inject_Z n - t) / (inject_Z n - inject_Z p))%Q.

(** From the upper-bound search to the end of the client callback, for a
    given [targetSubTick]. *)
Definition interpolateAt (targetSubTick : Q) (c : Client) : result Client :=
  let buf := backBuffer (net c) in
  let nextNetStateIdx :=
    findIndex (fun m => Qltb targetSubTick (inject_Z (msg_tick m))) buf in
  let prev := if 0 <? nextNetStateIdx then at_index buf (nextNetStateIdx - 1) else None in
  let next := at_index buf nextNetStateIdx in
  let c1 := set_backBuffer (spliceFront (nextNetStateIdx - 1) buf)
              (set_nextNetState next (set_prevNetState prev c)) in
  match next with
  | None => Ok c1
  | Some nx =>
      match prev with
      | None => Ok c1
      | Some pv =>
          let alpha := interpolationAlpha targetSubTick (msg_tick pv) (msg_tick nx) in
          match interpolateEntities (entityPositions pv) (entityPositions nx) alpha 0
                  (entities (game c1)) with
          | Some es => Ok (set_entities es c1)
          | None => Fail TypeError
          end
      end
  end.

(** [tick + accumulator / tickDuration - interpolationDelay] *)
Definition targetSubTick (c : Client) : Q :=
  (inject_Z (tick c) + tickAccumulator c / tickDuration c
   - interpolationDelay (net c))%Q.

(** The pause check followed by the interpolation. *)
Definition renderClient (c : Client) : result Client :=
  let t := targetSubTick c in
  match last (backBuffer (net c)) with
  | None => Ok (if clockPaused c then c else set_clockPaused true c)
  | Some newest =>
      if Qltb (inject_Z (msg_tick newest)) t
      then Ok (if clockPaused c then c else set_clockPaused true c)
      else interpolateAt t c
  end.

(** The body of [[app.client].forEach(client => ...)]. *)
Definition clientFrame (rdt : Q) (c : Client) : result Client :=
  bind (updateClientClock rdt (handleReceived rdt c)) renderClient.

(** ** frameStep *)

Record FrameInput := mkFrameInput {
  frame_t : Q;          (* the timestamp passed to [frameStep] *)
  rand_drop : Q;        (* [Math.random()] of the packet-loss test *)
  rand_jitter : Q;      (* [Math.random()] of the jitter *)
  physics : Physics
}.

Definition serverFrame (i : FrameInput) (rdt : Q) (a : App) : result App :=
  let s := server a in
  let s0 := mkServer (server_game s) (server_tick s) (server_tickDuration s)
              (server_tickAccumulator s + rdt)%Q in
  match serverLoop (loopFuel (server_tickAccumulator s0) (server_tickDuration s0))
          (physics i) s0 false with
  | None => Fail NonTermination
  | Some (s1, ticked) =>
      let a1 := mkApp s1 (client a) in
      Ok (if ticked then serverNetSend (rand_drop i) (rand_jitter i) a1 else a1)
  end.

(** The draw loop that ends [frameStep]: it reads
    [app.client.game.entities[i].position] for every [i < NUM_ENTITIES],
    a [TypeError] when the client has fewer entities. *)
Definition drawEntities (c : Client) : result unit :=
  if (length (entities (game c)) <? NUM_ENTITIES)%nat then Fail TypeError else Ok tt.

Definition frameStep (i : FrameInput) (w : World) : result World :=
  let rdt := ((frame_t i - lastFrameTime w) / 1000)%Q in
  bind (serverFrame i rdt (app w)) (fun a1 =>
  bind (clientFrame rdt (client a1)) (fun c1 =>
  bind (drawEntities c1) (fun _ =>
  Ok (mkWorld (mkApp (server a1) c1) (frame_t i))))).

(** ** The initial state *)

(** The literal [app]. *)
Definition app0 : App :=
  mkApp
    (mkServer (mkGame []) 0 SERVER_TICK_DURATION 0)
    (mkClient (mkGame [])
       (mkClientNet (mkNetSim 200 0 0 []) (mkNetMeasured 0 0 0 []) 0 [] 2)
       0 0 false SERVER_TICK_DURATION None None).

Definition clientEntity0 : Entity := mkEntity (mkVec2 0.5 0.5) 0 0 0.

(** [initAppState]: the server entities get random positions, speeds and
    angles, given here as [serverEntities] (which the program makes
    [NUM_ENTITIES] long); the client entities start at the centre. *)
Definition initAppState (serverEntities : list Entity) : App :=
  mkApp
    (mkServer (mkGame serverEntities) (server_tick (server app0))
       (server_tickDuration (server app0)) (server_tickAccumulator (server app0)))
    (set_entities (replicate NUM_ENTITIES clientEntity0) (client app0)).

Definition initWorld (serverEntities : list Entity) : World :=
  mkWorld (initAppState serverEntities) 0.

(** A run of frames. *)
Fixpoint runFrames (ins : list FrameInput) (w : World) : result World :=
  match ins with
  | [] => Ok w
  | i :: ins' => bind (frameStep i w) (runFrames ins')
  end.

(** ** Runs of the client against an arbitrary sender

    [OpReceive] is a call of [onReceiveServerMessage], [OpSend] puts any
    message in flight, [OpFrame] is the client's part of one frame.  Every
    client state that [frameStep] reaches is reached by such a run
    ([runFrames_runClient]). *)

Inductive ClientOp :=
  | OpReceive (m : ServerNetMessage)
  | OpSend (f : ClientInFlightMessage)
  | OpFrame (rdt : Q).

Definition stepClient (op : ClientOp) (c : Client) : result Client :=
  match op with
  | OpReceive m => Ok (onReceiveServerMessage c m)
  | OpSend f => Ok (set_inFlightMessages (inFlightMessages (sim (net c)) ++ [f]) c)
  | OpFrame rdt => clientFrame rdt c
  end.

Fixpoint runClient (ops : list ClientOp) (c : Client) : result Client :=
  match ops with
  | [] => Ok c
  | op :: ops' => bind (stepClient op c) (runClient ops')
  end.

(** The client of the initial state; it does not depend on the server's
    entities. *)
Definition client0 : Client := client (initAppState []).

(** The frame durations a run of operations uses satisfy [R]. *)
Definition opAllowed (R : Q -> Prop) (op : ClientOp) : Prop :=
  match op with
  | OpFrame rdt => R rdt
  | _ => True
  end.

(** The frame durations of a run of frames that starts at time [t0]
    satisfy [R]. *)
Fixpoint framesAllowed (R : Q -> Prop) (ins : list FrameInput) (t0 : Q) : Prop :=
  match ins with
  | [] => True
  | i :: ins' => R ((frame_t i - t0) / 1000)%Q /\ framesAllowed R ins' (frame_t i)
  end.

(** ** Vocabulary of the statements *)

(** *** Transport advance as a partition of the queue *)

Definition aged (rdt : Q) (f : ClientInFlightMessage) : ClientInFlightMessage :=
  mkInFlight (message f) (timeRemaining f - rdt)%Q.

Definition expired (rdt : Q) (f : ClientInFlightMessage) : bool :=
  Qle_bool (timeRemaining f - rdt) 0.

(** The messages a transport advance delivers, in delivery order. *)
Definition delivered (rdt : Q) (q : list ClientInFlightMessage) : list ServerNetMessage :=
  map message (List.filter (expired rdt) q).

(** The queue a transport advance leaves. *)
Definition remaining (rdt : Q) (q : list ClientInFlightMessage) : list ClientInFlightMessage :=
  map (aged rdt) (List.filter (fun f => negb (expired rdt f)) q).


(** *** The clock *)

Definition tickDurationFloor (c : Client) : Prop :=
  (SERVER_TICK_DURATION * 0.9 <= tickDuration c)%Q.

Definition clockInv (c : Client) : Prop :=
  (0 <= tickAccumulator c)%Q /\ tickDurationFloor c.

Definition runningBound (c : Client) : Prop :=
  clockPaused c = false -> (tickAccumulator c <= tickDuration c)%Q.

(** *** The snapshot buffer *)

(** The ticks of the snapshot buffer, oldest first. *)
Definition bufferTicks (c : Client) : list Z := map msg_tick (backBuffer (net c)).

(** No buffered tick is above [lastReceivedTick]. *)
Definition bufferBounded (c : Client) : Prop :=
  Forall (fun t => t <= lastReceivedTick (net c)) (bufferTicks c).

Definition inFlightTick (f : ClientInFlightMessage) : Z := msg_tick (message f).

Definition queueTicks (c : Client) : list Z :=
  map inFlightTick (inFlightMessages (sim (net c))).

(** In the program's own runs all ticks are distinct: the buffer is
    strictly ascending and bounded by [lastReceivedTick]; the messages in
    flight carry strictly increasing ticks, none above the server's tick
    and none equal to [lastReceivedTick]. *)
Definition distinctTicks (a : App) : Prop :=
  let c := client a in
  StronglySorted Z.lt (bufferTicks c)
  /\ bufferBounded c
  /\ StronglySorted Z.lt (queueTicks c)
  /\ Forall (fun t => t <= server_tick (server a) /\ t <> lastReceivedTick (net c))
       (queueTicks c)
  /\ lastReceivedTick (net c) <= server_tick (server a).

(** The outcome of the bracket search on a buffer, as a relation between
    the buffer and what the code computes from it: the index found, the
    lower bound, the upper bound and the trimmed buffer. *)
Inductive Bracket (t : Q) (buf : list ServerNetMessage)
  : Z -> option ServerNetMessage -> option ServerNetMessage
    -> list ServerNetMessage -> Prop :=
  | BracketNone :
      Forall (fun m => Qltb t (inject_Z (msg_tick m)) = false) buf ->
      Bracket t buf (-1) None None buf
  | BracketFirst nx rest :
      buf = nx :: rest ->
      Qltb t (inject_Z (msg_tick nx)) = true ->
      Bracket t buf 0 None (Some nx) buf
  | BracketBoth old pv nx rest :
      buf = old ++ pv :: nx :: rest ->
      Forall (fun m => Qltb t (inject_Z (msg_tick m)) = false) (old ++ [pv]) ->
      Qltb t (inject_Z (msg_tick nx)) = true ->
      Bracket t buf (Z.of_nat (length old) + 1) (Some pv) (Some nx) (pv :: nx :: rest).

(** *** Well-formed states

    The server's tick duration is positive, the client's is above its
    floor, both sides hold [NUM_ENTITIES] entities and every message in
    flight or in the buffer carries [NUM_ENTITIES] positions. *)
Definition wellFormed (a : App) : Prop :=
  (0 < server_tickDuration (server a))%Q
  /\ tickDurationFloor (client a)
  /\ length (entities (server_game (server a))) = NUM_ENTITIES
  /\ length (entities (game (client a))) = NUM_ENTITIES
  /\ Forall (fun f => length (entityPositions (message f)) = NUM_ENTITIES)
       (inFlightMessages (sim (net (client a))))
  /\ Forall (fun m => length (entityPositions m) = NUM_ENTITIES)
       (backBuffer (net (client a))).

(** *** Network conditions *)

(** Assignments to [client.net.sim.latency], [.jitter] and [.packetLoss]
    (the program exposes [app] on [window]; it has no other way to set
    them). *)
Definition set_simConditions (lat jit loss : Q) (c : Client) : Client :=
  let n := net c in
  mkClient (game c)
    (mkClientNet (mkNetSim lat jit loss (inFlightMessages (sim n)))
       (measured n) (lastReceivedTick n) (backBuffer n) (interpolationDelay n))
    (tick c) (tickAccumulator c) (clockPaused c) (tickDuration c)
    (prevNetState c) (nextNetState c).

Definition simConditions (c : Client) : Q * Q * Q :=
  (sim_latency (sim (net c)), sim_jitter (sim (net c)), sim_packetLoss (sim (net c))).

(** ** Example states and inputs *)

(** A frame at time [t] (milliseconds) whose random draws are [0] and
    whose entities stand still. *)
Definition stillPhysics : Physics := fun _ _ _ e => e.

Definition frameAt (t : Q) : FrameInput := mkFrameInput t 0 0 stillPhysics.

Definition exampleEntities : list Entity :=
  [mkEntity (mkVec2 0.1 0.2) 0.2 0 0; mkEntity (mkVec2 0.3 0.4) 0.2 1 0;
   mkEntity (mkVec2 0.5 0.6) 0.1 2 0; mkEntity (mkVec2 0.7 0.8) 0.3 3 0].

(** A message as the server builds it, for the tick [t]. *)
Definition exampleMessage (t : Z) : ServerNetMessage :=
  mkMessage t (map position exampleEntities).

(** The client after a message of tick 5, and a message of tick 3. *)
Definition stale_example_client : Client :=
  onReceiveServerMessage client0 (exampleMessage 5).

Definition stale_example_message : ServerNetMessage := exampleMessage 3.

(** A run in which jitter reorders two messages: latency 200, jitter 100.
    The message of tick 1 is sent with the delay 198 ms and the message of
    tick 3 with the delay 0, so tick 3 is delivered first (second frame)
    and tick 1 arrives stale (third frame). *)
Definition reorderWorld : World :=
  mkWorld
    (mkApp (server (initAppState exampleEntities))
           (set_simConditions 200 100 0 (client (initAppState exampleEntities))))
    0.

Definition reorderFrames : list FrameInput :=
  [mkFrameInput 20 0 0.99 stillPhysics; mkFrameInput 40 0 0 stillPhysics].

Definition reorderLastFrame : FrameInput := mkFrameInput 199 0 0.99 stillPhysics.


(** Scenario C of the specification: the buffer holds tick 5 at [(0, 0)]
    and tick 7 at [(10, 10)], for one entity. *)
Definition scenarioC : Client :=
  set_backBuffer [mkMessage 5 [mkVec2 0 0]; mkMessage 7 [mkVec2 10 10]]
    (set_entities [clientEntity0] client0).

(** Latency 10 ms with jitter 20 ms: the draw [rJitter = 0] gives the
    delay [(5 - 20) / 1000 < 0]. *)
Definition negativeDelayApp : App :=
  mkApp (mkServer (mkGame exampleEntities) 3 SERVER_TICK_DURATION 0)
        (set_simConditions 10 20 0 client0).

(** Settings outside every range of the specification: latency -10,
    jitter -5, packet loss 2. *)
Definition invalidConditionsWorld : World :=
  mkWorld
    (mkApp (server (initAppState exampleEntities))
           (set_simConditions (-10) (-5) 2 (client (initAppState exampleEntities))))
    0.

(** *** The server's clock

    The server's tick duration is the constant, its tick counter is not
    negative, and its accumulator lies in [[0, SERVER_TICK_DURATION]] and
    is positive once a tick has been counted. *)
Definition serverClock (w : World) : Prop :=
  let s := server (app w) in
  server_tickDuration s = SERVER_TICK_DURATION
  /\ 0 <= server_tick s
  /\ (0 <= server_tickAccumulator s)%Q
  /\ (server_tickAccumulator s <= SERVER_TICK_DURATION)%Q
  /\ (0 < server_tick s -> (0 < server_tickAccumulator s)%Q).

(** The newest buffered snapshot carries [lastReceivedTick]; while the
    buffer is empty, [lastReceivedTick] still has its initial value. *)
Definition newestIsLastReceived (c : Client) : Prop :=
  match last (backBuffer (net c)) with
  | Some newest => msg_tick newest = lastReceivedTick (net c)
  | None => lastReceivedTick (net c) = lastReceivedTick (net client0)
  end.

(** *** First in, first out

    With no jitter the queue is in delivery order: ticks strictly
    increasing and all above [lastReceivedTick], times remaining
    non-decreasing and at most the one-way latency. *)
Definition fifoQueue (a : App) : Prop :=
  let c := client a in
  let q := inFlightMessages (sim (net c)) in
  (sim_jitter (sim (net c)) == 0)%Q
  /\ StronglySorted Z.lt (queueTicks c)
  /\ Forall (fun t => lastReceivedTick (net c) < t /\ t <= server_tick (server a))
       (queueTicks c)
  /\ lastReceivedTick (net c) <= server_tick (server a)
  /\ StronglySorted Qle (map timeRemaining q)
  /\ Forall (fun f => (timeRemaining f <= sim_latency (sim (net c)) / 2 / 1000)%Q) q.

(** ** serverTick, entity by entity

    The body of [serverEntities.forEach] with the mathematical library as
    a parameter: [Math.cos], [Math.sin], [Math.atan2] and [Math.PI] have no
    exact rational value; [Math.abs] is [Qabs].  [rTurn] and [rVelocity]
    are the two values of [Math.random()], the second only drawn when
    [rTurn < 0.05]. *)
Record MathLib := mkMathLib {
  Math_cos : Q -> Q;
  Math_sin : Q -> Q;
  Math_atan2 : Q -> Q -> Q;
  Math_PI : Q
}.

Definition moveEntity (M : MathLib) (rTurn rVelocity dt : Q) (entity : Entity) : Entity :=
  let angularVelocity1 :=
    if Qltb rTurn 0.05 then (2 * rVelocity - 1)%Q else angularVelocity entity in
  let angle1 := (angle entity + angularVelocity1 * dt)%Q in
  let velocity_x := (Math_cos M angle1 * speed entity)%Q in
  let velocity_y := (Math_sin M angle1 * speed entity)%Q in
  let position_x := (x (position entity) + velocity_x * dt)%Q in
  let position_y := (y (position entity) + velocity_y * dt)%Q in
  let '(position_x1, velocity_x1) :=
    if Qltb 1 position_x then (1%Q, (- Qabs velocity_x)%Q)
    else if Qltb position_x 0 then (0%Q, Qabs velocity_x)
    else (position_x, velocity_x) in
  let '(position_y1, velocity_y1) :=
    if Qltb 1 position_y then (1%Q, (- Qabs velocity_y)%Q)
    else if Qltb position_y 0 then (0%Q, Qabs velocity_y)
    else (position_y, velocity_y) in
  let angle2 := Math_atan2 M velocity_y1 velocity_x1 in
  let angle3 := if Qltb angle2 0 then (angle2 + 2 * Math_PI M)%Q else angle2 in
  mkEntity (mkVec2 position_x1 position_y1) (speed entity) angle3 angularVelocity1.

(** The motion of the program as a [Physics]: the random draws of each
    tick and entity are given by [rTurn] and [rVelocity]. *)
Definition entityPhysics (M : MathLib) (rTurn rVelocity : Z -> nat -> Q) : Physics :=
  fun tk dt idx entity => moveEntity M (rTurn tk idx) (rVelocity tk idx) dt entity.

(** *** The unit square *)

Definition inUnitSquare (p : Vec2) : Prop :=
  ((0 <= x p)%Q /\ (x p <= 1)%Q) /\ ((0 <= y p)%Q /\ (y p <= 1)%Q).

Definition boundedPhysics (phys : Physics) : Prop :=
  forall tk dt idx e, inUnitSquare (position (phys tk dt idx e)).

Definition unitMessage (m : ServerNetMessage) : Prop :=
  Forall inUnitSquare (entityPositions m).

(** The client's entities and every position in flight or in the buffer
    are in the unit square. *)
Definition unitSquares (c : Client) : Prop :=
  Forall (fun e => inUnitSquare (position e)) (entities (game c))
  /\ Forall (fun f => unitMessage (message f)) (inFlightMessages (sim (net c)))
  /\ Forall unitMessage (backBuffer (net c)).

(** Exact stand-ins for the mathematical library, for the examples: the
    heading is always along the first axis. *)
Definition exampleMath : MathLib :=
  mkMathLib (fun _ => 1%Q) (fun _ => 0%Q) (fun _ _ => 0%Q) (355 / 113)%Q.

(** *** Total loss *)

(** Nothing in flight, nothing buffered, and every packet is dropped. *)
Definition starved (c : Client) : Prop :=
  inFlightMessages (sim (net c)) = []
  /\ backBuffer (net c) = []
  /\ (1 <= sim_packetLoss (sim (net c)))%Q.

(** The initial state with packet loss 1. *)
Definition totalLossWorld (es : list Entity) : World :=
  mkWorld
    (mkApp (server (initAppState es))
           (set_simConditions 200 0 1 (client (initAppState es))))
    0.

(** ** Binary64

    The lines of the program whose outcome depends on rounding, over
    binary64: [+], [-], [*], [/] and the comparisons are those of IEEE 754
    with rounding to nearest, as in JavaScript; a decimal literal denotes
    the nearest binary64 value, as in JavaScript. *)

(** [lerp] of src/math.ts *)
Definition lerp64 (a b alpha : float) : float := (a + (b - a) * alpha)%float.

Definition SERVER_TICK_DURATION64 : float := (1 / 90)%float.

(** [const rdt = (t - lastFrameTime) / 1000] *)
Definition frameDuration64 (t lastFrameTime : float) : float :=
  ((t - lastFrameTime) / 1000)%float.




(** [while (acc > dur) { acc -= dur; tick++; }], the loop of the server
    and of the client clock. *)
Fixpoint tickLoop64 (fuel : nat) (tk : Z) (acc dur : float) : option (Z * float) :=
  if (dur <? acc)%float then
    match fuel with
    | O => None
    | S n => tickLoop64 n (tk + 1) (acc - dur)%float dur
    end
  else Some (tk, acc).

(** The server's tick counter and accumulator over the frames with the
    timestamps [ts]. *)
Fixpoint serverClock64 (fuel : nat) (ts : list float) (lastFrameTime : float)
    (tk : Z) (acc : float) : option (Z * float) :=
  match ts with
  | [] => Some (tk, acc)
  | t :: ts' =>
      match tickLoop64 fuel tk (acc + frameDuration64 t lastFrameTime)%float
              SERVER_TICK_DURATION64 with
      | Some (tk', acc') => serverClock64 fuel ts' t tk' acc'
      | None => None
      end
  end.

(** * Properties *)

(** ** Comparisons *)

Lemma Qltb_lt (a b : Q) : Qltb a b = true <-> (a < b)%Q.
Proof.
  unfold Qltb. rewrite negb_true_iff.
  destruct (Qle_bool b a) eqn:E.
  - apply Qle_bool_iff in E. split; [discriminate | lra].
  - split; [intros _ | reflexivity].
    destruct (Qlt_le_dec a b) as [H | H]; [exact H |].
    apply Qle_bool_iff in H. congruence.
Qed.

Lemma Qltb_ge (a b : Q) : Qltb a b = false <-> (b <= a)%Q.
Proof.
  unfold Qltb. rewrite negb_false_iff. apply Qle_bool_iff.
Qed.

(** ** The admission gate *)

Section Receive.
Variables (c : Client) (m : ServerNetMessage).

Let sample : Q := (inject_Z (msg_tick m) - clientTime c)%Q.
Let window : list Q := pushSample sample (jitterBackBuffer (measured (net c))).

Lemma receive_window :
  jitterBackBuffer (measured (net (onReceiveServerMessage c m))) = window.
Proof.
  unfold onReceiveServerMessage. cbn.
  destruct (msg_tick m <? lastReceivedTick (net c)); [reflexivity |].
  destruct (clockPaused c); reflexivity.
Qed.

Lemma receive_tickDuration :
  tickDuration (onReceiveServerMessage c m) = driftCorrected window.
Proof.
  unfold onReceiveServerMessage. cbn.
  destruct (msg_tick m <? lastReceivedTick (net c)); [reflexivity |].
  destruct (clockPaused c); reflexivity.
Qed.

Lemma receive_stale :
  msg_tick m < lastReceivedTick (net c) ->
  onReceiveServerMessage c m
  = set_tickDuration (driftCorrected window) (set_jitterBackBuffer window c).
Proof.
  intros H. unfold onReceiveServerMessage. cbn.
  apply Z.ltb_lt in H. rewrite H. reflexivity.
Qed.

Lemma receive_lastReceivedTick :
  lastReceivedTick (net (onReceiveServerMessage c m))
  = Z.max (lastReceivedTick (net c)) (msg_tick m).
Proof.
  unfold onReceiveServerMessage. cbn.
  destruct (Z.ltb_spec (msg_tick m) (lastReceivedTick (net c))).
  - cbn. lia.
  - destruct (clockPaused c); cbn; lia.
Qed.

Lemma receive_backBuffer :
  backBuffer (net (onReceiveServerMessage c m))
  = if msg_tick m <? lastReceivedTick (net c)
    then backBuffer (net c)
    else backBuffer (net c) ++ [m].
Proof.
  unfold onReceiveServerMessage. cbn.
  destruct (msg_tick m <? lastReceivedTick (net c)); [reflexivity |].
  destruct (clockPaused c); reflexivity.
Qed.

Lemma receive_sim :
  sim (net (onReceiveServerMessage c m)) = sim (net c).
Proof.
  unfold onReceiveServerMessage. cbn.
  destruct (msg_tick m <? lastReceivedTick (net c)); [reflexivity |].
  destruct (clockPaused c); reflexivity.
Qed.

Lemma receive_fresh_clock :
  lastReceivedTick (net c) <= msg_tick m ->
  clockPaused (onReceiveServerMessage c m) = false
  /\ (if clockPaused c
      then tick (onReceiveServerMessage c m) = msg_tick m
           /\ tickAccumulator (onReceiveServerMessage c m) = 0%Q
      else tick (onReceiveServerMessage c m) = tick c
           /\ tickAccumulator (onReceiveServerMessage c m) = tickAccumulator c).
Proof.
  intros H. unfold onReceiveServerMessage. cbn.
  apply Z.ltb_ge in H. rewrite H.
  destruct (clockPaused c) eqn:E; cbn; auto.
Qed.
End Receive.

(** C1, as amended.  A message whose tick is below [lastReceivedTick] is
    not admitted: the snapshot buffer, the clock ([tick], [tickAccumulator],
    [clockPaused]), [lastReceivedTick], the bracket, the entities, the
    in-flight queue and the network settings are exactly as before.  The
    offset sample of the message is still pushed to [jitterBackBuffer] and
    [tickDuration] is recomputed from the new window: the measurement
    precedes the gate. *)
Theorem stale_message_effect (c : Client) (m : ServerNetMessage) :
  msg_tick m < lastReceivedTick (net c) ->
  let c' := onReceiveServerMessage c m in
  let w := pushSample (inject_Z (msg_tick m) - clientTime c)%Q
             (jitterBackBuffer (measured (net c))) in
  backBuffer (net c') = backBuffer (net c)
  /\ lastReceivedTick (net c') = lastReceivedTick (net c)
  /\ tick c' = tick c
  /\ tickAccumulator c' = tickAccumulator c
  /\ clockPaused c' = clockPaused c
  /\ prevNetState c' = prevNetState c
  /\ nextNetState c' = nextNetState c
  /\ game c' = game c
  /\ sim (net c') = sim (net c)
  /\ interpolationDelay (net c') = interpolationDelay (net c)
  /\ jitterBackBuffer (measured (net c')) = w
  /\ tickDuration c' = driftCorrected w.
Proof.
  intros H c' w. subst c'. rewrite (receive_stale c m H). cbn.
  repeat split; reflexivity.
Qed.

Lemma stale_message_effect_witness :
  let c' := onReceiveServerMessage stale_example_client stale_example_message in
  backBuffer (net c') = backBuffer (net stale_example_client)
  /\ jitterBackBuffer (measured (net c')) = [5%Q; (3 - (0 + 0 / (8550 # 810000)))%Q].
Proof.
  pose proof (stale_message_effect stale_example_client stale_example_message) as H.
  cbv zeta in H. destruct H as (Hb & _ & _ & _ & _ & _ & _ & _ & _ & _ & Hw & _).
  - vm_compute. reflexivity.
  - split; [exact Hb | rewrite Hw; reflexivity].
Defined.

(** C1 as stated fails: after a message of tick 5, a message of tick 3 is
    stale, yet its arrival changes [jitterBackBuffer] and [tickDuration].
    The same happens in a run of the program: in [reorderWorld] the message
    of tick 1 leaves the queue in the third frame, when [lastReceivedTick]
    is 3; the buffer and [lastReceivedTick] stay as they are and the window
    grows from one sample to two. *)
Lemma stale_message_changes_window :
  (let c := stale_example_client in
   let c' := onReceiveServerMessage c stale_example_message in
   msg_tick stale_example_message < lastReceivedTick (net c)
   /\ jitterBackBuffer (measured (net c')) <> jitterBackBuffer (measured (net c))
   /\ ~ (tickDuration c' == tickDuration c)%Q)
  /\ exists w2 w3,
       runFrames reorderFrames reorderWorld = Ok w2
       /\ frameStep reorderLastFrame w2 = Ok w3
       /\ queueTicks (client (app w2)) = [1]
       /\ queueTicks (client (app w3)) = [17]
       /\ lastReceivedTick (net (client (app w2))) = 3
       /\ lastReceivedTick (net (client (app w3))) = 3
       /\ bufferTicks (client (app w2)) = [3]
       /\ bufferTicks (client (app w3)) = [3]
       /\ length (jitterBackBuffer (measured (net (client (app w2))))) = 1%nat
       /\ length (jitterBackBuffer (measured (net (client (app w3))))) = 2%nat
       /\ ~ (tickDuration (client (app w3)) == tickDuration (client (app w2)))%Q.
Proof.
  split.
  - cbv zeta. split; [reflexivity |]. split.
    + vm_compute. discriminate.
    + vm_compute. discriminate.
  - eexists _, _. split; [vm_compute; reflexivity |].
    split; [vm_compute; reflexivity |].
    repeat split; try (vm_compute; reflexivity). vm_compute. discriminate.
Qed.

(** ** Transport advance as a partition of the queue *)

Lemma deliverInFlight_spec (rdt : Q) (q : list ClientInFlightMessage) (c : Client) :
  deliverInFlight rdt q c
  = (remaining rdt q, fold_left onReceiveServerMessage (delivered rdt q) c).
Proof.
  revert c. induction q as [| f q IH]; intros c; [reflexivity |].
  unfold delivered, remaining in *. cbn [deliverInFlight List.filter].
  cbn [timeRemaining message].
  change (Qle_bool (timeRemaining f - rdt) 0) with (expired rdt f).
  destruct (expired rdt f); cbn [negb].
  - rewrite IH. reflexivity.
  - rewrite IH. reflexivity.
Qed.

Lemma handleReceived_spec (rdt : Q) (c : Client) :
  handleReceived rdt c
  = set_inFlightMessages (remaining rdt (inFlightMessages (sim (net c))))
      (fold_left onReceiveServerMessage (delivered rdt (inFlightMessages (sim (net c)))) c).
Proof.
  unfold handleReceived. rewrite deliverInFlight_spec. reflexivity.
Qed.

Lemma delivered_app (rdt : Q) (q1 q2 : list ClientInFlightMessage) :
  delivered rdt (q1 ++ q2) = delivered rdt q1 ++ delivered rdt q2.
Proof.
  unfold delivered. rewrite List.filter_app, map_app. reflexivity.
Qed.

Lemma remaining_app (rdt : Q) (q1 q2 : list ClientInFlightMessage) :
  remaining rdt (q1 ++ q2) = remaining rdt q1 ++ remaining rdt q2.
Proof.
  unfold remaining. rewrite List.filter_app, map_app. reflexivity.
Qed.

(** ** The accumulator loops terminate for a positive tick duration *)

Lemma tickLoop_enough (dur : Q) (fuel : nat) :
  (0 < dur)%Q ->
  forall (tk : Z) (acc : Q),
    (acc <= (inject_Z (Z.of_nat fuel) + 1) * dur)%Q ->
    exists tk' acc',
      tickLoop fuel tk acc dur = Some (tk', acc')
      /\ (acc' <= dur)%Q
      /\ tk <= tk'
      /\ ((acc <= dur)%Q -> tk' = tk /\ acc' = acc)
      /\ ((0 <= acc)%Q -> (0 <= acc')%Q).
Proof.
  intros Hd. induction fuel as [| n IH]; intros tk acc Hacc.
  - cbn [tickLoop]. change (inject_Z (Z.of_nat 0)) with 0%Q in Hacc.
    assert (Hle : (acc <= dur)%Q) by lra.
    apply Qltb_ge in Hle. rewrite Hle.
    exists tk, acc. apply Qltb_ge in Hle.
    split; [reflexivity |]. split; [exact Hle |]. split; [lia |]. tauto.
  - cbn [tickLoop]. destruct (Qltb dur acc) eqn:E.
    + apply Qltb_lt in E.
      destruct (IH (tk + 1) (acc - dur)%Q) as (tk' & acc' & Hr & Hb & Ht & _ & Hn).
      { rewrite Nat2Z.inj_succ, <- Z.add_1_r, inject_Z_plus in Hacc.
        change (inject_Z 1) with 1%Q in Hacc. lra. }
      exists tk', acc'.
      split; [exact Hr |]. split; [exact Hb |]. split; [lia |]. split.
      * intros Hc. lra.
      * intros Hc. apply Hn. lra.
    + apply Qltb_ge in E. exists tk, acc.
      split; [reflexivity |]. split; [exact E |]. split; [lia |]. tauto.
Qed.

Lemma loopFuel_enough (acc dur : Q) :
  (0 < dur)%Q ->
  (acc <= (inject_Z (Z.of_nat (loopFuel acc dur)) + 1) * dur)%Q.
Proof.
  intros Hd. unfold loopFuel.
  pose proof (Qle_ceiling (acc / dur)) as Hc.
  assert (Hz : (inject_Z (Qceiling (acc / dur))
                <= inject_Z (Z.of_nat (Z.to_nat (Qceiling (acc / dur)))))%Q).
  { rewrite <- Zle_Qle. lia. }
  assert (Hq : (acc / dur <= inject_Z (Z.of_nat (Z.to_nat (Qceiling (acc / dur)))))%Q)
    by lra.
  apply (Qmult_le_r _ _ dur Hd) in Hq.
  assert (Hx : (acc / dur * dur == acc)%Q) by (field; lra).
  rewrite Hx in Hq. lra.
Qed.

Lemma tickLoop_terminates (tk : Z) (acc dur : Q) :
  (0 < dur)%Q ->
  exists tk' acc',
    tickLoop (loopFuel acc dur) tk acc dur = Some (tk', acc')
    /\ (acc' <= dur)%Q
    /\ tk <= tk'
    /\ ((acc <= dur)%Q -> tk' = tk /\ acc' = acc)
    /\ ((0 <= acc)%Q -> (0 <= acc')%Q).
Proof.
  intros Hd. apply tickLoop_enough; [exact Hd |]. apply loopFuel_enough, Hd.
Qed.

(** With a tick duration that is not positive the loop, once entered,
    never exits: running out of fuel stands for a loop that does not
    terminate. *)
Lemma tickLoop_never_exits (dur : Q) (fuel : nat) :
  (dur <= 0)%Q ->
  forall (tk : Z) (acc : Q), (dur < acc)%Q -> tickLoop fuel tk acc dur = None.
Proof.
  intros Hd. induction fuel as [| n IH]; intros tk acc Ha; cbn [tickLoop];
    rewrite (proj2 (Qltb_lt _ _) Ha); [reflexivity |].
  apply IH. lra.
Qed.

(** ** What each phase of the client frame leaves unchanged *)

Lemma updateClientClock_frame (rdt : Q) (c c' : Client) :
  updateClientClock rdt c = Ok c' ->
  game c' = game c /\ net c' = net c /\ clockPaused c' = clockPaused c
  /\ tickDuration c' = tickDuration c
  /\ prevNetState c' = prevNetState c /\ nextNetState c' = nextNetState c.
Proof.
  unfold updateClientClock. destruct (clockPaused c) eqn:Ep.
  - intros [= <-]. rewrite Ep. repeat split; reflexivity.
  - destruct (tickLoop _ _ _ _) as [[tk acc'] |]; [| discriminate].
    intros [= <-]. cbn. rewrite Ep. repeat split; reflexivity.
Qed.

Lemma updateClientClock_paused (rdt : Q) (c : Client) :
  clockPaused c = true -> updateClientClock rdt c = Ok c.
Proof. intros H. unfold updateClientClock. rewrite H. reflexivity. Qed.

Lemma interpolateAt_frame (t : Q) (c c' : Client) :
  interpolateAt t c = Ok c' ->
  tick c' = tick c /\ tickAccumulator c' = tickAccumulator c
  /\ clockPaused c' = clockPaused c /\ tickDuration c' = tickDuration c
  /\ sim (net c') = sim (net c) /\ measured (net c') = measured (net c)
  /\ lastReceivedTick (net c') = lastReceivedTick (net c)
  /\ interpolationDelay (net c') = interpolationDelay (net c)
  /\ backBuffer (net c')
     = spliceFront
         (findIndex (fun m => Qltb t (inject_Z (msg_tick m))) (backBuffer (net c)) - 1)
         (backBuffer (net c)).
Proof.
  unfold interpolateAt.
  set (i := findIndex _ _).
  destruct (at_index (backBuffer (net c)) i) as [nx |].
  - destruct (if 0 <? i then at_index (backBuffer (net c)) (i - 1) else None) as [pv |].
    + destruct (interpolateEntities _ _ _ _ _) as [es |]; [| discriminate].
      intros [= <-]. cbn. repeat split; reflexivity.
    + intros [= <-]. cbn. repeat split; reflexivity.
  - intros [= <-]. cbn. repeat split; reflexivity.
Qed.

Lemma renderClient_frame (c c' : Client) :
  renderClient c = Ok c' ->
  tick c' = tick c /\ tickAccumulator c' = tickAccumulator c
  /\ tickDuration c' = tickDuration c
  /\ sim (net c') = sim (net c) /\ measured (net c') = measured (net c)
  /\ lastReceivedTick (net c') = lastReceivedTick (net c)
  /\ interpolationDelay (net c') = interpolationDelay (net c)
  /\ exists k : nat, backBuffer (net c') = drop k (backBuffer (net c)).
Proof.
  unfold renderClient.
  assert (Hpause : forall d,
    Ok (if clockPaused c then c else set_clockPaused true c) = Ok d ->
    tick d = tick c /\ tickAccumulator d = tickAccumulator c
    /\ tickDuration d = tickDuration c
    /\ sim (net d) = sim (net c) /\ measured (net d) = measured (net c)
    /\ lastReceivedTick (net d) = lastReceivedTick (net c)
    /\ interpolationDelay (net d) = interpolationDelay (net c)
    /\ exists k : nat, backBuffer (net d) = drop k (backBuffer (net c))).
  { intros d [= <-]. destruct (clockPaused c); cbn;
      repeat split; try reflexivity; exists 0%nat; reflexivity. }
  destruct (last (backBuffer (net c))) as [newest |]; [| apply Hpause].
  destruct (Qltb _ _); [apply Hpause |].
  intros H. apply interpolateAt_frame in H.
  destruct H as (H1 & H2 & _ & H4 & H5 & H6 & H7 & H8 & H9).
  repeat split; try assumption. eexists. exact H9.
Qed.

(** ** Invariants of the client, generically

    A property of the client that every phase preserves holds after every
    run; [R] restricts the frame durations for which the clock update is
    known to preserve it. *)

Section ClientInvariant.
Variable P : Client -> Prop.
Variable R : Q -> Prop.

Hypothesis P_receive : forall c m, P c -> P (onReceiveServerMessage c m).
Hypothesis P_queue : forall q c, P c -> P (set_inFlightMessages q c).
Hypothesis P_clock :
  forall rdt c c', R rdt -> P c -> updateClientClock rdt c = Ok c' -> P c'.
Hypothesis P_render : forall c c', P c -> renderClient c = Ok c' -> P c'.

Lemma inv_fold_receive (ms : list ServerNetMessage) (c : Client) :
  P c -> P (fold_left onReceiveServerMessage ms c).
Proof.
  revert c. induction ms as [| m ms IH]; intros c Hc; [exact Hc |].
  cbn. apply IH, P_receive, Hc.
Qed.

Lemma inv_handleReceived (rdt : Q) (c : Client) :
  P c -> P (handleReceived rdt c).
Proof.
  intros Hc. rewrite handleReceived_spec. apply P_queue, inv_fold_receive, Hc.
Qed.

Lemma inv_clientFrame (rdt : Q) (c c' : Client) :
  R rdt -> P c -> clientFrame rdt c = Ok c' -> P c'.
Proof.
  intros Hr Hc. unfold clientFrame.
  destruct (updateClientClock rdt (handleReceived rdt c)) as [c1 | f] eqn:E;
    [| discriminate].
  cbn. apply P_render. eapply P_clock; [exact Hr | | exact E].
  apply inv_handleReceived, Hc.
Qed.

Lemma inv_runClient (ops : list ClientOp) (c c' : Client) :
  Forall (opAllowed R) ops -> P c -> runClient ops c = Ok c' -> P c'.
Proof.
  intros Hops. revert c. induction Hops as [| op ops Hop _ IH]; intros c Hc.
  - intros [= <-]. exact Hc.
  - cbn [runClient]. destruct (stepClient op c) as [c1 | f] eqn:E; [| discriminate].
    cbn [bind]. apply IH.
    destruct op as [m | f | rdt]; cbn in E.
    + injection E as <-. apply P_receive, Hc.
    + injection E as <-. apply P_queue, Hc.
    + eapply inv_clientFrame; [exact Hop | exact Hc | exact E].
Qed.
End ClientInvariant.

(** ** Every frame of the program is a run of client operations *)

Lemma runClient_app (ops1 ops2 : list ClientOp) (c : Client) :
  runClient (ops1 ++ ops2) c = bind (runClient ops1 c) (runClient ops2).
Proof.
  revert c. induction ops1 as [| op ops1 IH]; intros c; [reflexivity |].
  cbn. destruct (stepClient op c); cbn; [apply IH | reflexivity].
Qed.

Lemma serverNetSend_client (rDrop rJitter : Q) (a : App) :
  let s := sim (net (client a)) in
  serverNetSend rDrop rJitter a
  = if Qltb rDrop (sim_packetLoss s) then a
    else mkApp (server a)
           (set_inFlightMessages
              (inFlightMessages s
               ++ [mkInFlight (snapshot (server a))
                     (sendDelay (sim_latency s) (sim_jitter s) rJitter)])
              (client a)).
Proof. reflexivity. Qed.

Lemma serverFrame_client (i : FrameInput) (rdt : Q) (a a1 : App) :
  serverFrame i rdt a = Ok a1 ->
  client a1 = client a
  \/ exists f, client a1
               = set_inFlightMessages (inFlightMessages (sim (net (client a))) ++ [f])
                   (client a).
Proof.
  unfold serverFrame.
  destruct (serverLoop _ _ _ _) as [[s1 ticked] |]; [| discriminate].
  intros [= <-]. destruct ticked; [| left; reflexivity].
  rewrite serverNetSend_client. cbn.
  destruct (Qltb _ _); [left; reflexivity |].
  right. eexists. reflexivity.
Qed.

Lemma frameStep_lastFrameTime (i : FrameInput) (w w' : World) :
  frameStep i w = Ok w' -> lastFrameTime w' = frame_t i.
Proof.
  unfold frameStep. destruct (serverFrame _ _ _) as [a1 |]; [| discriminate]. cbn.
  destruct (clientFrame _ _) as [c1 |]; [| discriminate]. cbn.
  destruct (drawEntities c1) as [[] |]; [| discriminate]. cbn.
  intros [= <-]. reflexivity.
Qed.

Lemma frameStep_runClient (R : Q -> Prop) (i : FrameInput) (w w' : World) :
  frameStep i w = Ok w' ->
  R ((frame_t i - lastFrameTime w) / 1000)%Q ->
  exists ops, Forall (opAllowed R) ops
              /\ runClient ops (client (app w)) = Ok (client (app w')).
Proof.
  unfold frameStep. intros H Hr.
  destruct (serverFrame _ _ _) as [a1 |] eqn:Es; [| discriminate]. cbn in H.
  destruct (clientFrame _ _) as [c1 |] eqn:Ec; [| discriminate]. cbn in H.
  destruct (drawEntities c1) as [[] |]; [| discriminate]. cbn in H.
  injection H as <-. cbn.
  destruct (serverFrame_client _ _ _ _ Es) as [Hc | [f Hc]]; rewrite Hc in Ec.
  - exists [OpFrame ((frame_t i - lastFrameTime w) / 1000)%Q]. split.
    + repeat constructor. exact Hr.
    + cbn. rewrite Ec. reflexivity.
  - exists [OpSend f; OpFrame ((frame_t i - lastFrameTime w) / 1000)%Q]. split.
    + repeat constructor. exact Hr.
    + cbn. rewrite Ec. reflexivity.
Qed.

Lemma runFrames_runClient (R : Q -> Prop) (ins : list FrameInput) (w w' : World) :
  runFrames ins w = Ok w' ->
  framesAllowed R ins (lastFrameTime w) ->
  exists ops, Forall (opAllowed R) ops
              /\ runClient ops (client (app w)) = Ok (client (app w')).
Proof.
  revert w. induction ins as [| i ins IH]; intros w H Hr.
  - injection H as <-. exists []. split; [constructor | reflexivity].
  - cbn in H. destruct (frameStep i w) as [w1 |] eqn:E; [| discriminate].
    destruct Hr as [Hr1 Hr2]. cbn in H.
    destruct (frameStep_runClient R _ _ _ E Hr1) as (ops1 & Ho1 & Hrun1).
    rewrite <- (frameStep_lastFrameTime _ _ _ E) in Hr2.
    destruct (IH w1 H Hr2) as (ops2 & Ho2 & Hrun2).
    exists (ops1 ++ ops2). split.
    + apply Forall_app. split; assumption.
    + rewrite runClient_app, Hrun1. exact Hrun2.
Qed.

Lemma framesAllowed_True (ins : list FrameInput) (t0 : Q) :
  framesAllowed (fun _ => True) ins t0.
Proof.
  revert t0. induction ins as [| i ins IH]; intros t0; cbn; auto.
Qed.

Lemma opAllowed_True (ops : list ClientOp) : Forall (opAllowed (fun _ => True)) ops.
Proof.
  induction ops as [| op ops IH]; constructor; [destruct op; exact I | exact IH].
Qed.

(** ** The floor of the tick duration *)

Lemma tickDurationFloor_positive (c : Client) :
  tickDurationFloor c -> (0 < tickDuration c)%Q.
Proof.
  unfold tickDurationFloor, SERVER_TICK_DURATION. intros H.
  assert (0 < 1 / 90 * 0.9)%Q by reflexivity. lra.
Qed.

Lemma floor_receive (c : Client) (m : ServerNetMessage) :
  tickDurationFloor (onReceiveServerMessage c m).
Proof.
  unfold tickDurationFloor. rewrite receive_tickDuration.
  unfold driftCorrected. apply Q.le_max_l.
Qed.

Lemma floor_runClient (ops : list ClientOp) (c c' : Client) :
  tickDurationFloor c -> runClient ops c = Ok c' -> tickDurationFloor c'.
Proof.
  apply (inv_runClient tickDurationFloor (fun _ => True)).
  - intros c1 m _. apply floor_receive.
  - intros q c1 H. exact H.
  - intros rdt c1 c2 _ H E. unfold tickDurationFloor.
    destruct (updateClientClock_frame _ _ _ E) as (_ & _ & _ & -> & _). exact H.
  - intros c1 c2 H E. unfold tickDurationFloor.
    destruct (renderClient_frame _ _ E) as (_ & _ & -> & _). exact H.
  - apply opAllowed_True.
Qed.

Lemma floor_client0 : tickDurationFloor client0.
Proof. unfold tickDurationFloor. vm_compute. discriminate. Qed.

Lemma mean_window_nonempty (d : Q) (w : list Q) : pushSample d w <> [].
Proof.
  unfold pushSample.
  destruct (Nat.ltb_spec MAX_JITTER_ROLLING_AVERAGE (length (w ++ [d]))) as [H | H].
  - intros E. apply (f_equal length) in E. rewrite length_drop in E.
    unfold MAX_JITTER_ROLLING_AVERAGE in *. cbn in E. lia.
  - destruct w; discriminate.
Qed.

Lemma clientFrame_tickDuration_quiet (rdt : Q) (c c' : Client) :
  clientFrame rdt c = Ok c' ->
  delivered rdt (inFlightMessages (sim (net c))) = [] ->
  tickDuration c' = tickDuration c.
Proof.
  unfold clientFrame. intros H Hd.
  destruct (updateClientClock rdt (handleReceived rdt c)) as [c1 |] eqn:E;
    [| discriminate].
  cbn in H.
  destruct (renderClient_frame _ _ H) as (_ & _ & -> & _).
  destruct (updateClientClock_frame _ _ _ E) as (_ & _ & _ & -> & _).
  rewrite handleReceived_spec, Hd. reflexivity.
Qed.

(** C2.  In every state that a run of [frameStep] reaches from the initial
    state, and after every run of client operations against an arbitrary
    sender, [tickDuration >= 0.9 * SERVER_TICK_DURATION].  The reason:
    [onReceiveServerMessage] assigns
    [max(base * 0.9, base - 0.01 * (avg * base))], [avg] being the mean of
    the (non-empty) window it has just updated, and nothing else assigns
    [tickDuration]: the clock update, the pause check with the
    interpolation, and a frame that delivers no message leave it as it is. *)
Theorem tickDuration_floor (es : list Entity) (ins : list FrameInput) (w : World) :
  runFrames ins (initWorld es) = Ok w ->
  (SERVER_TICK_DURATION * 0.9 <= tickDuration (client (app w)))%Q
  /\ (forall ops c, runClient ops client0 = Ok c ->
        (SERVER_TICK_DURATION * 0.9 <= tickDuration c)%Q)
  /\ (forall c m,
        let c' := onReceiveServerMessage c m in
        let window := jitterBackBuffer (measured (net c')) in
        window <> []
        /\ tickDuration c'
           = Qmax (SERVER_TICK_DURATION * 0.9)
               (SERVER_TICK_DURATION
                - 0.01 * (Qsum window / Qlength window * SERVER_TICK_DURATION)))
  /\ (forall rdt c c', updateClientClock rdt c = Ok c' ->
        tickDuration c' = tickDuration c)
  /\ (forall c c', renderClient c = Ok c' -> tickDuration c' = tickDuration c)
  /\ (forall rdt c c', clientFrame rdt c = Ok c' ->
        delivered rdt (inFlightMessages (sim (net c))) = [] ->
        tickDuration c' = tickDuration c).
Proof.
  intros Hrun. split; [| split; [| split; [| split; [| split]]]].
  - destruct (runFrames_runClient (fun _ => True) _ _ _ Hrun (framesAllowed_True _ _))
      as (ops & _ & Hops).
    exact (floor_runClient ops _ _ floor_client0 Hops).
  - intros ops c. apply floor_runClient, floor_client0.
  - intros c m c' window. subst c' window. rewrite receive_window. split.
    + apply mean_window_nonempty.
    + apply receive_tickDuration.
  - intros rdt c c' E. destruct (updateClientClock_frame _ _ _ E) as (_ & _ & _ & H & _).
    exact H.
  - intros c c' E. destruct (renderClient_frame _ _ E) as (_ & _ & H & _). exact H.
  - apply clientFrame_tickDuration_quiet.
Qed.

Lemma tickDuration_floor_witness :
  exists w, runFrames [frameAt 20; frameAt 120] (initWorld exampleEntities) = Ok w
            /\ (SERVER_TICK_DURATION * 0.9 <= tickDuration (client (app w)))%Q
            /\ jitterBackBuffer (measured (net (client (app w)))) <> [].
Proof.
  eexists. split; [vm_compute; reflexivity |]. split.
  - refine (proj1 (tickDuration_floor exampleEntities [frameAt 20; frameAt 120] _ _)).
    vm_compute. reflexivity.
  - vm_compute. discriminate.
Defined.

(** ** lastReceivedTick never decreases *)

Lemma lastReceivedTick_runClient (ops : list ClientOp) (c c' : Client) :
  runClient ops c = Ok c' ->
  lastReceivedTick (net c) <= lastReceivedTick (net c').
Proof.
  intros H.
  apply (inv_runClient (fun d => lastReceivedTick (net c) <= lastReceivedTick (net d))
           (fun _ => True)) with (ops := ops) (c := c); auto.
  - intros c1 m Hc. rewrite receive_lastReceivedTick. lia.
  - intros rdt c1 c2 _ Hc E.
    destruct (updateClientClock_frame _ _ _ E) as (_ & -> & _). exact Hc.
  - intros c1 c2 Hc E.
    destruct (renderClient_frame _ _ E) as (_ & _ & _ & _ & _ & -> & _). exact Hc.
  - apply opAllowed_True.
  - lia.
Qed.

(** C6.  Over any run of frames, from any state and so with any messages
    in flight, [lastReceivedTick] at the end is at least what it was at the
    start; the same holds for any run of client operations against an
    arbitrary sender.  A delivery sets it to the maximum of its old value
    and the message's tick; the clock update and the pause check with the
    interpolation do not assign it. *)
Theorem lastReceivedTick_nondecreasing (ins : list FrameInput) (w w' : World) :
  runFrames ins w = Ok w' ->
  lastReceivedTick (net (client (app w))) <= lastReceivedTick (net (client (app w')))
  /\ (forall ops c c', runClient ops c = Ok c' ->
        lastReceivedTick (net c) <= lastReceivedTick (net c'))
  /\ (forall c m,
        lastReceivedTick (net (onReceiveServerMessage c m))
        = Z.max (lastReceivedTick (net c)) (msg_tick m))
  /\ (forall rdt c c', updateClientClock rdt c = Ok c' ->
        lastReceivedTick (net c') = lastReceivedTick (net c))
  /\ (forall c c', renderClient c = Ok c' ->
        lastReceivedTick (net c') = lastReceivedTick (net c)).
Proof.
  intros Hrun. split; [| split; [| split; [| split]]].
  - destruct (runFrames_runClient (fun _ => True) _ _ _ Hrun (framesAllowed_True _ _))
      as (ops & _ & Hops).
    exact (lastReceivedTick_runClient ops _ _ Hops).
  - apply lastReceivedTick_runClient.
  - apply receive_lastReceivedTick.
  - intros rdt c c' E. destruct (updateClientClock_frame _ _ _ E) as (_ & -> & _).
    reflexivity.
  - intros c c' E. destruct (renderClient_frame _ _ E) as (_ & _ & _ & _ & _ & H & _).
    exact H.
Qed.

Lemma lastReceivedTick_nondecreasing_witness :
  exists w, runFrames [frameAt 20; frameAt 120] (initWorld exampleEntities) = Ok w
            /\ lastReceivedTick (net (client (app (initWorld exampleEntities))))
               <= lastReceivedTick (net (client (app w)))
            /\ lastReceivedTick (net (client (app w))) = 10.
Proof.
  eexists. split; [vm_compute; reflexivity |]. split.
  - refine (proj1 (lastReceivedTick_nondecreasing [frameAt 20; frameAt 120] _ _ _)).
    vm_compute. reflexivity.
  - reflexivity.
Defined.

(** ** Order of the snapshot buffer *)

Lemma bufferTicks_receive (c : Client) (m : ServerNetMessage) :
  bufferTicks (onReceiveServerMessage c m)
  = if msg_tick m <? lastReceivedTick (net c)
    then bufferTicks c
    else bufferTicks c ++ [msg_tick m].
Proof.
  unfold bufferTicks. rewrite receive_backBuffer.
  destruct (msg_tick m <? lastReceivedTick (net c)); [reflexivity |].
  rewrite map_app. reflexivity.
Qed.

Lemma StronglySorted_drop {A} (R : relation A) (k : nat) (l : list A) :
  StronglySorted R l -> StronglySorted R (drop k l).
Proof.
  intros H. rewrite <- (take_drop k l) in H.
  exact (StronglySorted_app_1_r R _ _ H).
Qed.

Lemma bufferBounded_receive (c : Client) (m : ServerNetMessage) :
  bufferBounded c -> bufferBounded (onReceiveServerMessage c m).
Proof.
  unfold bufferBounded. intros H.
  rewrite bufferTicks_receive, receive_lastReceivedTick.
  destruct (Z.ltb_spec (msg_tick m) (lastReceivedTick (net c))) as [Hlt | Hge].
  - eapply Forall_impl; [exact H |]. cbn. intros t Ht. lia.
  - apply Forall_app. split.
    + eapply Forall_impl; [exact H |]. cbn. intros t Ht. lia.
    + repeat constructor. lia.
Qed.

(** Admission keeps the buffer ordered by [R], where [R] is [<=], or [<]
    when the tick of the message differs from [lastReceivedTick]. *)
Lemma ordered_receive (R : relation Z) (c : Client) (m : ServerNetMessage) :
  (forall t, t <= lastReceivedTick (net c) ->
             lastReceivedTick (net c) <= msg_tick m -> R t (msg_tick m)) ->
  bufferBounded c ->
  StronglySorted R (bufferTicks c) ->
  StronglySorted R (bufferTicks (onReceiveServerMessage c m)).
Proof.
  intros HR Hb Hs. rewrite bufferTicks_receive.
  destruct (Z.ltb_spec (msg_tick m) (lastReceivedTick (net c))) as [Hlt | Hge];
    [exact Hs |].
  apply StronglySorted_app_2; [| exact Hs | repeat constructor].
  intros t1 t2 H1 H2. apply list_elem_of_singleton in H2. subst t2.
  unfold bufferBounded in Hb. rewrite Forall_forall in Hb.
  apply HR; [apply Hb, H1 | exact Hge].
Qed.

Lemma ordered_render (R : relation Z) (c c' : Client) :
  renderClient c = Ok c' ->
  (bufferBounded c -> bufferBounded c')
  /\ (StronglySorted R (bufferTicks c) -> StronglySorted R (bufferTicks c')).
Proof.
  intros E. destruct (renderClient_frame _ _ E) as (_ & _ & _ & _ & _ & Hl & _ & k & Hk).
  unfold bufferBounded, bufferTicks. rewrite Hk, Hl, <- skipn_map. split.
  - apply Forall_drop.
  - apply StronglySorted_drop.
Qed.

Lemma ordered_trim (R : relation Z) (t : Q) (c c' : Client) :
  interpolateAt t c = Ok c' ->
  StronglySorted R (bufferTicks c) -> StronglySorted R (bufferTicks c').
Proof.
  intros E. destruct (interpolateAt_frame _ _ _ E) as (_ & _ & _ & _ & _ & _ & _ & _ & Hk).
  unfold bufferTicks, spliceFront in *. rewrite Hk, <- skipn_map.
  apply StronglySorted_drop.
Qed.

Lemma ascending_runClient (ops : list ClientOp) (c c' : Client) :
  StronglySorted Z.le (bufferTicks c) /\ bufferBounded c ->
  runClient ops c = Ok c' ->
  StronglySorted Z.le (bufferTicks c') /\ bufferBounded c'.
Proof.
  apply (inv_runClient
           (fun d => StronglySorted Z.le (bufferTicks d) /\ bufferBounded d)
           (fun _ => True)).
  - intros c1 m [Hs Hb]. split.
    + apply ordered_receive; auto. intros; lia.
    + apply bufferBounded_receive, Hb.
  - intros q c1 H. exact H.
  - intros rdt c1 c2 _ H E. unfold bufferBounded, bufferTicks in *.
    destruct (updateClientClock_frame _ _ _ E) as (_ & -> & _). exact H.
  - intros c1 c2 [Hs Hb] E. destruct (ordered_render Z.le _ _ E) as [H1 H2]. auto.
  - apply opAllowed_True.
Qed.

(** *** In the program's own runs all ticks are distinct *)

Lemma remaining_ticks (rdt : Q) (q : list ClientInFlightMessage) :
  map inFlightTick (remaining rdt q)
  = map inFlightTick (List.filter (fun f => negb (expired rdt f)) q).
Proof.
  unfold remaining. rewrite map_map. reflexivity.
Qed.

Lemma delivered_ticks (rdt : Q) (q : list ClientInFlightMessage) :
  map msg_tick (delivered rdt q) = map inFlightTick (List.filter (expired rdt) q).
Proof.
  unfold delivered. rewrite map_map. reflexivity.
Qed.

Lemma filter_ticks_Forall (P : Z -> Prop) (p : ClientInFlightMessage -> bool)
    (q : list ClientInFlightMessage) :
  Forall P (map inFlightTick q) -> Forall P (map inFlightTick (List.filter p q)).
Proof.
  induction q as [| f q IH]; cbn; [auto |].
  intros H. apply Forall_cons in H as [H1 H2].
  destruct (p f); cbn; auto.
Qed.

Lemma filter_ticks_sorted (p : ClientInFlightMessage -> bool)
    (q : list ClientInFlightMessage) :
  StronglySorted Z.lt (map inFlightTick q) ->
  StronglySorted Z.lt (map inFlightTick (List.filter p q)).
Proof.
  induction q as [| f q IH]; cbn; [auto |].
  intros H. apply StronglySorted_cons in H as [H1 H2].
  destruct (p f); cbn; auto.
  apply StronglySorted_cons. split; [| auto].
  apply filter_ticks_Forall, H1.
Qed.

(** A delivered tick is not the tick of a message that stays in flight. *)
Lemma delivered_not_remaining (rdt : Q) (q : list ClientInFlightMessage) :
  StronglySorted Z.lt (map inFlightTick q) ->
  Forall (fun t => Forall (fun u => u <> t) (map inFlightTick (remaining rdt q)))
    (map msg_tick (delivered rdt q)).
Proof.
  rewrite remaining_ticks, delivered_ticks.
  induction q as [| f q IH]; cbn; [constructor |].
  intros H. apply StronglySorted_cons in H as [H1 H2].
  specialize (IH H2).
  destruct (expired rdt f); cbn.
  - constructor; [| exact IH].
    apply filter_ticks_Forall. eapply Forall_impl; [exact H1 |].
    cbn. intros u Hu. lia.
  - assert (Hgt : Forall (Z.lt (inFlightTick f))
                    (map inFlightTick (List.filter (expired rdt) q)))
      by (apply filter_ticks_Forall, H1).
    pose proof (proj2 (Forall_and _ _) (conj IH Hgt)) as Hboth.
    eapply Forall_impl; [exact Hboth |]. cbn. intros t [Ht Hlt].
    constructor; [lia | exact Ht].
Qed.

Lemma fold_receive_sim (ms : list ServerNetMessage) (c : Client) :
  sim (net (fold_left onReceiveServerMessage ms c)) = sim (net c).
Proof.
  revert c. induction ms as [| m ms IH]; intros c; [reflexivity |].
  cbn. rewrite IH. apply receive_sim.
Qed.

Lemma strict_fold_receive (ms : list ServerNetMessage) (c : Client) :
  StronglySorted Z.lt (bufferTicks c) ->
  bufferBounded c ->
  StronglySorted Z.lt (map msg_tick ms) ->
  Forall (fun t => t <> lastReceivedTick (net c)) (map msg_tick ms) ->
  let c' := fold_left onReceiveServerMessage ms c in
  StronglySorted Z.lt (bufferTicks c')
  /\ bufferBounded c'
  /\ (lastReceivedTick (net c') = lastReceivedTick (net c)
      \/ lastReceivedTick (net c') ∈ map msg_tick ms).
Proof.
  revert c. induction ms as [| m ms IH]; intros c Hs Hb Hms Hne; cbn.
  - auto.
  - cbn in Hms, Hne. apply StronglySorted_cons in Hms as [Hlt Hms].
    apply Forall_cons in Hne as [Hm Hne].
    destruct (IH (onReceiveServerMessage c m)) as (H1 & H2 & H3).
    + apply ordered_receive; auto. intros t Ht Hge. lia.
    + apply bufferBounded_receive, Hb.
    + exact Hms.
    + rewrite receive_lastReceivedTick.
      pose proof (proj2 (Forall_and _ _) (conj Hlt Hne)) as Hboth.
      eapply Forall_impl; [exact Hboth |]. cbn. intros t [Ht1 Ht2]. lia.
    + split; [exact H1 |]. split; [exact H2 |].
      rewrite receive_lastReceivedTick in H3.
      destruct H3 as [H3 | H3].
      * destruct (Z.max_spec (lastReceivedTick (net c)) (msg_tick m)) as [[_ E] | [_ E]];
          rewrite E in H3.
        -- right. rewrite H3. apply elem_of_cons. left. reflexivity.
        -- left. exact H3.
      * right. apply elem_of_cons. right. exact H3.
Qed.

Lemma serverLoop_tick (phys : Physics) (fuel : nat) :
  forall (s : Server) (tk : bool) (s1 : Server) (tk1 : bool),
    serverLoop fuel phys s tk = Some (s1, tk1) ->
    server_tick s <= server_tick s1
    /\ (tk1 = true -> tk = true \/ server_tick s < server_tick s1)
    /\ server_tickDuration s1 = server_tickDuration s.
Proof.
  induction fuel as [| n IH]; intros s tk s1 tk1; cbn [serverLoop].
  - destruct (Qltb _ _); [discriminate |]. intros [= <- <-].
    split; [lia |]. split; [auto | reflexivity].
  - destruct (Qltb _ _).
    + intros H. apply IH in H. cbn in H. destruct H as (H1 & H2 & H3).
      split; [lia |]. split; [| exact H3]. intros _. right. lia.
    + intros [= <- <-]. split; [lia |]. split; [auto | reflexivity].
Qed.

Lemma distinct_serverFrame (i : FrameInput) (rdt : Q) (a a1 : App) :
  distinctTicks a -> serverFrame i rdt a = Ok a1 -> distinctTicks a1.
Proof.
  intros (Hs & Hb & Hq & Hf & Hl). unfold serverFrame.
  destruct (serverLoop _ _ _ _) as [[s1 ticked] |] eqn:E; [| discriminate].
  apply serverLoop_tick in E. cbn in E. destruct E as (Hle & Hlt & _).
  assert (Hkeep : distinctTicks (mkApp s1 (client a))).
  { unfold distinctTicks. cbn. repeat split; auto; try lia.
    eapply Forall_impl; [exact Hf |]. cbn. intros t [Ht1 Ht2]. split; [lia | exact Ht2]. }
  intros [= <-]. destruct ticked; [| exact Hkeep].
  rewrite serverNetSend_client. cbn.
  destruct (Qltb _ _); [exact Hkeep |].
  destruct Hlt as [Hlt | Hlt]; [reflexivity | discriminate |].
  unfold distinctTicks, bufferBounded, bufferTicks, queueTicks. cbn.
  split; [exact Hs |]. split; [exact Hb |]. split; [| split; [| lia]].
  - rewrite map_app. apply StronglySorted_app_2; [| exact Hq | repeat constructor].
    intros t1 t2 H1 H2. apply list_elem_of_singleton in H2. subst t2.
    rewrite Forall_forall in Hf. destruct (Hf _ H1) as [H3 _].
    unfold inFlightTick. cbn. lia.
  - rewrite map_app. apply Forall_app. split.
    + eapply Forall_impl; [exact Hf |]. cbn. intros t [Ht1 Ht2]. split; [lia | exact Ht2].
    + repeat constructor; unfold inFlightTick; cbn; lia.
Qed.

Lemma distinct_handleReceived (rdt : Q) (s : Server) (c : Client) :
  distinctTicks (mkApp s c) -> distinctTicks (mkApp s (handleReceived rdt c)).
Proof.
  intros (Hs & Hb & Hq & Hf & Hl). cbn in Hs, Hb, Hq, Hf, Hl.
  rewrite handleReceived_spec.
  set (q := inFlightMessages (sim (net c))) in *.
  set (ms := delivered rdt q).
  assert (Hfle : Forall (fun t => t <= server_tick s) (map inFlightTick q)).
  { eapply Forall_impl; [exact Hf |]. cbn. tauto. }
  assert (Hfne : Forall (fun t => t <> lastReceivedTick (net c)) (map inFlightTick q)).
  { eapply Forall_impl; [exact Hf |]. cbn. tauto. }
  destruct (strict_fold_receive ms c Hs Hb) as (H1 & H2 & H3).
  { unfold ms. rewrite delivered_ticks. apply filter_ticks_sorted, Hq. }
  { unfold ms. rewrite delivered_ticks. apply filter_ticks_Forall, Hfne. }
  fold ms in H1, H2, H3.
  set (c1 := fold_left onReceiveServerMessage ms c) in *.
  unfold distinctTicks, bufferBounded, bufferTicks, queueTicks in *. cbn.
  split; [exact H1 |]. split; [exact H2 |].
  split; [rewrite remaining_ticks; apply filter_ticks_sorted, Hq |].
  assert (Hdl : Forall (fun t => t <= server_tick s) (map msg_tick ms)).
  { unfold ms. rewrite delivered_ticks. apply filter_ticks_Forall, Hfle. }
  split.
  - apply Forall_and. split.
    + rewrite remaining_ticks. apply filter_ticks_Forall, Hfle.
    + destruct H3 as [H3 | H3].
      * rewrite H3, remaining_ticks. apply filter_ticks_Forall, Hfne.
      * pose proof (delivered_not_remaining rdt q Hq) as Hd.
        rewrite Forall_forall in Hd. exact (Hd _ H3).
  - destruct H3 as [H3 | H3]; [rewrite H3; exact Hl |].
    rewrite Forall_forall in Hdl. exact (Hdl _ H3).
Qed.

Lemma distinct_clientFrame (rdt : Q) (s : Server) (c c' : Client) :
  distinctTicks (mkApp s c) -> clientFrame rdt c = Ok c' ->
  distinctTicks (mkApp s c').
Proof.
  intros H. apply (distinct_handleReceived rdt) in H. unfold clientFrame.
  destruct (updateClientClock rdt (handleReceived rdt c)) as [c1 |] eqn:E;
    [| discriminate].
  cbn. intros Er.
  destruct (updateClientClock_frame _ _ _ E) as (_ & Hn & _).
  destruct (renderClient_frame _ _ Er) as (_ & _ & _ & Hsim & _ & Hl & _ & k & Hk).
  unfold distinctTicks, bufferBounded, bufferTicks, queueTicks in *. cbn in *.
  rewrite Hsim, Hl, Hk, Hn, <- skipn_map.
  destruct H as (H1 & H2 & H3 & H4 & H5).
  split; [apply StronglySorted_drop, H1 |]. split; [apply Forall_drop, H2 |]. auto.
Qed.

Lemma distinct_frameStep (i : FrameInput) (w w' : World) :
  distinctTicks (app w) -> frameStep i w = Ok w' -> distinctTicks (app w').
Proof.
  intros H. unfold frameStep.
  destruct (serverFrame _ _ _) as [a1 |] eqn:Es; [| discriminate]. cbn.
  destruct (clientFrame _ _) as [c1 |] eqn:Ec; [| discriminate]. cbn.
  destruct (drawEntities c1) as [[] |]; [| discriminate]. cbn.
  intros [= <-]. cbn.
  apply (distinct_serverFrame _ _ _ _ H) in Es.
  destruct a1 as [s1 c0]. exact (distinct_clientFrame _ _ _ _ Es Ec).
Qed.

Lemma distinct_runFrames (ins : list FrameInput) (w w' : World) :
  distinctTicks (app w) -> runFrames ins w = Ok w' -> distinctTicks (app w').
Proof.
  revert w. induction ins as [| i ins IH]; intros w H; cbn.
  - intros [= <-]. exact H.
  - destruct (frameStep i w) as [w1 |] eqn:E; [| discriminate]. cbn.
    apply IH. exact (distinct_frameStep _ _ _ H E).
Qed.

Lemma distinct_initWorld (es : list Entity) : distinctTicks (app (initWorld es)).
Proof.
  unfold distinctTicks, bufferBounded. cbn.
  repeat split; try constructor; lia.
Qed.

(** C3, as amended.  After every admission and every trim the snapshot
    buffer is ascending by tick.  In every state the program reaches by
    [frameStep] from its initial state the order is strict (the server's
    messages carry pairwise distinct ticks), and an admission keeps a
    strict order whenever the tick of the message differs from
    [lastReceivedTick].  For an arbitrary sequence of delivered messages
    the order is only [<=]: a message whose tick equals [lastReceivedTick]
    passes the gate and is appended again.  The trim removes a prefix and
    so keeps either order. *)
Theorem snapshotBuffer_ascending (es : list Entity) (ins : list FrameInput) (w : World) :
  runFrames ins (initWorld es) = Ok w ->
  StronglySorted Z.lt (bufferTicks (client (app w)))
  /\ (forall ops c, runClient ops client0 = Ok c ->
        StronglySorted Z.le (bufferTicks c) /\ bufferBounded c)
  /\ (forall c m, bufferBounded c -> StronglySorted Z.lt (bufferTicks c) ->
        msg_tick m <> lastReceivedTick (net c) ->
        StronglySorted Z.lt (bufferTicks (onReceiveServerMessage c m)))
  /\ (forall t c c', interpolateAt t c = Ok c' ->
        (StronglySorted Z.lt (bufferTicks c) -> StronglySorted Z.lt (bufferTicks c'))
        /\ (StronglySorted Z.le (bufferTicks c) -> StronglySorted Z.le (bufferTicks c'))).
Proof.
  intros Hrun. split; [| split; [| split]].
  - exact (proj1 (distinct_runFrames _ _ _ (distinct_initWorld es) Hrun)).
  - intros ops c. apply ascending_runClient. split.
    + constructor.
    + constructor.
  - intros c m Hb Hs Hne. apply ordered_receive; auto. intros t Ht Hge. lia.
  - intros t c c' E. split; apply (ordered_trim _ _ _ _ E).
Qed.

Lemma snapshotBuffer_ascending_witness :
  exists w, runFrames [frameAt 20; frameAt 120] (initWorld exampleEntities) = Ok w
            /\ bufferTicks (client (app w)) = [1; 10]
            /\ StronglySorted Z.lt (bufferTicks (client (app w))).
Proof.
  eexists. split; [vm_compute; reflexivity |]. split; [reflexivity |].
  refine (proj1 (snapshotBuffer_ascending exampleEntities [frameAt 20; frameAt 120] _ _)).
  vm_compute. reflexivity.
Defined.

(** C3 as stated fails: a second message of tick 5 arrives when
    [lastReceivedTick] is 5, is admitted, and the buffer holds tick 5
    twice. *)
Lemma duplicate_tick_admitted :
  let m := exampleMessage 5 in
  let c1 := onReceiveServerMessage client0 m in
  let c2 := onReceiveServerMessage c1 m in
  msg_tick m = lastReceivedTick (net c1)
  /\ bufferTicks c2 = [5; 5]
  /\ ~ StronglySorted Z.lt (bufferTicks c2).
Proof.
  cbv zeta. split; [reflexivity |]. split; [reflexivity |].
  change (bufferTicks _) with [5; 5]. intros H.
  apply StronglySorted_cons in H as [H _].
  apply Forall_cons in H as [H _]. lia.
Qed.

(** ** Bracket search *)

Section FindIndex.
Context {A : Type} (p : A -> bool).

Lemma findIndexFrom_none (l : list A) (k : Z) :
  Forall (fun a => p a = false) l -> findIndexFrom p l k = -1.
Proof.
  intros H. revert k. induction H as [| a l Ha _ IH]; intros k; cbn; [reflexivity |].
  rewrite Ha. apply IH.
Qed.

Lemma findIndexFrom_app (l1 : list A) (a : A) (l2 : list A) (k : Z) :
  Forall (fun b => p b = false) l1 -> p a = true ->
  findIndexFrom p (l1 ++ a :: l2) k = k + Z.of_nat (length l1).
Proof.
  intros H Ha. revert k. induction H as [| b l1 Hb _ IH]; intros k; simpl.
  - rewrite Ha. lia.
  - rewrite Hb, IH. lia.
Qed.

(** Either no element satisfies [p], or the list splits at the first one
    that does. *)
Lemma first_match_split (l : list A) :
  Forall (fun a => p a = false) l
  \/ exists l1 a l2, l = l1 ++ a :: l2
                     /\ Forall (fun b => p b = false) l1 /\ p a = true.
Proof.
  induction l as [| b l IH]; [left; constructor |].
  destruct (p b) eqn:Eb.
  - right. exists [], b, l. split; [reflexivity |]. split; [constructor | exact Eb].
  - destruct IH as [IH | (l1 & a & l2 & -> & H1 & Ha)].
    + left. constructor; assumption.
    + right. exists (b :: l1), a, l2. split; [reflexivity |].
      split; [constructor; assumption | exact Ha].
Qed.

Lemma findIndex_cases (l : list A) :
  (findIndex p l = -1 /\ Forall (fun a => p a = false) l)
  \/ exists l1 a l2, l = l1 ++ a :: l2
                     /\ Forall (fun b => p b = false) l1 /\ p a = true
                     /\ findIndex p l = Z.of_nat (length l1).
Proof.
  destruct (first_match_split l) as [H | (l1 & a & l2 & -> & H1 & Ha)].
  - left. split; [apply findIndexFrom_none, H | exact H].
  - right. exists l1, a, l2. repeat split; auto.
    unfold findIndex. rewrite findIndexFrom_app; auto.
Qed.
End FindIndex.

Lemma at_index_app_length {A} (l1 : list A) (a : A) (l2 : list A) :
  at_index (l1 ++ a :: l2) (Z.of_nat (length l1)) = Some a.
Proof.
  unfold at_index. destruct (Z.ltb_spec (Z.of_nat (length l1)) 0); [lia |].
  rewrite Nat2Z.id. apply list_lookup_middle. reflexivity.
Qed.

Lemma bracket_search (t : Q) (buf : list ServerNetMessage) :
  let i := findIndex (fun m => Qltb t (inject_Z (msg_tick m))) buf in
  Bracket t buf i
    (if 0 <? i then at_index buf (i - 1) else None)
    (at_index buf i)
    (spliceFront (i - 1) buf).
Proof.
  cbv zeta.
  destruct (findIndex_cases (fun m => Qltb t (inject_Z (msg_tick m))) buf)
    as [[Hi Hall] | (l1 & a & l2 & Hbuf & H1 & Ha & Hi)]; rewrite Hi.
  - cbn. apply BracketNone, Hall.
  - revert Hbuf H1 Hi. induction l1 as [| pv old _] using rev_ind; intros Hbuf H1 Hi.
    + subst buf. cbn. eapply BracketFirst; [reflexivity | exact Ha].
    + rewrite length_app in *. cbn [length] in *.
      replace (Z.of_nat (length old + 1)) with (Z.of_nat (length old) + 1) in * by lia.
      destruct (Z.ltb_spec 0 (Z.of_nat (length old) + 1)); [| lia].
      replace (Z.of_nat (length old) + 1 - 1) with (Z.of_nat (length old)) by lia.
      assert (Hb : buf = old ++ pv :: a :: l2).
      { rewrite Hbuf, <- app_assoc. reflexivity. }
      assert (E1 : at_index buf (Z.of_nat (length old)) = Some pv).
      { rewrite Hb. apply at_index_app_length. }
      assert (E2 : at_index buf (Z.of_nat (length old) + 1) = Some a).
      { rewrite Hbuf.
        replace (Z.of_nat (length old) + 1) with (Z.of_nat (length (old ++ [pv])))
          by (rewrite length_app; cbn; lia).
        apply at_index_app_length. }
      assert (E3 : spliceFront (Z.of_nat (length old)) buf = pv :: a :: l2).
      { unfold spliceFront. rewrite Nat2Z.id, Hb. apply drop_app_length. }
      rewrite E1, E2, E3. eapply BracketBoth; eauto.
Qed.

(** Searching the trimmed buffer again finds the same bracket and trims
    nothing more. *)
Lemma bracket_again (t : Q) (buf : list ServerNetMessage) (i : Z)
    (prev next : option ServerNetMessage) (buf' : list ServerNetMessage) :
  Bracket t buf i prev next buf' ->
  let j := findIndex (fun m => Qltb t (inject_Z (msg_tick m))) buf' in
  (if 0 <? j then at_index buf' (j - 1) else None) = prev
  /\ at_index buf' j = next
  /\ spliceFront (j - 1) buf' = buf'.
Proof.
  intros H. destruct H as [Hall | nx rest -> Hnx | old pv nx rest -> Hall Hnx]; cbv zeta.
  - unfold findIndex. rewrite findIndexFrom_none by exact Hall. repeat split.
  - unfold findIndex. cbn [findIndexFrom]. rewrite Hnx. repeat split.
  - apply Forall_app in Hall as [_ Hpv]. apply Forall_cons in Hpv as [Hpv _].
    unfold findIndex. cbn [findIndexFrom]. rewrite Hpv, Hnx. repeat split.
Qed.

(** The bracket encloses the target: [prev.tick <= t < next.tick]. *)
Lemma bracket_encloses (t : Q) (buf : list ServerNetMessage) (i : Z)
    (pv nx : ServerNetMessage) (buf' : list ServerNetMessage) :
  Bracket t buf i (Some pv) (Some nx) buf' ->
  (inject_Z (msg_tick pv) <= t)%Q /\ (t < inject_Z (msg_tick nx))%Q.
Proof.
  intros H. inversion H as [| | old pv' nx' rest Hbuf Hall Hnx]; subst.
  apply Forall_app in Hall as [_ Hpv]. apply Forall_cons in Hpv as [Hpv _].
  split; [apply Qltb_ge, Hpv | apply Qltb_lt, Hnx].
Qed.

(** ** Interpolation of the entities *)

Lemma interpolateEntities_spec (prev next : list Vec2) (alpha : Q) (es : list Entity) :
  forall (idx : nat) (r : list Entity),
    interpolateEntities prev next alpha idx es = Some r ->
    length r = length es
    /\ forall (j : nat) (e' : Entity),
         r !! j = Some e' ->
         exists e pp np,
           es !! j = Some e
           /\ prev !! (idx + j)%nat = Some pp
           /\ next !! (idx + j)%nat = Some np
           /\ e' = set_position
                     (mkVec2 (lerp (x pp) (x np) alpha) (lerp (y pp) (y np) alpha)) e.
Proof.
  induction es as [| e es IH]; intros idx r; cbn [interpolateEntities].
  - intros [= <-]. split; [reflexivity |]. intros j e' H. discriminate.
  - destruct (prev !! idx) as [pp |] eqn:Ep; [| discriminate].
    destruct (next !! idx) as [np |] eqn:En; [| discriminate].
    destruct (interpolateEntities prev next alpha (S idx) es) as [r' |] eqn:Er;
      [| discriminate].
    intros [= <-]. destruct (IH _ _ Er) as [Hlen Hall].
    split; [cbn; rewrite Hlen; reflexivity |].
    intros [| j] e' H; cbn in H.
    + injection H as <-. exists e, pp, np. rewrite Nat.add_0_r. auto.
    + destruct (Hall j e' H) as (e0 & pp0 & np0 & H1 & H2 & H3 & H4).
      exists e0, pp0, np0. rewrite Nat.add_succ_r. auto.
Qed.

Lemma interpolateEntities_again (prev next : list Vec2) (alpha : Q) (es : list Entity) :
  forall (idx : nat) (r : list Entity),
    interpolateEntities prev next alpha idx es = Some r ->
    interpolateEntities prev next alpha idx r = Some r.
Proof.
  induction es as [| e es IH]; intros idx r; cbn [interpolateEntities].
  - intros [= <-]. reflexivity.
  - destruct (prev !! idx) as [pp |] eqn:Ep; [| discriminate].
    destruct (next !! idx) as [np |] eqn:En; [| discriminate].
    destruct (interpolateEntities prev next alpha (S idx) es) as [r' |] eqn:Er;
      [| discriminate].
    intros [= <-]. cbn [interpolateEntities]. rewrite Ep, En, (IH _ _ Er).
    reflexivity.
Qed.

(** [interpolateAt] in terms of the bracket it finds. *)
Lemma interpolateAt_bracket (t : Q) (c : Client) :
  exists i prev next buf',
    Bracket t (backBuffer (net c)) i prev next buf'
    /\ interpolateAt t c
       = let c1 := set_backBuffer buf' (set_nextNetState next (set_prevNetState prev c)) in
         match next, prev with
         | Some nx, Some pv =>
             match interpolateEntities (entityPositions pv) (entityPositions nx)
                     (interpolationAlpha t (msg_tick pv) (msg_tick nx)) 0
                     (entities (game c)) with
             | Some es => Ok (set_entities es c1)
             | None => Fail TypeError
             end
         | _, _ => Ok c1
         end.
Proof.
  pose proof (bracket_search t (backBuffer (net c))) as H. cbv zeta in H.
  eexists _, _, _, _. split; [exact H |].
  unfold interpolateAt. cbv zeta.
  destruct (at_index (backBuffer (net c)) _) as [nx |]; [| reflexivity].
  destruct (if 0 <? _ then _ else _) as [pv |]; reflexivity.
Qed.

Lemma interpolateAt_again (t : Q) (c c1 : Client) :
  interpolateAt t c = Ok c1 -> interpolateAt t c1 = Ok c1.
Proof.
  intros H.
  destruct (interpolateAt_bracket t c) as (i & prev & next & buf' & HB & E).
  rewrite E in H. clear E. cbv zeta in H.
  destruct (bracket_again _ _ _ _ _ _ HB) as (E1 & E2 & E3). cbv zeta in E1, E2, E3.
  assert (Hbuf : backBuffer (net c1) = buf').
  { destruct next as [nx |]; [destruct prev as [pv |] |].
    - destruct (interpolateEntities _ _ _ _ _); [| discriminate].
      injection H as <-. reflexivity.
    - injection H as <-. reflexivity.
    - injection H as <-. reflexivity. }
  unfold interpolateAt. rewrite Hbuf, E1, E2, E3.
  destruct next as [nx |]; [destruct prev as [pv |] |].
  - destruct (interpolateEntities _ _ _ _ _) as [es |] eqn:Ees; [| discriminate].
    injection H as <-. cbn [game set_entities entities set_backBuffer
                             set_nextNetState set_prevNetState].
    rewrite (interpolateEntities_again _ _ _ _ _ _ Ees). reflexivity.
  - injection H as <-. reflexivity.
  - injection H as <-. reflexivity.
Qed.

(** C7.  When the bracket search, the trim and the interpolation have run
    for a target [t] and run again for the same [t] on the state the first
    run left (no admission in between), the second run completes and finds
    the same [prevNetState] and [nextNetState], leaves the same buffer and
    computes the same entity positions: it returns the state it was given. *)
Theorem interpolation_idempotent (t : Q) (c c1 : Client) :
  interpolateAt t c = Ok c1 ->
  exists c2,
    interpolateAt t c1 = Ok c2
    /\ option_map msg_tick (prevNetState c2) = option_map msg_tick (prevNetState c1)
    /\ option_map msg_tick (nextNetState c2) = option_map msg_tick (nextNetState c1)
    /\ backBuffer (net c2) = backBuffer (net c1)
    /\ map position (entities (game c2)) = map position (entities (game c1))
    /\ c2 = c1.
Proof.
  intros H. exists c1. split; [exact (interpolateAt_again t c c1 H) |].
  repeat split; reflexivity.
Qed.

Lemma interpolation_idempotent_witness :
  exists c1 c2,
    interpolateAt 6 scenarioC = Ok c1
    /\ interpolateAt 6 c1 = Ok c2
    /\ c2 = c1
    /\ map position (entities (game c2)) = [mkVec2 (0 + (10 - 0) * (1 - (7 - 6) / (7 - 5)))
                                              (0 + (10 - 0) * (1 - (7 - 6) / (7 - 5)))].
Proof.
  destruct (interpolation_idempotent 6 scenarioC _ eq_refl)
    as (c2 & H1 & _ & _ & _ & H5 & H6).
  eexists _, c2. split; [reflexivity |]. split; [exact H1 |]. split; [exact H6 |].
  rewrite H5. reflexivity.
Defined.

(** ** The interpolated positions *)

Lemma lerp_0 (a b alpha : Q) : (alpha == 0)%Q -> (lerp a b alpha == a)%Q.
Proof. intros H. unfold lerp. rewrite H. ring. Qed.

Lemma alpha_range (t : Q) (p n : Z) :
  (inject_Z p <= t)%Q -> (t < inject_Z n)%Q ->
  (0 <= interpolationAlpha t p n)%Q /\ (interpolationAlpha t p n < 1)%Q
  /\ ((t == inject_Z p)%Q -> (interpolationAlpha t p n == 0)%Q).
Proof.
  intros Hp Hn. unfold interpolationAlpha.
  set (d := (inject_Z n - inject_Z p)%Q).
  assert (Hd : (0 < d)%Q) by (unfold d; lra).
  assert (Hinv : (0 < / d)%Q) by (apply Qinv_lt_0_compat, Hd).
  assert (Hq : ((inject_Z n - t) / d * d == inject_Z n - t)%Q) by (field; lra).
  set (q := ((inject_Z n - t) / d)%Q) in *.
  assert (Hq0 : (0 < q)%Q).
  { unfold q, Qdiv. apply Qmult_lt_0_compat; [lra | exact Hinv]. }
  assert (Hq1 : (q <= 1)%Q).
  { apply Qnot_lt_le. intros Hgt.
    assert ((1 * d < q * d)%Q) by (apply Qmult_lt_compat_r; assumption).
    unfold d in *. lra. }
  split; [lra |]. split; [lra |].
  intros Ht. rewrite Ht in Hq. fold d in Hq.
  assert (Hq1' : (q == 1)%Q).
  { apply (Qmult_inj_r q 1 d); [lra |]. lra. }
  lra.
Qed.

(** C4 as stated fails at [alpha = 1].  In binary64,
    [lerp(0.7, 0.1, 1)] is [0.7 + (0.1 - 0.7) * 1 = 0.09999999999999998]
    and not [0.1]: the difference [b - a] is rounded before it is added
    back.  At [alpha = 0] the same call returns [0.7], and in exact
    arithmetic it returns [0.1] at [alpha = 1]. *)
Lemma lerp_at_one_inexact :
  (lerp64 0.7 0.1 1 =? 0.1)%float = false
  /\ (lerp64 0.7 0.1 1 =? 0.09999999999999998)%float = true
  /\ (lerp64 0.7 0.1 0 =? 0.7)%float = true
  /\ (lerp 0.7 0.1 1 == 0.1)%Q.
Proof.
  split; [vm_compute; reflexivity |]. split; [vm_compute; reflexivity |].
  split; [vm_compute; reflexivity |]. reflexivity.
Qed.

(** C4, as amended.  When the search finds both bounds, every client
    entity gets the position [lerp(prev.position, next.position, alpha)],
    componentwise, from the positions at its own index, with
    [alpha = 1 - (next.tick - t) / (next.tick - prev.tick)], and keeps its
    other fields; [lerp a b alpha] is [a + (b - a) * alpha], which is [a]
    at [alpha = 0].  The bracket encloses the target,
    [prev.tick <= t < next.tick], so the divisor is positive and
    [0 <= alpha < 1]: the interpolation never calls [lerp] with
    [alpha = 1].  When [t] is [prev.tick], [alpha] is [0] and the
    positions are those of [prev]. *)
Theorem interpolation_is_lerp (t : Q) (c c' : Client) (pv nx : ServerNetMessage) :
  interpolateAt t c = Ok c' ->
  prevNetState c' = Some pv ->
  nextNetState c' = Some nx ->
  let alpha :=
    (1 - (inject_Z (msg_tick nx) - t) / (inject_Z (msg_tick nx) - inject_Z (msg_tick pv)))%Q in
  ((inject_Z (msg_tick pv) <= t)%Q /\ (t < inject_Z (msg_tick nx))%Q)
  /\ ((0 <= alpha)%Q /\ (alpha < 1)%Q)
  /\ length (entities (game c')) = length (entities (game c))
  /\ (forall idx e',
        entities (game c') !! idx = Some e' ->
        exists e pp np,
          entities (game c) !! idx = Some e
          /\ entityPositions pv !! idx = Some pp
          /\ entityPositions nx !! idx = Some np
          /\ position e' = mkVec2 (lerp (x pp) (x np) alpha) (lerp (y pp) (y np) alpha)
          /\ speed e' = speed e /\ angle e' = angle e
          /\ angularVelocity e' = angularVelocity e
          /\ ((t == inject_Z (msg_tick pv))%Q ->
              (x (position e') == x pp)%Q /\ (y (position e') == y pp)%Q))
  /\ (forall a b al, lerp a b al = (a + (b - a) * al)%Q)
  /\ (forall a b al, (al == 0)%Q -> (lerp a b al == a)%Q).
Proof.
  intros H Hp Hn alpha.
  destruct (interpolateAt_bracket t c) as (i & prev & next & buf' & HB & E).
  rewrite E in H. clear E. cbv zeta in H.
  assert (Hpn : prev = Some pv /\ next = Some nx).
  { destruct next as [nx0 |]; [destruct prev as [pv0 |] |].
    - destruct (interpolateEntities _ _ _ _ _); [| discriminate].
      injection H as <-. cbn in Hp, Hn. auto.
    - injection H as <-. cbn in Hp. discriminate.
    - injection H as <-. cbn in Hn. discriminate. }
  destruct Hpn as [-> ->].
  destruct (bracket_encloses _ _ _ _ _ _ HB) as [Hlo Hhi].
  destruct (alpha_range t (msg_tick pv) (msg_tick nx) Hlo Hhi) as (Ha0 & Ha1 & Haz).
  change (interpolationAlpha t (msg_tick pv) (msg_tick nx)) with alpha in *.
  destruct (interpolateEntities _ _ _ _ _) as [es |] eqn:Ees; [| discriminate].
  injection H as <-. cbn [game set_entities entities].
  destruct (interpolateEntities_spec _ _ _ _ _ _ Ees) as [Hlen Hall].
  split; [auto |]. split; [auto |]. split; [exact Hlen |].
  split; [| split; [reflexivity | apply lerp_0]].
  intros idx e' He'. destruct (Hall idx e' He') as (e & pp & np & H1 & H2 & H3 & ->).
  exists e, pp, np. cbn. repeat split; auto.
  - apply lerp_0, Haz. assumption.
  - apply lerp_0, Haz. assumption.
Qed.

(** Scenario C: the target 6 between tick 5 at [(0, 0)] and tick 7 at
    [(10, 10)] gives [alpha = 0.5] and the position [(5, 5)]. *)
Lemma interpolation_is_lerp_witness :
  exists c' e',
    interpolateAt 6 scenarioC = Ok c'
    /\ entities (game c') = [e']
    /\ (1 - (inject_Z 7 - 6) / (inject_Z 7 - inject_Z 5) == 0.5)%Q
    /\ (x (position e') == 5)%Q /\ (y (position e') == 5)%Q.
Proof.
  pose proof (interpolation_is_lerp 6 scenarioC _
                (mkMessage 5 [mkVec2 0 0]) (mkMessage 7 [mkVec2 10 10])
                eq_refl eq_refl eq_refl) as H.
  cbv zeta in H. destruct H as (_ & _ & _ & Hall & _).
  eexists _, _. split; [reflexivity |]. split; [reflexivity |].
  split; [reflexivity |].
  destruct (Hall 0%nat _ eq_refl) as (e & pp & np & _ & Hpp & Hnp & Hpos & _).
  injection Hpp as <-. injection Hnp as <-.
  rewrite Hpos. cbn. split; reflexivity.
Defined.

(** ** Transport: send, then deliver *)

Lemma expired_iff (rdt : Q) (f : ClientInFlightMessage) :
  expired rdt f = true <-> (timeRemaining f - rdt <= 0)%Q.
Proof. unfold expired. apply Qle_bool_iff. Qed.

Lemma expired_false_iff (rdt : Q) (f : ClientInFlightMessage) :
  expired rdt f = false <-> (0 < timeRemaining f - rdt)%Q.
Proof.
  unfold expired. destruct (Qle_bool (timeRemaining f - rdt) 0) eqn:E.
  - apply Qle_bool_iff in E. split; [discriminate | lra].
  - split; [intros _ | reflexivity].
    destruct (Qlt_le_dec 0 (timeRemaining f - rdt)) as [H | H]; [exact H |].
    apply Qle_bool_iff in H. congruence.
Qed.











(** ** A negative delay *)

Lemma receive_set_inFlightMessages (q : list ClientInFlightMessage) (c : Client)
    (m : ServerNetMessage) :
  onReceiveServerMessage (set_inFlightMessages q c) m
  = set_inFlightMessages q (onReceiveServerMessage c m).
Proof.
  unfold onReceiveServerMessage. cbn.
  destruct (msg_tick m <? lastReceivedTick (net c)); [reflexivity |].
  destruct (clockPaused c); reflexivity.
Qed.

Lemma fold_receive_set_inFlightMessages (q : list ClientInFlightMessage)
    (ms : list ServerNetMessage) (c : Client) :
  fold_left onReceiveServerMessage ms (set_inFlightMessages q c)
  = set_inFlightMessages q (fold_left onReceiveServerMessage ms c).
Proof.
  revert c. induction ms as [| m ms IH]; intros c; [reflexivity |].
  cbn. rewrite receive_set_inFlightMessages. apply IH.
Qed.

(** C10.  When the packet is not dropped and [latency / 2 + u < 0], the
    message is enqueued with a negative [timeRemaining]; the next transport
    advance, whatever its [rdt >= 0], hands it to
    [onReceiveServerMessage] (after the older messages that expire in the
    same advance) and does not keep it in the queue. *)
Theorem negative_delay_delivered (rDrop rJitter rdt : Q) (a : App) :
  let s := sim (net (client a)) in
  let q := inFlightMessages s in
  (sim_packetLoss s <= rDrop)%Q ->
  (sim_latency s / 2 + jitterOffset rJitter (sim_jitter s) < 0)%Q ->
  (0 <= rdt)%Q ->
  exists f,
    inFlightMessages (sim (net (client (serverNetSend rDrop rJitter a)))) = q ++ [f]
    /\ message f = snapshot (server a)
    /\ timeRemaining f
       = ((sim_latency s / 2 + jitterOffset rJitter (sim_jitter s)) / 1000)%Q
    /\ (timeRemaining f < 0)%Q
    /\ delivered rdt (q ++ [f]) = delivered rdt q ++ [message f]
    /\ remaining rdt (q ++ [f]) = remaining rdt q
    /\ handleReceived rdt (client (serverNetSend rDrop rJitter a))
       = set_inFlightMessages (remaining rdt q)
           (onReceiveServerMessage
              (fold_left onReceiveServerMessage (delivered rdt q) (client a))
              (snapshot (server a))).
Proof.
  intros s q Hkeep Hneg Hrdt.
  set (d := (sim_latency s / 2 + jitterOffset rJitter (sim_jitter s))%Q) in *.
  set (f := mkInFlight (snapshot (server a)) (d / 1000)%Q).
  assert (Hsend : serverNetSend rDrop rJitter a
                  = mkApp (server a) (set_inFlightMessages (q ++ [f]) (client a))).
  { rewrite serverNetSend_client. apply Qltb_ge in Hkeep.
    fold s. rewrite Hkeep. reflexivity. }
  assert (Hlt : (d / 1000 < 0)%Q).
  { assert (E : (d / 1000 * 1000 == d)%Q) by field.
    set (y := (d / 1000)%Q) in *. lra. }
  assert (Hexp : expired rdt f = true).
  { apply expired_iff. cbn [timeRemaining f]. lra. }
  assert (Hd : delivered rdt (q ++ [f]) = delivered rdt q ++ [message f]).
  { rewrite delivered_app. unfold delivered at 2. cbn [List.filter].
    rewrite Hexp. reflexivity. }
  assert (Hr : remaining rdt (q ++ [f]) = remaining rdt q).
  { rewrite remaining_app. unfold remaining at 2. cbn [List.filter].
    rewrite Hexp. cbn. apply app_nil_r. }
  exists f. rewrite Hsend.
  split; [reflexivity |]. split; [reflexivity |]. split; [reflexivity |].
  split; [exact Hlt |]. split; [exact Hd |]. split; [exact Hr |].
  rewrite handleReceived_spec. cbn [client].
  change (inFlightMessages (sim (net (set_inFlightMessages (q ++ [f]) (client a)))))
    with (q ++ [f]).
  rewrite Hd, Hr, fold_left_app, fold_receive_set_inFlightMessages. cbn [fold_left].
  rewrite receive_set_inFlightMessages. reflexivity.
Qed.

Lemma negative_delay_delivered_witness :
  exists f,
    inFlightMessages (sim (net (client (serverNetSend 0.5 0 negativeDelayApp)))) = [f]
    /\ (timeRemaining f < 0)%Q
    /\ inFlightMessages
         (sim (net (handleReceived 0 (client (serverNetSend 0.5 0 negativeDelayApp))))) = []
    /\ bufferTicks (handleReceived 0 (client (serverNetSend 0.5 0 negativeDelayApp))) = [3].
Proof.
  destruct (negative_delay_delivered 0.5 0 0 negativeDelayApp)
    as (f & H1 & _ & _ & H4 & _ & _ & H7).
  - vm_compute. discriminate.
  - reflexivity.
  - vm_compute. discriminate.
  - exists f. split; [exact H1 |]. split; [exact H4 |]. rewrite H7.
    split; reflexivity.
Defined.

(** ** The accumulator after the clock update *)

Lemma receive_accumulator (c : Client) (m : ServerNetMessage) :
  (0 <= tickAccumulator c)%Q ->
  (0 <= tickAccumulator (onReceiveServerMessage c m))%Q.
Proof.
  intros H. unfold onReceiveServerMessage. cbn.
  destruct (msg_tick m <? lastReceivedTick (net c)); [exact H |].
  destruct (clockPaused c); cbn; [lra | exact H].
Qed.

Lemma clock_advance_bounds (rdt : Q) (c1 : Client) :
  clockInv c1 -> (0 <= rdt)%Q ->
  exists c2,
    updateClientClock rdt c1 = Ok c2
    /\ (0 <= tickAccumulator c2)%Q
    /\ tickDuration c2 = tickDuration c1
    /\ (clockPaused c1 = false -> (tickAccumulator c2 <= tickDuration c2)%Q)
    /\ (clockPaused c1 = true -> c2 = c1).
Proof.
  intros [Hacc Hfloor] Hrdt. unfold updateClientClock.
  destruct (clockPaused c1) eqn:Ep.
  - exists c1. repeat split; auto. discriminate.
  - destruct (tickLoop_terminates (tick c1) (tickAccumulator c1 + rdt)%Q (tickDuration c1)
                (tickDurationFloor_positive _ Hfloor))
      as (tk' & acc' & -> & Hle & _ & _ & Hnn).
    eexists. split; [reflexivity |]. cbn.
    split; [apply Hnn; lra |]. split; [reflexivity |]. split; [auto | discriminate].
Qed.

Lemma clockInv_runClient (ops : list ClientOp) (c c' : Client) :
  Forall (opAllowed (fun r => (0 <= r)%Q)) ops ->
  clockInv c -> runClient ops c = Ok c' -> clockInv c'.
Proof.
  apply (inv_runClient clockInv (fun r => (0 <= r)%Q)).
  - intros c1 m [H1 H2]. split; [apply receive_accumulator, H1 | apply floor_receive].
  - intros q c1 H. exact H.
  - intros rdt c1 c2 Hr Hc E.
    destruct (clock_advance_bounds rdt c1 Hc Hr) as (c2' & E' & H1 & H2 & _).
    rewrite E in E'. injection E' as <-.
    split; [exact H1 |]. unfold tickDurationFloor. rewrite H2. apply Hc.
  - intros c1 c2 [H1 H2] E. unfold clockInv, tickDurationFloor.
    destruct (renderClient_frame _ _ E) as (_ & -> & -> & _). auto.
Qed.

Lemma clockInv_client0 : clockInv client0.
Proof. split; [cbn; lra | apply floor_client0]. Qed.

(** At the end of a frame a running clock has [accumulator <= tickDuration]. *)
Lemma clientFrame_running_bound (rdt : Q) (c c' : Client) :
  clockInv c -> (0 <= rdt)%Q -> clientFrame rdt c = Ok c' ->
  clockPaused c' = false -> (tickAccumulator c' <= tickDuration c')%Q.
Proof.
  intros Hc Hr. unfold clientFrame.
  destruct (clock_advance_bounds rdt (handleReceived rdt c)) as (c2 & Eu & _ & _ & Hrun & _).
  { apply (inv_handleReceived clockInv); auto.
    intros c1 m [H1 H2]. split; [apply receive_accumulator, H1 | apply floor_receive]. }
  { exact Hr. }
  rewrite Eu. cbn. intros E Hp.
  destruct (renderClient_frame _ _ E) as (_ & -> & -> & _).
  apply Hrun. clear Hrun.
  destruct (updateClientClock_frame _ _ _ Eu) as (_ & _ & <- & _). clear Eu.
  unfold renderClient in E.
  assert (Hpause : forall d,
            Ok (if clockPaused c2 then c2 else set_clockPaused true c2) = Ok d ->
            clockPaused d = false -> clockPaused c2 = false).
  { intros d [= <-]. destruct (clockPaused c2) eqn:E2; cbn; congruence. }
  destruct (last (backBuffer (net c2))) as [newest |]; [| exact (Hpause _ E Hp)].
  destruct (Qltb _ _); [exact (Hpause _ E Hp) |].
  destruct (interpolateAt_frame _ _ _ E) as (_ & _ & <- & _). exact Hp.
Qed.

Lemma frameStep_clock (i : FrameInput) (w w' : World) :
  clockInv (client (app w)) ->
  (0 <= (frame_t i - lastFrameTime w) / 1000)%Q ->
  frameStep i w = Ok w' ->
  clockInv (client (app w')) /\ runningBound (client (app w')).
Proof.
  intros Hc Hr H. split.
  - destruct (frameStep_runClient (fun r => (0 <= r)%Q) _ _ _ H Hr) as (ops & Ho & Hrun).
    exact (clockInv_runClient ops _ _ Ho Hc Hrun).
  - unfold frameStep in H.
    destruct (serverFrame _ _ _) as [a1 |] eqn:Es; [| discriminate]. cbn in H.
    destruct (clientFrame _ _) as [c1 |] eqn:Ec; [| discriminate]. cbn in H.
    destruct (drawEntities c1) as [[] |]; [| discriminate]. cbn in H.
    injection H as <-. cbn. unfold runningBound.
    apply (clientFrame_running_bound _ _ _) with (3 := Ec); [| exact Hr].
    destruct (serverFrame_client _ _ _ _ Es) as [-> | [f ->]]; exact Hc.
Qed.

Lemma runFrames_clock (ins : list FrameInput) (w w' : World) :
  clockInv (client (app w)) -> runningBound (client (app w)) ->
  framesAllowed (fun r => (0 <= r)%Q) ins (lastFrameTime w) ->
  runFrames ins w = Ok w' ->
  clockInv (client (app w')) /\ runningBound (client (app w')).
Proof.
  revert w. induction ins as [| i ins IH]; intros w Hc Hb Hr H.
  - injection H as <-. auto.
  - cbn in H. destruct (frameStep i w) as [w1 |] eqn:E; [| discriminate]. cbn in H.
    destruct Hr as [Hr1 Hr2].
    destruct (frameStep_clock _ _ _ Hc Hr1 E) as [Hc1 Hb1].
    rewrite <- (frameStep_lastFrameTime _ _ _ E) in Hr2.
    exact (IH w1 Hc1 Hb1 Hr2 H).
Qed.

(** C8, as amended.  Frame durations are non-negative.  In every client
    state reached by a run of client operations against an arbitrary
    sender, the accumulator is non-negative; the clock update of the next
    frame completes, leaves the accumulator non-negative and, when the
    clock is running at that point, leaves [accumulator <= tickDuration].
    The bound is not strict: the loop runs while
    [accumulator > tickDuration], so it can stop with the two equal.  When
    the clock is paused the update is skipped.  At the end of every frame
    of the program a running clock has
    [0 <= accumulator <= tickDuration]. *)
Theorem accumulator_bounds (ops : list ClientOp) (c : Client) (rdt : Q) :
  Forall (opAllowed (fun r => (0 <= r)%Q)) ops ->
  runClient ops client0 = Ok c ->
  (0 <= rdt)%Q ->
  let c1 := handleReceived rdt c in
  (0 <= tickAccumulator c)%Q
  /\ (exists c2,
        updateClientClock rdt c1 = Ok c2
        /\ (0 <= tickAccumulator c2)%Q
        /\ (clockPaused c1 = false -> (tickAccumulator c2 <= tickDuration c2)%Q)
        /\ (clockPaused c1 = true -> c2 = c1))
  /\ (forall es ins w,
        runFrames ins (initWorld es) = Ok w ->
        framesAllowed (fun r => (0 <= r)%Q) ins 0 ->
        (0 <= tickAccumulator (client (app w)))%Q
        /\ (clockPaused (client (app w)) = false ->
            (tickAccumulator (client (app w)) <= tickDuration (client (app w)))%Q)).
Proof.
  intros Hops Hrun Hrdt c1.
  pose proof (clockInv_runClient ops _ _ Hops clockInv_client0 Hrun) as Hc.
  split; [apply Hc |]. split.
  - destruct (clock_advance_bounds rdt c1) as (c2 & E & H1 & _ & H3 & H4).
    + apply (inv_handleReceived clockInv); auto.
      intros d m [H1 H2]. split; [apply receive_accumulator, H1 | apply floor_receive].
    + exact Hrdt.
    + exists c2. auto.
  - intros es ins w Hw Hal.
    destruct (runFrames_clock ins (initWorld es) w) as [[H1 _] H2]; auto.
    + exact clockInv_client0.
    + intros _. vm_compute. discriminate.
Qed.

Lemma accumulator_bounds_witness :
  exists c c2,
    runClient [OpSend (mkInFlight (exampleMessage 1) 0.02); OpFrame 0.03] client0 = Ok c
    /\ updateClientClock 0.05 (handleReceived 0.05 c) = Ok c2
    /\ (0 <= tickAccumulator c2)%Q
    /\ (tickAccumulator c2 <= tickDuration c2)%Q.
Proof.
  destruct (accumulator_bounds
              [OpSend (mkInFlight (exampleMessage 1) 0.02); OpFrame 0.03]
              (match runClient [OpSend (mkInFlight (exampleMessage 1) 0.02); OpFrame 0.03]
                       client0 with Ok c => c | Fail _ => client0 end)
              0.05)
    as (_ & (c2 & E & H1 & H2 & _) & _).
  - repeat constructor. vm_compute. discriminate.
  - vm_compute. reflexivity.
  - vm_compute. discriminate.
  - eexists _, c2. split; [vm_compute; reflexivity |]. split; [exact E |].
    split; [exact H1 |]. apply H2. vm_compute. reflexivity.
Defined.

(** C8 as stated fails: in the first frame, with [rdt] equal to the tick
    duration, the loop does not run and the accumulator equals
    [tickDuration] after the clock update. *)
Lemma accumulator_equals_tickDuration :
  let rdt := ((1000 / 90 - lastFrameTime (initWorld exampleEntities)) / 1000)%Q in
  exists c2 w,
    updateClientClock rdt (handleReceived rdt client0) = Ok c2
    /\ (tickAccumulator c2 == tickDuration c2)%Q
    /\ ~ (tickAccumulator c2 < tickDuration c2)%Q
    /\ frameStep (frameAt (1000 / 90)) (initWorld exampleEntities) = Ok w
    /\ (tickAccumulator (client (app w)) == tickDuration (client (app w)))%Q.
Proof.
  cbv zeta. eexists _, _. split; [vm_compute; reflexivity |].
  split; [vm_compute; reflexivity |].
  split; [vm_compute; discriminate |].
  split; [vm_compute; reflexivity |]. vm_compute. reflexivity.
Qed.

(** ** Network conditions are never validated *)

Lemma simConditions_runClient (ops : list ClientOp) (c c' : Client) :
  runClient ops c = Ok c' -> simConditions c' = simConditions c.
Proof.
  intros H.
  apply (inv_runClient (fun d => simConditions d = simConditions c) (fun _ => True))
    with (ops := ops) (c := c); auto.
  - intros c1 m Hc. unfold simConditions in *. rewrite receive_sim. exact Hc.
  - intros rdt c1 c2 _ Hc E. unfold simConditions in *.
    destruct (updateClientClock_frame _ _ _ E) as (_ & -> & _). exact Hc.
  - intros c1 c2 Hc E. unfold simConditions in *.
    destruct (renderClient_frame _ _ E) as (_ & _ & _ & -> & _). exact Hc.
  - apply opAllowed_True.
Qed.

Lemma serverFrame_tickDuration (i : FrameInput) (rdt : Q) (a a1 : App) :
  serverFrame i rdt a = Ok a1 ->
  server_tickDuration (server a1) = server_tickDuration (server a).
Proof.
  unfold serverFrame.
  destruct (serverLoop _ _ _ _) as [[s1 ticked] |] eqn:E; [| discriminate].
  apply serverLoop_tick in E. destruct E as (_ & _ & E). cbn in E.
  intros [= <-]. destruct ticked; [| exact E].
  rewrite serverNetSend_client. cbn. destruct (Qltb _ _); exact E.
Qed.

(** With a tick duration that is not positive the server loop, once
    entered, never exits: its guard stays true. *)
Lemma serverLoop_never_exits (phys : Physics) (fuel : nat) :
  forall (s : Server) (tk : bool),
    (server_tickDuration s <= 0)%Q ->
    (server_tickDuration s < server_tickAccumulator s)%Q ->
    serverLoop fuel phys s tk = None.
Proof.
  induction fuel as [| n IH]; intros s tk Hd Ha; cbn [serverLoop];
    rewrite (proj2 (Qltb_lt _ _) Ha); [reflexivity |].
  apply IH; cbn; lra.
Qed.

(** C9, as amended.  The program validates no setting.  Whatever the
    values of [latency], [jitter] and [packetLoss] and of the server's
    [tickDuration], a frame that completes leaves them exactly as stored:
    none is rejected and none is clamped.  They are used as they are: a
    [packetLoss] above 1 drops every packet, a negative one drops none, and
    with a [tickDuration] that is not positive the server loop does not
    exit once entered. *)
Theorem conditions_never_validated (i : FrameInput) (w w' : World) :
  frameStep i w = Ok w' ->
  simConditions (client (app w')) = simConditions (client (app w))
  /\ server_tickDuration (server (app w')) = server_tickDuration (server (app w))
  /\ (forall lat jit loss c,
        simConditions (set_simConditions lat jit loss c) = (lat, jit, loss))
  /\ (forall rDrop rJitter a,
        (0 <= rDrop)%Q -> (rDrop < 1)%Q ->
        ((1 < sim_packetLoss (sim (net (client a))))%Q ->
         serverNetSend rDrop rJitter a = a)
        /\ ((sim_packetLoss (sim (net (client a))) < 0)%Q ->
            inFlightMessages (sim (net (client (serverNetSend rDrop rJitter a))))
            = inFlightMessages (sim (net (client a)))
              ++ [mkInFlight (snapshot (server a))
                    (sendDelay (sim_latency (sim (net (client a))))
                       (sim_jitter (sim (net (client a)))) rJitter)]))
  /\ (forall phys fuel s tk,
        (server_tickDuration s <= 0)%Q ->
        (server_tickDuration s < server_tickAccumulator s)%Q ->
        serverLoop fuel phys s tk = None).
Proof.
  intros H. split; [| split; [| split; [| split]]].
  - destruct (frameStep_runClient (fun _ => True) _ _ _ H I) as (ops & _ & Hrun).
    exact (simConditions_runClient _ _ _ Hrun).
  - unfold frameStep in H.
    destruct (serverFrame _ _ _) as [a1 |] eqn:Es; [| discriminate]. cbn in H.
    destruct (clientFrame _ _) as [c1 |]; [| discriminate]. cbn in H.
    destruct (drawEntities c1) as [[] |]; [| discriminate]. cbn in H.
    injection H as <-. cbn. exact (serverFrame_tickDuration _ _ _ _ Es).
  - reflexivity.
  - intros rDrop rJitter a H0 H1. rewrite serverNetSend_client. cbv zeta. split.
    + intros Hl. rewrite (proj2 (Qltb_lt _ _)) by lra. reflexivity.
    + intros Hl. rewrite (proj2 (Qltb_ge _ _)) by lra. reflexivity.
  - intros phys fuel. apply serverLoop_never_exits.
Qed.

Lemma conditions_never_validated_witness :
  exists w',
    frameStep (frameAt 20) invalidConditionsWorld = Ok w'
    /\ simConditions (client (app w')) = ((-10)%Q, (-5)%Q, 2%Q).
Proof.
  eexists. split; [vm_compute; reflexivity |].
  refine (eq_trans
            (proj1 (conditions_never_validated (frameAt 20) invalidConditionsWorld _ _)) _).
  - vm_compute. reflexivity.
  - reflexivity.
Defined.

(** C9 as stated fails: with latency -10, jitter -5 and packet loss 2 the
    frame completes without any error, the server has ticked, and the
    settings are still the ones that were stored. *)
Lemma invalid_conditions_accepted :
  exists w',
    frameStep (frameAt 20) invalidConditionsWorld = Ok w'
    /\ server_tick (server (app w')) = 1
    /\ sim_latency (sim (net (client (app w')))) = (-10)%Q
    /\ sim_jitter (sim (net (client (app w')))) = (-5)%Q
    /\ sim_packetLoss (sim (net (client (app w')))) = 2%Q
    /\ ~ (0 <= sim_latency (sim (net (client (app w')))))%Q
    /\ ~ (0 <= sim_jitter (sim (net (client (app w')))))%Q
    /\ ~ (sim_packetLoss (sim (net (client (app w')))) <= 1)%Q.
Proof.
  eexists. split; [vm_compute; reflexivity |].
  repeat split; try reflexivity; vm_compute; intros H; apply H; reflexivity.
Qed.


(** ** Every frame completes *)

Lemma serverLoop_enough (phys : Physics) (fuel : nat) :
  forall (s : Server) (tk : bool),
    (0 < server_tickDuration s)%Q ->
    (server_tickAccumulator s
     <= (inject_Z (Z.of_nat fuel) + 1) * server_tickDuration s)%Q ->
    exists s1 tk1,
      serverLoop fuel phys s tk = Some (s1, tk1)
      /\ length (entities (server_game s1)) = length (entities (server_game s))
      /\ server_tickDuration s1 = server_tickDuration s.
Proof.
  induction fuel as [| n IH]; intros s tk Hd Hacc; cbn [serverLoop].
  - change (inject_Z (Z.of_nat 0)) with 0%Q in Hacc.
    assert (Hle : (server_tickAccumulator s <= server_tickDuration s)%Q) by lra.
    rewrite (proj2 (Qltb_ge _ _) Hle). eauto.
  - destruct (Qltb _ _) eqn:E; [| eauto].
    apply Qltb_lt in E.
    match goal with
    | |- context [serverLoop n phys ?s' true] =>
        destruct (IH s' true) as (s1 & tk1 & Hr & Hlen & Hdur)
    end.
    + exact Hd.
    + cbn. rewrite Nat2Z.inj_succ, <- Z.add_1_r, inject_Z_plus in Hacc.
      change (inject_Z 1) with 1%Q in Hacc. lra.
    + exists s1, tk1. rewrite Hr. split; [reflexivity |].
      cbn in Hlen, Hdur. rewrite length_imap in Hlen. auto.
Qed.

Lemma serverFrame_total (i : FrameInput) (rdt : Q) (a : App) :
  wellFormed a -> exists a1, serverFrame i rdt a = Ok a1 /\ wellFormed a1.
Proof.
  intros (Hd & Hf & Hs & Hc & Hq & Hb). unfold serverFrame.
  edestruct (serverLoop_enough (physics i)
               (loopFuel (server_tickAccumulator (server a) + rdt)
                  (server_tickDuration (server a)))
               (mkServer (server_game (server a)) (server_tick (server a))
                  (server_tickDuration (server a))
                  (server_tickAccumulator (server a) + rdt)%Q) false)
    as (s1 & tk1 & Hr & Hlen & Hdur).
  - exact Hd.
  - cbn. apply loopFuel_enough, Hd.
  - cbn in Hr, Hlen, Hdur. cbn. rewrite Hr.
    assert (Hkeep : wellFormed (mkApp s1 (client a))).
    { unfold wellFormed. cbn. rewrite Hdur, Hlen. auto 10. }
    eexists. split; [reflexivity |].
    destruct tk1; [| exact Hkeep].
    rewrite serverNetSend_client. cbn. destruct (Qltb _ _); [exact Hkeep |].
    unfold wellFormed. cbn. rewrite Hdur, Hlen.
    repeat split; auto.
    apply Forall_app. split; [exact Hq |]. repeat constructor. cbn.
    rewrite length_map, Hlen. exact Hs.
Qed.

Lemma interpolateEntities_total (prev next : list Vec2) (alpha : Q) (es : list Entity) :
  forall idx : nat,
    (idx + length es <= length prev)%nat ->
    (idx + length es <= length next)%nat ->
    exists r, interpolateEntities prev next alpha idx es = Some r
              /\ length r = length es.
Proof.
  induction es as [| e es IH]; intros idx Hp Hn; cbn [interpolateEntities].
  - exists []. auto.
  - cbn [length] in Hp, Hn.
    destruct (lookup_lt_is_Some_2 prev idx) as [pp ->]; [lia |].
    destruct (lookup_lt_is_Some_2 next idx) as [np ->]; [lia |].
    destruct (IH (S idx)) as (r & -> & Hlen); [lia | lia |].
    eexists. split; [reflexivity |]. cbn. rewrite Hlen. reflexivity.
Qed.

Lemma fold_receive_wellFormed (s : Server) (ms : list ServerNetMessage) (c : Client) :
  Forall (fun m => length (entityPositions m) = NUM_ENTITIES) ms ->
  wellFormed (mkApp s c) ->
  wellFormed (mkApp s (fold_left onReceiveServerMessage ms c)).
Proof.
  intros Hms. revert c. induction Hms as [| m ms Hm _ IH]; intros c H; [exact H |].
  cbn [fold_left]. apply IH. destruct H as (Hd & Hf & Hs & Hc & Hq & Hb).
  unfold wellFormed in *. cbn [server client] in *.
  rewrite receive_sim, receive_backBuffer.
  split; [exact Hd |]. split; [apply floor_receive |]. split; [exact Hs |].
  split; [| split; [exact Hq |]].
  - unfold onReceiveServerMessage. cbn.
    destruct (msg_tick m <? lastReceivedTick (net c)); [exact Hc |].
    destruct (clockPaused c); exact Hc.
  - destruct (msg_tick m <? lastReceivedTick (net c)); [exact Hb |].
    apply Forall_app. split; [exact Hb | repeat constructor; exact Hm].
Qed.

Lemma handleReceived_wellFormed (rdt : Q) (s : Server) (c : Client) :
  wellFormed (mkApp s c) -> wellFormed (mkApp s (handleReceived rdt c)).
Proof.
  intros H. rewrite handleReceived_spec.
  assert (Hq : Forall (fun f => length (entityPositions (message f)) = NUM_ENTITIES)
                 (inFlightMessages (sim (net c)))) by apply H.
  pose proof (fold_receive_wellFormed s (delivered rdt (inFlightMessages (sim (net c)))) c)
    as Hfold.
  destruct Hfold as (Hd & Hf & Hs & Hc & _ & Hb).
  - unfold delivered. apply Forall_map.
    revert Hq. generalize (inFlightMessages (sim (net c))). intros q Hq.
    induction Hq as [| f q Hf0 _ IH]; cbn; [constructor |].
    destruct (expired rdt f); [constructor; assumption | assumption].
  - exact H.
  - unfold wellFormed. cbn [server client] in *. cbn.
    repeat split; auto.
    unfold remaining. apply Forall_map.
    revert Hq. generalize (inFlightMessages (sim (net c))). intros q Hq.
    induction Hq as [| f q Hf0 _ IH]; cbn; [constructor |].
    destruct (expired rdt f); cbn; [assumption | constructor; assumption].
Qed.

Lemma interpolateAt_total (t : Q) (s : Server) (c : Client) :
  wellFormed (mkApp s c) ->
  exists c', interpolateAt t c = Ok c' /\ wellFormed (mkApp s c').
Proof.
  intros (Hd & Hf & Hs & Hc & Hq & Hb). cbn [server client] in *.
  destruct (interpolateAt_bracket t c) as (i & prev & next & buf' & HB & ->).
  cbv zeta.
  assert (Hbuf' : Forall (fun m => length (entityPositions m) = NUM_ENTITIES) buf').
  { destruct HB as [| | old pv nx rest Hbuf _ _]; auto.
    rewrite Hbuf in Hb. apply Forall_app in Hb. apply Hb. }
  assert (Hquiet : wellFormed
            (mkApp s (set_backBuffer buf'
                        (set_nextNetState next (set_prevNetState prev c))))).
  { unfold wellFormed. cbn. auto 10. }
  destruct next as [nx |]; [| eauto]. destruct prev as [pv |]; [| eauto].
  assert (Hpn : length (entityPositions pv) = NUM_ENTITIES
                /\ length (entityPositions nx) = NUM_ENTITIES).
  { inversion HB as [| | old pv' nx' rest Hbuf _ _]; subst.
    apply Forall_cons in Hbuf' as [H1 Hbuf']. apply Forall_cons in Hbuf' as [H2 _]. auto. }
  destruct Hpn as [Hp Hn].
  destruct (interpolateEntities_total (entityPositions pv) (entityPositions nx)
              (interpolationAlpha t (msg_tick pv) (msg_tick nx))
              (entities (game c)) 0) as (es & -> & Hlen); [cbn; lia | cbn; lia |].
  eexists. split; [reflexivity |].
  unfold wellFormed. cbn. rewrite Hlen. auto 10.
Qed.

Lemma clientFrame_total (rdt : Q) (s : Server) (c : Client) :
  wellFormed (mkApp s c) ->
  exists c', clientFrame rdt c = Ok c' /\ wellFormed (mkApp s c').
Proof.
  intros H. apply (handleReceived_wellFormed rdt) in H.
  set (c1 := handleReceived rdt c) in *. unfold clientFrame. fold c1.
  assert (Hclock : exists c2, updateClientClock rdt c1 = Ok c2
                              /\ wellFormed (mkApp s c2)).
  { unfold updateClientClock. destruct (clockPaused c1); [eauto |].
    destruct (tickLoop_terminates (tick c1) (tickAccumulator c1 + rdt)%Q (tickDuration c1))
      as (tk' & acc' & -> & _); [apply tickDurationFloor_positive, H |].
    eexists. split; [reflexivity |]. exact H. }
  destruct Hclock as (c2 & -> & H2). cbn [bind].
  unfold renderClient.
  assert (Hpause : wellFormed
            (mkApp s (if clockPaused c2 then c2 else set_clockPaused true c2))).
  { destruct (clockPaused c2); exact H2. }
  destruct (last (backBuffer (net c2))); [| eauto].
  destruct (Qltb _ _); [eauto |].
  apply interpolateAt_total, H2.
Qed.

Lemma frameStep_total (i : FrameInput) (w : World) :
  wellFormed (app w) -> exists w', frameStep i w = Ok w' /\ wellFormed (app w').
Proof.
  intros H. unfold frameStep.
  destruct (serverFrame_total i ((frame_t i - lastFrameTime w) / 1000)%Q _ H)
    as ([s1 c1] & -> & H1).
  cbn [bind client server].
  destruct (clientFrame_total ((frame_t i - lastFrameTime w) / 1000)%Q s1 c1 H1)
    as (c' & -> & H').
  cbn [bind].
  assert (Hdraw : drawEntities c' = Ok tt).
  { unfold drawEntities. destruct H' as (_ & _ & _ & Hc & _). cbn [client] in Hc.
    rewrite Hc. reflexivity. }
  rewrite Hdraw. eexists. split; [reflexivity | exact H'].
Qed.

(** X18.  From the initial state, with [NUM_ENTITIES] server entities as the
    program creates them, every sequence of frames runs to completion: no
    loop diverges and no position is missing, whatever the timestamps, the
    random draws and the motion of the entities. *)
Theorem runFrames_total (es : list Entity) (ins : list FrameInput) :
  length es = NUM_ENTITIES ->
  exists w, runFrames ins (initWorld es) = Ok w /\ wellFormed (app w).
Proof.
  intros Hes.
  assert (H0 : wellFormed (app (initWorld es))).
  { unfold wellFormed. cbn. repeat split; auto.
    - apply floor_client0. }
  revert H0. generalize (initWorld es). induction ins as [| i ins IH]; intros w H.
  - exists w. auto.
  - cbn [runFrames]. destruct (frameStep_total i w H) as (w1 & -> & H1).
    cbn [bind]. apply IH, H1.
Qed.

Lemma runFrames_total_witness :
  exists w, runFrames [frameAt 20; frameAt 120; frameAt 130] (initWorld exampleEntities)
            = Ok w.
Proof.
  destruct (runFrames_total exampleEntities [frameAt 20; frameAt 120; frameAt 130] eq_refl)
    as (w & H & _).
  exists w. exact H.
Defined.

(** * Further properties of the code *)

(** ** Pause and resume *)

Lemma receive_running (c : Client) (m : ServerNetMessage) :
  clockPaused c = false ->
  clockPaused (onReceiveServerMessage c m) = false
  /\ tick (onReceiveServerMessage c m) = tick c
  /\ tickAccumulator (onReceiveServerMessage c m) = tickAccumulator c.
Proof.
  intros H. unfold onReceiveServerMessage. cbn.
  destruct (msg_tick m <? lastReceivedTick (net c)); cbn; [auto |].
  rewrite H. cbn. auto.
Qed.

Lemma fold_receive_running (ms : list ServerNetMessage) (c : Client) :
  clockPaused c = false ->
  clockPaused (fold_left onReceiveServerMessage ms c) = false
  /\ tick (fold_left onReceiveServerMessage ms c) = tick c
  /\ tickAccumulator (fold_left onReceiveServerMessage ms c) = tickAccumulator c.
Proof.
  revert c. induction ms as [| m ms IH]; intros c H; [auto |].
  cbn [fold_left]. destruct (receive_running c m H) as (H1 & H2 & H3).
  destruct (IH _ H1) as (H4 & H5 & H6). rewrite H5, H6. auto.
Qed.

Lemma fold_receive_stale (ms : list ServerNetMessage) (c : Client) :
  Forall (fun m => msg_tick m < lastReceivedTick (net c)) ms ->
  let c' := fold_left onReceiveServerMessage ms c in
  clockPaused c' = clockPaused c /\ tick c' = tick c
  /\ tickAccumulator c' = tickAccumulator c
  /\ lastReceivedTick (net c') = lastReceivedTick (net c)
  /\ backBuffer (net c') = backBuffer (net c)
  /\ game c' = game c.
Proof.
  revert c. induction ms as [| m ms IH]; intros c H; cbn [fold_left]; [cbn; auto 10 |].
  apply Forall_cons in H as [Hm Hms].
  rewrite (receive_stale c m Hm).
  set (c1 := set_tickDuration _ _).
  destruct (IH c1) as (H1 & H2 & H3 & H4 & H5 & H6); [exact Hms |].
  cbv zeta. rewrite H1, H2, H3, H4, H5, H6. cbn. auto 10.
Qed.

(** X1.  A paused clock resumes at the first delivered message that is
    not stale: when the messages delivered in a frame are [stale ++ m ::
    later], every message of [stale] below [lastReceivedTick] and [m] at
    or above it, the deliveries leave the clock running, restarted at
    [tick = m.tick] with [tickAccumulator = 0]; the messages after [m] do
    not move the clock again. *)
Theorem resume_at_first_fresh_message (rdt : Q) (c : Client)
    (stale : list ServerNetMessage) (m : ServerNetMessage) (later : list ServerNetMessage) :
  clockPaused c = true ->
  delivered rdt (inFlightMessages (sim (net c))) = stale ++ m :: later ->
  Forall (fun m' => msg_tick m' < lastReceivedTick (net c)) stale ->
  lastReceivedTick (net c) <= msg_tick m ->
  clockPaused (handleReceived rdt c) = false
  /\ tick (handleReceived rdt c) = msg_tick m
  /\ tickAccumulator (handleReceived rdt c) = 0%Q.
Proof.
  intros Hp Hd Hs Hm. rewrite handleReceived_spec, Hd, fold_left_app.
  cbn [fold_left clockPaused tick tickAccumulator set_inFlightMessages].
  destruct (fold_receive_stale stale c Hs) as (H1 & _ & _ & H4 & _).
  set (c1 := fold_left onReceiveServerMessage stale c) in *.
  assert (Hfresh : lastReceivedTick (net c1) <= msg_tick m) by (rewrite H4; exact Hm).
  destruct (receive_fresh_clock c1 m Hfresh) as [Hrun Hclock].
  rewrite H1, Hp in Hclock. destruct Hclock as [Ht Ha].
  destruct (fold_receive_running later _ Hrun) as (H5 & H6 & H7).
  rewrite H5, H6, H7. auto.
Qed.

Lemma resume_at_first_fresh_message_witness :
  let c := set_inFlightMessages
             [mkInFlight (exampleMessage 0) 0.01; mkInFlight (exampleMessage 7) 0.02;
              mkInFlight (exampleMessage 9) 0.02]
             (set_clockPaused true (set_lastReceivedTick 4 client0)) in
  clockPaused (handleReceived 0.03 c) = false
  /\ tick (handleReceived 0.03 c) = 7
  /\ tickAccumulator (handleReceived 0.03 c) = 0%Q.
Proof.
  cbv zeta.
  apply (resume_at_first_fresh_message 0.03 _ [exampleMessage 0] (exampleMessage 7)
           [exampleMessage 9]).
  - reflexivity.
  - reflexivity.
  - repeat constructor.
  - vm_compute. discriminate.
Defined.

(** X2.  A paused clock stays frozen until a message is admitted: in a
    frame that delivers nothing, or only stale messages, the client is
    still paused afterwards, with the same [tick], [tickAccumulator],
    [lastReceivedTick] and buffer contents as before (up to the trim). *)
Theorem paused_clock_frozen (rdt : Q) (c c' : Client) :
  clockPaused c = true ->
  Forall (fun m => msg_tick m < lastReceivedTick (net c))
    (delivered rdt (inFlightMessages (sim (net c)))) ->
  clientFrame rdt c = Ok c' ->
  clockPaused c' = true
  /\ tick c' = tick c
  /\ tickAccumulator c' = tickAccumulator c
  /\ lastReceivedTick (net c') = lastReceivedTick (net c).
Proof.
  intros Hp Hs. unfold clientFrame.
  assert (H1 : clockPaused (handleReceived rdt c) = true
               /\ tick (handleReceived rdt c) = tick c
               /\ tickAccumulator (handleReceived rdt c) = tickAccumulator c
               /\ lastReceivedTick (net (handleReceived rdt c)) = lastReceivedTick (net c)).
  { rewrite handleReceived_spec. cbn.
    destruct (fold_receive_stale _ c Hs) as (Ha & Hb & Hc & Hd & _).
    rewrite Ha, Hb, Hc, Hd. auto. }
  destruct H1 as (Hq & Ht & Ha & Hl).
  rewrite (updateClientClock_paused _ _ Hq). cbn [bind]. intros E.
  destruct (renderClient_frame _ _ E) as (E1 & E2 & _ & _ & _ & E6 & _).
  rewrite E1, E2, E6, Ht, Ha, Hl. split; [| auto].
  unfold renderClient in E. rewrite Hq in E.
  destruct (last _); [| injection E as <-; exact Hq].
  destruct (Qltb _ _); [injection E as <-; exact Hq |].
  destruct (interpolateAt_frame _ _ _ E) as (_ & _ & -> & _). exact Hq.
Qed.

Lemma paused_clock_frozen_witness :
  let c := set_inFlightMessages [mkInFlight (exampleMessage 2) 0.01]
             (set_clockPaused true (set_lastReceivedTick 4 client0)) in
  exists c', clientFrame 0.03 c = Ok c'
             /\ clockPaused c' = true /\ tick c' = 0 /\ tickAccumulator c' = 0%Q.
Proof.
  cbv zeta. eexists. split; [vm_compute; reflexivity |].
  match goal with
  | |- clockPaused ?d = _ /\ _ =>
      destruct (paused_clock_frozen 0.03
                  (set_inFlightMessages [mkInFlight (exampleMessage 2) 0.01]
                     (set_clockPaused true (set_lastReceivedTick 4 client0))) d)
        as (H1 & H2 & H3 & _)
  end.
  - reflexivity.
  - repeat constructor.
  - vm_compute. reflexivity.
  - rewrite H1, H2, H3. auto.
Defined.

(** ** The offset window and the drift law *)

Lemma pushSample_split (d : Q) (w : list Q) :
  exists evicted,
    w ++ [d] = evicted ++ pushSample d w
    /\ length evicted = (length w + 1 - MAX_JITTER_ROLLING_AVERAGE)%nat
    /\ length (pushSample d w) = Nat.min MAX_JITTER_ROLLING_AVERAGE (length w + 1)
    /\ last (pushSample d w) = Some d.
Proof.
  unfold pushSample.
  assert (Hlen : length (w ++ [d]) = (length w + 1)%nat)
    by (rewrite length_app; reflexivity).
  destruct (Nat.ltb_spec MAX_JITTER_ROLLING_AVERAGE (length (w ++ [d]))) as [H | H].
  - exists (take (length (w ++ [d]) - MAX_JITTER_ROLLING_AVERAGE) (w ++ [d])).
    split; [symmetry; apply take_drop |].
    rewrite length_take, length_drop, Hlen in *.
    split; [lia |]. split; [lia |].
    rewrite last_lookup, length_drop, lookup_drop, Hlen.
    replace (length w + 1 - MAX_JITTER_ROLLING_AVERAGE
             + Init.Nat.pred (length w + 1 - (length w + 1 - MAX_JITTER_ROLLING_AVERAGE)))%nat
      with (length w)
      by (unfold MAX_JITTER_ROLLING_AVERAGE in *; lia).
    apply list_lookup_middle. reflexivity.
  - exists []. rewrite Hlen in *. split; [reflexivity |]. cbn [length].
    split; [lia |]. split; [lia |]. apply last_snoc.
Qed.

Lemma window_bounded_runClient (ops : list ClientOp) (c c' : Client) :
  (length (jitterBackBuffer (measured (net c))) <= MAX_JITTER_ROLLING_AVERAGE)%nat ->
  runClient ops c = Ok c' ->
  (length (jitterBackBuffer (measured (net c'))) <= MAX_JITTER_ROLLING_AVERAGE)%nat.
Proof.
  apply (inv_runClient
           (fun d => (length (jitterBackBuffer (measured (net d)))
                      <= MAX_JITTER_ROLLING_AVERAGE)%nat)
           (fun _ => True)).
  - intros c1 m _. rewrite receive_window.
    destruct (pushSample_split (inject_Z (msg_tick m) - clientTime c1)%Q
                (jitterBackBuffer (measured (net c1)))) as (_ & _ & _ & H & _).
    rewrite H. lia.
  - intros q c1 H. exact H.
  - intros rdt c1 c2 _ H E.
    destruct (updateClientClock_frame _ _ _ E) as (_ & -> & _). exact H.
  - intros c1 c2 H E.
    destruct (renderClient_frame _ _ E) as (_ & _ & _ & _ & -> & _). exact H.
  - apply opAllowed_True.
Qed.

(** X3.  The offset window never holds more than five samples, in any
    state reached by client operations against an arbitrary sender.  An
    arrival appends its sample [message.tick - clientTime] and evicts from
    the front: the new window is the old one followed by the sample, minus
    the oldest entries beyond five, and its last entry is the new
    sample. *)
Theorem offset_window_fifo (ops : list ClientOp) (c : Client) (m : ServerNetMessage) :
  runClient ops client0 = Ok c ->
  let old := jitterBackBuffer (measured (net c)) in
  let sample := (inject_Z (msg_tick m) - clientTime c)%Q in
  let new := jitterBackBuffer (measured (net (onReceiveServerMessage c m))) in
  (length old <= 5)%nat
  /\ length new = Nat.min 5 (length old + 1)
  /\ last new = Some sample
  /\ exists evicted, old ++ [sample] = evicted ++ new
                     /\ (length evicted <= 1)%nat
                     /\ (length evicted = 1%nat <-> length old = 5%nat).
Proof.
  intros Hrun old sample new.
  assert (Hold : (length old <= 5)%nat).
  { apply (window_bounded_runClient ops client0 c); [cbn; lia | exact Hrun]. }
  subst new. rewrite receive_window. fold sample. fold old.
  destruct (pushSample_split sample old) as (ev & H1 & H2 & H3 & H4).
  unfold MAX_JITTER_ROLLING_AVERAGE in *.
  split; [exact Hold |]. split; [exact H3 |]. split; [exact H4 |].
  exists ev. split; [exact H1 |]. split; lia.
Qed.

Lemma offset_window_fifo_witness :
  exists c,
    runClient (map (fun t => OpReceive (exampleMessage t)) [1; 2; 3; 4; 5]) client0 = Ok c
    /\ length (jitterBackBuffer (measured (net c))) = 5%nat
    /\ length (jitterBackBuffer
                 (measured (net (onReceiveServerMessage c (exampleMessage 6))))) = 5%nat.
Proof.
  eexists. split; [vm_compute; reflexivity |]. split; [reflexivity |].
  match goal with
  | |- length (jitterBackBuffer (measured (net (onReceiveServerMessage ?c0 _)))) = _ =>
      destruct (offset_window_fifo
                  (map (fun t => OpReceive (exampleMessage t)) [1; 2; 3; 4; 5])
                  c0 (exampleMessage 6)) as (_ & H & _)
  end.
  - vm_compute. reflexivity.
  - rewrite H. reflexivity.
Defined.

Lemma driftCorrected_cases (w : list Q) :
  ((clockDiff w <= 10)%Q ->
   (driftCorrected w
    == SERVER_TICK_DURATION - 0.01 * (clockDiff w * SERVER_TICK_DURATION))%Q)
  /\ ((10 <= clockDiff w)%Q -> (driftCorrected w == SERVER_TICK_DURATION * 0.9)%Q).
Proof.
  unfold driftCorrected.
  assert (Hb : (0 < SERVER_TICK_DURATION)%Q) by reflexivity.
  set (b := SERVER_TICK_DURATION) in *. set (a := clockDiff w).
  assert (Hlo : (a <= 10)%Q -> (a * b <= 10 * b)%Q)
    by (intros H; apply Qmult_le_compat_r; lra).
  assert (Hhi : (10 <= a)%Q -> (10 * b <= a * b)%Q)
    by (intros H; apply Qmult_le_compat_r; lra).
  set (p := (a * b)%Q) in *.
  destruct (Q.max_spec (b * 0.9) (b - 0.01 * p)) as [[H1 H2] | [H1 H2]];
    rewrite H2; split; intros H;
    try (specialize (Hlo H)); try (specialize (Hhi H)); lra.
Qed.

(** X4.  The shape of the drift law.  After an arrival, with [avg] the
    mean of the updated window: up to [avg = 10] the tick duration is
    [base * (1 - 0.01 * avg)], from [avg = 10] on it is clamped to
    [0.9 * base]; it equals [base] when [avg] is [0] and exceeds [base]
    exactly when [avg] is negative, where nothing bounds it from above. *)
Theorem drift_law_shape (c : Client) (m : ServerNetMessage) :
  let c' := onReceiveServerMessage c m in
  let avg := clockDiff (jitterBackBuffer (measured (net c'))) in
  ((avg <= 10)%Q ->
   (tickDuration c' == SERVER_TICK_DURATION * (1 - 0.01 * avg))%Q)
  /\ ((10 <= avg)%Q -> (tickDuration c' == SERVER_TICK_DURATION * 0.9)%Q)
  /\ ((avg == 0)%Q -> (tickDuration c' == SERVER_TICK_DURATION)%Q)
  /\ ((avg < 0)%Q <-> (SERVER_TICK_DURATION < tickDuration c')%Q)
  /\ (forall bound : Q, exists w : list Q, (bound < driftCorrected w)%Q).
Proof.
  intros c' avg. subst c' avg. rewrite receive_window, receive_tickDuration.
  set (w := pushSample _ _).
  destruct (driftCorrected_cases w) as [Hlow Hhigh].
  assert (Hb : (0 < SERVER_TICK_DURATION)%Q) by reflexivity.
  set (b := SERVER_TICK_DURATION) in *. set (a := clockDiff w) in *.
  split; [intros H; rewrite (Hlow H); ring |]. split; [exact Hhigh |].
  split; [intros H; rewrite (Hlow ltac:(lra)), H; ring |]. split.
  - split.
    + intros H. rewrite (Hlow ltac:(lra)).
      assert (0 < (- a) * b)%Q by (apply Qmult_lt_0_compat; lra). lra.
    + intros H. apply Qnot_le_lt. intros Hge.
      assert (0 <= a * b)%Q by (apply Qmult_le_0_compat; lra).
      destruct (Qlt_le_dec a 10) as [Ha | Ha].
      * rewrite (Hlow ltac:(lra)) in H. lra.
      * rewrite (Hhigh Ha) in H. lra.
  - intros bound.
    exists [(- (100 * (Qabs bound + 1)) * 90)%Q]. 
    destruct (driftCorrected_cases [(- (100 * (Qabs bound + 1)) * 90)%Q]) as [Hl _].
    assert (Hc : (clockDiff [(- (100 * (Qabs bound + 1)) * 90)%Q]
                  == - (100 * (Qabs bound + 1)) * 90)%Q).
    { unfold clockDiff, Qsum, Qlength. cbn [fold_left length].
      change (inject_Z (Z.of_nat 1)) with 1%Q. field. }
    pose proof (Qabs_nonneg bound) as Hn. pose proof (Qle_Qabs bound) as Hle.
    assert (E : (driftCorrected [(- (100 * (Qabs bound + 1)) * 90)%Q]
                 == SERVER_TICK_DURATION
                    - 0.01 * (- (100 * (Qabs bound + 1)) * 90 * SERVER_TICK_DURATION))%Q).
    { etransitivity; [apply Hl; rewrite Hc; lra |]. rewrite Hc. reflexivity. }
    rewrite E.
    assert (E2 : (SERVER_TICK_DURATION
                  - 0.01 * (- (100 * (Qabs bound + 1)) * 90 * SERVER_TICK_DURATION)
                  == SERVER_TICK_DURATION + (Qabs bound + 1))%Q).
    { unfold SERVER_TICK_DURATION. field. }
    rewrite E2. subst b. lra.
Qed.

Lemma drift_law_shape_witness :
  (tickDuration (onReceiveServerMessage client0 (exampleMessage 20))
   == SERVER_TICK_DURATION * 0.9)%Q.
Proof.
  apply (drift_law_shape client0 (exampleMessage 20)). vm_compute. discriminate.
Defined.

(** ** The bracket and the trim *)

(** What a completed [interpolateAt] leaves: the bracket of the old buffer
    in [prevNetState], [nextNetState] and the buffer, and either the old
    entities or, with both bounds, the interpolated ones. *)
Lemma interpolateAt_result (t : Q) (c c' : Client) :
  interpolateAt t c = Ok c' ->
  exists i,
    Bracket t (backBuffer (net c)) i (prevNetState c') (nextNetState c')
      (backBuffer (net c'))
    /\ match prevNetState c', nextNetState c' with
       | Some pv, Some nx =>
           interpolateEntities (entityPositions pv) (entityPositions nx)
             (interpolationAlpha t (msg_tick pv) (msg_tick nx)) 0 (entities (game c))
           = Some (entities (game c'))
       | _, _ => game c' = game c
       end.
Proof.
  intros H. destruct (interpolateAt_bracket t c) as (i & prev & next & buf' & HB & E).
  rewrite E in H. clear E. cbv zeta in H. exists i.
  destruct next as [nx |]; [destruct prev as [pv |] |].
  - destruct (interpolateEntities _ _ _ _ _) as [es |] eqn:Ees; [| discriminate].
    injection H as <-. cbn. auto.
  - injection H as <-. cbn. auto.
  - injection H as <-. cbn. destruct prev; auto.
Qed.

(** X5.  Without both bounds nothing is interpolated and nothing is
    trimmed, and no error is raised.  The upper bound is missing exactly
    when no buffered snapshot is newer than the target (this includes a
    target equal to the newest tick, which the pause check lets through);
    the lower bound is missing exactly when the upper bound is missing or
    is the first entry of the buffer. *)
Theorem no_bracket_no_update (t : Q) (c c' : Client) :
  interpolateAt t c = Ok c' ->
  (nextNetState c' = None
   <-> Forall (fun m => (inject_Z (msg_tick m) <= t)%Q) (backBuffer (net c)))
  /\ (prevNetState c' = None
      <-> nextNetState c' = None \/ nextNetState c' = head (backBuffer (net c)))
  /\ (prevNetState c' = None \/ nextNetState c' = None ->
      game c' = game c /\ backBuffer (net c') = backBuffer (net c)).
Proof.
  intros H. destruct (interpolateAt_result t c c' H) as (i & HB & Hg).
  destruct HB as [Hall | nx rest Hbuf Hnx | old pv nx rest Hbuf Hall Hnx].
  - split; [| split].
    + split; [intros _ | reflexivity].
      eapply Forall_impl; [exact Hall |]. cbn. intros m Hm. apply Qltb_ge, Hm.
    + split; auto.
    + intros _. destruct (prevNetState c'); destruct (nextNetState c'); auto.
  - split; [| split].
    + split; [discriminate |]. intros Hf. rewrite Hbuf in Hf.
      apply Forall_cons in Hf as [Hf _]. apply Qltb_lt in Hnx. lra.
    + split; [| reflexivity]. intros _. right. rewrite Hbuf. reflexivity.
    + intros _. destruct (prevNetState c'); destruct (nextNetState c'); auto.
  - split; [| split].
    + split; [discriminate |]. intros Hf. rewrite Hbuf in Hf.
      apply Forall_app in Hf as [_ Hf]. apply Forall_cons in Hf as [_ Hf].
      apply Forall_cons in Hf as [Hf _]. apply Qltb_lt in Hnx. lra.
    + split; [discriminate |]. intros [Hn | Hn]; [discriminate |].
      rewrite Hbuf in Hn. apply Forall_app in Hall as [Hold Hpv].
      apply Forall_cons in Hpv as [Hpv _].
      destruct old as [| o old]; cbn in Hn; injection Hn as Hn.
      * rewrite Hn in Hnx. congruence.
      * apply Forall_cons in Hold as [Ho _]. rewrite Hn in Hnx. congruence.
    + intros [Hn | Hn]; discriminate.
Qed.

(** Scenario D of the specification: the buffer holds only tick 7 and the
    target is 6. *)
Lemma no_bracket_no_update_witness :
  let c := set_backBuffer [exampleMessage 7] client0 in
  exists c', interpolateAt 6 c = Ok c'
             /\ prevNetState c' = None
             /\ game c' = game c /\ backBuffer (net c') = [exampleMessage 7].
Proof.
  cbv zeta. eexists. split; [reflexivity |]. split; [reflexivity |].
  refine (proj2 (proj2 (no_bracket_no_update 6
                          (set_backBuffer [exampleMessage 7] client0) _ eq_refl)) _).
  left. reflexivity.
Defined.

(** X6.  With both bounds the trim keeps exactly the suffix of the buffer
    that starts at the lower bound: the buffer was
    [old ++ prev :: next :: rest] and becomes [prev :: next :: rest]; every
    dropped entry and [prev] have a tick at or below the target and [next]
    is above it.  In every case the buffer after the call is a suffix of
    the buffer before, and its newest entry is the same. *)
Theorem trim_keeps_bracket (t : Q) (c c' : Client) :
  interpolateAt t c = Ok c' ->
  (exists dropped, backBuffer (net c) = dropped ++ backBuffer (net c')
                   /\ Forall (fun m => (inject_Z (msg_tick m) <= t)%Q) dropped)
  /\ last (backBuffer (net c')) = last (backBuffer (net c))
  /\ (forall pv nx,
        prevNetState c' = Some pv -> nextNetState c' = Some nx ->
        exists rest,
          backBuffer (net c') = pv :: nx :: rest
          /\ (inject_Z (msg_tick pv) <= t)%Q /\ (t < inject_Z (msg_tick nx))%Q).
Proof.
  intros H. destruct (interpolateAt_result t c c' H) as (i & HB & _).
  destruct HB as [Hall | nx rest Hbuf Hnx | old pv nx rest Hbuf Hall Hnx].
  - split; [exists []; split; [reflexivity | constructor] |].
    split; [reflexivity |]. intros pv nx Hp. discriminate.
  - split; [exists []; split; [reflexivity | constructor] |].
    split; [reflexivity |]. intros pv nx0 Hp. discriminate.
  - apply Forall_app in Hall as [Hold Hpv]. apply Forall_cons in Hpv as [Hpv _].
    split; [| split].
    + exists old. split; [exact Hbuf |].
      eapply Forall_impl; [exact Hold |]. cbn. intros m Hm. apply Qltb_ge, Hm.
    + rewrite Hbuf, last_app.
      destruct (last (pv :: nx :: rest)) eqn:E; [reflexivity |].
      apply last_None in E. discriminate.
    + intros pv0 nx0 [= <-] [= <-]. exists rest.
      split; [reflexivity |]. split; [apply Qltb_ge, Hpv | apply Qltb_lt, Hnx].
Qed.

Lemma trim_keeps_bracket_witness :
  let c := set_backBuffer (map exampleMessage [1; 3; 5; 7; 9]) client0 in
  exists c', interpolateAt 6 c = Ok c'
             /\ bufferTicks c' = [5; 7; 9]
             /\ last (backBuffer (net c')) = last (backBuffer (net c)).
Proof.
  cbv zeta. eexists. split; [reflexivity |]. split; [reflexivity |].
  refine (proj1 (proj2 (trim_keeps_bracket 6
                          (set_backBuffer (map exampleMessage [1; 3; 5; 7; 9]) client0)
                          _ eq_refl))).
Defined.

(** ** When the interpolation throws *)

Lemma interpolateEntities_none_iff (prev next : list Vec2) (alpha : Q) (es : list Entity) :
  interpolateEntities prev next alpha 0 es = None
  <-> (length prev < length es)%nat \/ (length next < length es)%nat.
Proof.
  split.
  - intros H.
    destruct (Nat.le_gt_cases (length es) (length prev)) as [Hp | Hp]; [| auto].
    destruct (Nat.le_gt_cases (length es) (length next)) as [Hn | Hn]; [| auto].
    destruct (interpolateEntities_total prev next alpha es 0) as (r & Hr & _);
      [cbn; lia | cbn; lia |]. congruence.
  - intros H. destruct (interpolateEntities prev next alpha 0 es) as [r |] eqn:E;
      [| reflexivity].
    exfalso. destruct (interpolateEntities_spec _ _ _ _ _ _ E) as [Hlen Hall].
    destruct es as [| e es]; [cbn in H; lia |].
    destruct (lookup_lt_is_Some_2 r (length es)) as [e' He'];
      [rewrite Hlen; cbn; lia |].
    destruct (Hall _ _ He') as (e0 & pp & np & _ & Hpp & Hnp & _).
    apply lookup_lt_Some in Hpp. apply lookup_lt_Some in Hnp. cbn in *. lia.
Qed.

Lemma bracket_both_computed (t : Q) (old : list ServerNetMessage)
    (pv nx : ServerNetMessage) (rest : list ServerNetMessage) :
  Forall (fun m => Qltb t (inject_Z (msg_tick m)) = false) (old ++ [pv]) ->
  Qltb t (inject_Z (msg_tick nx)) = true ->
  let buf := old ++ pv :: nx :: rest in
  let i := findIndex (fun m => Qltb t (inject_Z (msg_tick m))) buf in
  (if 0 <? i then at_index buf (i - 1) else None) = Some pv
  /\ at_index buf i = Some nx
  /\ spliceFront (i - 1) buf = pv :: nx :: rest.
Proof.
  intros Hall Hnx buf i.
  assert (Hbuf : buf = (old ++ [pv]) ++ nx :: rest).
  { unfold buf. rewrite <- app_assoc. reflexivity. }
  assert (Hi : i = Z.of_nat (length old) + 1).
  { unfold i, findIndex. rewrite Hbuf, findIndexFrom_app by assumption.
    rewrite length_app. cbn. lia. }
  rewrite Hi. destruct (Z.ltb_spec 0 (Z.of_nat (length old) + 1)); [| lia].
  replace (Z.of_nat (length old) + 1 - 1) with (Z.of_nat (length old)) by lia.
  split; [apply at_index_app_length |]. split.
  - rewrite Hbuf.
    replace (Z.of_nat (length old) + 1) with (Z.of_nat (length (old ++ [pv])))
      by (rewrite length_app; cbn; lia).
    apply at_index_app_length.
  - unfold spliceFront. rewrite Nat2Z.id. apply drop_app_length.
Qed.

(** X7.  The only failure of the bracket search, trim and interpolation is
    the [TypeError] of reading a position that is not there.  It is raised
    exactly when both bounds are found and one of them carries fewer
    positions than the client has entities. *)
Theorem interpolation_throws_iff (t : Q) (c : Client) :
  interpolateAt t c <> Fail NonTermination
  /\ (interpolateAt t c = Fail TypeError
      <-> exists old pv nx rest,
            backBuffer (net c) = old ++ pv :: nx :: rest
            /\ Forall (fun m => (inject_Z (msg_tick m) <= t)%Q) (old ++ [pv])
            /\ (t < inject_Z (msg_tick nx))%Q
            /\ ((length (entityPositions pv) < length (entities (game c)))%nat
                \/ (length (entityPositions nx) < length (entities (game c)))%nat)).
Proof.
  destruct (interpolateAt_bracket t c) as (i & prev & next & buf' & HB & E).
  cbv zeta in E. split.
  - rewrite E. destruct next as [nx |]; [destruct prev as [pv |] |]; try discriminate.
    destruct (interpolateEntities _ _ _ _ _); discriminate.
  - split.
    + rewrite E. intros H.
      destruct next as [nx |]; [destruct prev as [pv |] |]; try discriminate.
      cbn [game set_backBuffer set_nextNetState set_prevNetState] in H.
      destruct (interpolateEntities _ _ _ _ _) eqn:Ees; [discriminate |].
      apply interpolateEntities_none_iff in Ees.
      inversion HB as [| | old pv' nx' rest Hbuf Hall Hnx]; subst.
      exists old, pv, nx, rest. split; [exact Hbuf |]. split; [| split; [| exact Ees]].
      * eapply Forall_impl; [exact Hall |]. cbn. intros m Hm. apply Qltb_ge, Hm.
      * apply Qltb_lt, Hnx.
    + intros (old & pv & nx & rest & Hbuf & Hall & Hnx & Hlen).
      assert (Hall' : Forall (fun m => Qltb t (inject_Z (msg_tick m)) = false) (old ++ [pv])).
      { eapply Forall_impl; [exact Hall |]. cbn. intros m Hm. apply Qltb_ge, Hm. }
      apply Qltb_lt in Hnx.
      destruct (bracket_both_computed t old pv nx rest Hall' Hnx) as (H1 & H2 & H3).
      cbv zeta in H1, H2, H3. unfold interpolateAt. rewrite Hbuf, H1, H2, H3.
      cbn [game set_backBuffer set_nextNetState set_prevNetState].
      apply (interpolateEntities_none_iff _ _
               (interpolationAlpha t (msg_tick pv) (msg_tick nx))) in Hlen.
      rewrite Hlen. reflexivity.
Qed.

Lemma interpolation_throws_iff_witness :
  interpolateAt 6
    (set_backBuffer [exampleMessage 5; mkMessage 7 [mkVec2 0 0]] client0)
  = Fail TypeError.
Proof.
  apply (interpolation_throws_iff 6).
  exists [], (exampleMessage 5), (mkMessage 7 [mkVec2 0 0]), [].
  split; [reflexivity |]. split; [repeat constructor; vm_compute; discriminate |].
  split; [reflexivity |]. right. cbn. lia.
Defined.

(** ** Interpolated positions lie between the bounds *)

Lemma lerp_between (a b alpha : Q) :
  (0 <= alpha)%Q -> (alpha <= 1)%Q ->
  (Qmin a b <= lerp a b alpha)%Q /\ (lerp a b alpha <= Qmax a b)%Q.
Proof.
  intros H0 H1. unfold lerp.
  destruct (Qlt_le_dec a b) as [Hab | Hab].
  - rewrite (Q.min_l a b), (Q.max_r a b) by lra.
    assert (0 <= (b - a) * alpha)%Q by (apply Qmult_le_0_compat; lra).
    assert (0 <= (b - a) * (1 - alpha))%Q by (apply Qmult_le_0_compat; lra).
    split; lra.
  - rewrite (Q.min_r a b), (Q.max_l a b) by lra.
    assert (0 <= (a - b) * alpha)%Q by (apply Qmult_le_0_compat; lra).
    assert (0 <= (a - b) * (1 - alpha))%Q by (apply Qmult_le_0_compat; lra).
    split; lra.
Qed.

(** X8.  An interpolated position never leaves the segment between the
    two snapshots: each coordinate of each entity lies between the
    entity's coordinate in [prevNetState] and in [nextNetState] (no
    overshoot, no extrapolation). *)
Theorem interpolated_between_bounds (t : Q) (c c' : Client) (pv nx : ServerNetMessage) :
  interpolateAt t c = Ok c' ->
  prevNetState c' = Some pv ->
  nextNetState c' = Some nx ->
  forall idx e',
    entities (game c') !! idx = Some e' ->
    exists pp np,
      entityPositions pv !! idx = Some pp
      /\ entityPositions nx !! idx = Some np
      /\ (Qmin (x pp) (x np) <= x (position e'))%Q
      /\ (x (position e') <= Qmax (x pp) (x np))%Q
      /\ (Qmin (y pp) (y np) <= y (position e'))%Q
      /\ (y (position e') <= Qmax (y pp) (y np))%Q.
Proof.
  intros H Hp Hn idx e' He'.
  destruct (interpolateAt_result t c c' H) as (i & HB & Hg).
  rewrite Hp, Hn in HB, Hg.
  destruct (bracket_encloses _ _ _ _ _ _ HB) as [Hlo Hhi].
  destruct (alpha_range t (msg_tick pv) (msg_tick nx) Hlo Hhi) as (Ha0 & Ha1 & _).
  destruct (interpolateEntities_spec _ _ _ _ _ _ Hg) as [_ Hall].
  destruct (Hall idx e' He') as (e & pp & np & _ & Hpp & Hnp & ->).
  exists pp, np. cbn.
  destruct (lerp_between (x pp) (x np) _ Ha0 ltac:(lra)) as [Hx1 Hx2].
  destruct (lerp_between (y pp) (y np) _ Ha0 ltac:(lra)) as [Hy1 Hy2].
  auto 10.
Qed.

Lemma interpolated_between_bounds_witness :
  exists c' e',
    interpolateAt (13 / 2) scenarioC = Ok c'
    /\ entities (game c') = [e']
    /\ (0 <= x (position e'))%Q /\ (x (position e') <= 10)%Q.
Proof.
  eexists _, _. split; [reflexivity |]. split; [reflexivity |].
  destruct (interpolated_between_bounds (13 / 2) scenarioC _
              (mkMessage 5 [mkVec2 0 0]) (mkMessage 7 [mkVec2 10 10])
              eq_refl eq_refl eq_refl 0%nat _ eq_refl)
    as (pp & np & Hpp & Hnp & H1 & H2 & _).
  injection Hpp as <-. injection Hnp as <-. split; [exact H1 | exact H2].
Defined.

(** ** The accumulator loops *)

Lemma tickLoop_counts (dur : Q) (fuel : nat) :
  forall (tk : Z) (acc : Q) (tk' : Z) (acc' : Q),
    tickLoop fuel tk acc dur = Some (tk', acc') ->
    tk <= tk'
    /\ (acc' <= dur)%Q
    /\ (tk < tk' <-> (dur < acc)%Q)
    /\ (tk < tk' -> (0 < acc')%Q)
    /\ (tk' = tk -> acc' = acc)
    /\ ((0 <= dur)%Q -> (acc' <= acc)%Q).
Proof.
  induction fuel as [| n IH]; intros tk acc tk' acc'; cbn [tickLoop];
    destruct (Qltb dur acc) eqn:E; try discriminate.
  - intros [= <- <-]. apply Qltb_ge in E.
    split; [lia |]. split; [exact E |]. split; [split; [lia | lra] |].
    split; [lia |]. split; [reflexivity | lra].
  - intros H. apply IH in H. destruct H as (H1 & H2 & H3 & H4 & H5 & H6).
    apply Qltb_lt in E.
    split; [lia |]. split; [exact H2 |]. split; [split; [auto | lia] |].
    split; [| split; [lia | intros Hd; specialize (H6 Hd); lra]].
    intros _. destruct (Z.eq_dec tk' (tk + 1)) as [He | Hne].
    + rewrite (H5 He). lra.
    + apply H4. lia.
  - intros [= <- <-]. apply Qltb_ge in E.
    split; [lia |]. split; [exact E |]. split; [split; [lia | lra] |].
    split; [lia |]. split; [reflexivity | lra].
Qed.

(** X9.  The clock update of a running clock.  The tick never decreases
    and the accumulator ends at or below [tickDuration].  A tick is
    counted exactly when the accumulated time [tickAccumulator + rdt]
    exceeds [tickDuration]; otherwise the accumulator is that sum.  After
    a counted tick the accumulator is strictly positive; with a
    non-negative [tickDuration] it never ends above
    [tickAccumulator + rdt].  The update touches nothing but [tick] and
    [tickAccumulator]. *)
Theorem running_clock_advance (rdt : Q) (c c' : Client) :
  updateClientClock rdt c = Ok c' ->
  clockPaused c = false ->
  tick c <= tick c'
  /\ (tickAccumulator c' <= tickDuration c)%Q
  /\ (tick c < tick c' <-> (tickDuration c < tickAccumulator c + rdt)%Q)
  /\ (tick c' = tick c -> tickAccumulator c' = (tickAccumulator c + rdt)%Q)
  /\ (tick c < tick c' -> (0 < tickAccumulator c')%Q)
  /\ ((0 <= tickDuration c)%Q -> (tickAccumulator c' <= tickAccumulator c + rdt)%Q)
  /\ game c' = game c
  /\ net c' = net c
  /\ tickDuration c' = tickDuration c
  /\ clockPaused c' = false.
Proof.
  intros H Hp.
  destruct (updateClientClock_frame _ _ _ H) as (Hg & Hn & Hpc & Hd & _).
  unfold updateClientClock in H. rewrite Hp in H.
  destruct (tickLoop _ _ _ _) as [[tk acc'] |] eqn:E; [| discriminate].
  injection H as <-. cbn [tick tickAccumulator set_tickAccumulator set_tick] in *.
  destruct (tickLoop_counts _ _ _ _ _ _ E) as (H1 & H2 & H3 & H4 & H5 & H6).
  rewrite Hp in Hpc. auto 12.
Qed.

Lemma running_clock_advance_witness :
  exists c',
    updateClientClock (1 / 40) client0 = Ok c'
    /\ tick c' = 2
    /\ (tickAccumulator c' <= tickDuration client0)%Q
    /\ (0 < tickAccumulator c')%Q.
Proof.
  eexists. split; [vm_compute; reflexivity |]. split; [reflexivity |].
  match goal with
  | |- (tickAccumulator ?d <= _)%Q /\ _ =>
      destruct (running_clock_advance (1 / 40) client0 d)
        as (_ & Hle & _ & _ & Hpos & _)
  end.
  - vm_compute. reflexivity.
  - reflexivity.
  - split; [exact Hle | apply Hpos; reflexivity].
Defined.

Lemma serverLoop_counts (phys : Physics) (fuel : nat) :
  forall (s : Server) (tk : bool) (s1 : Server) (tk1 : bool),
    serverLoop fuel phys s tk = Some (s1, tk1) ->
    server_tickDuration s1 = server_tickDuration s
    /\ server_tick s <= server_tick s1
    /\ (server_tickAccumulator s1 <= server_tickDuration s)%Q
    /\ (server_tick s < server_tick s1
        <-> (server_tickDuration s < server_tickAccumulator s)%Q)
    /\ (server_tick s < server_tick s1 -> (0 < server_tickAccumulator s1)%Q)
    /\ (tk1 = true <-> tk = true \/ server_tick s < server_tick s1)
    /\ (server_tick s1 = server_tick s
        -> server_tickAccumulator s1 = server_tickAccumulator s).
Proof.
  induction fuel as [| n IH]; intros s tk s1 tk1; cbn [serverLoop];
    destruct (Qltb (server_tickDuration s) (server_tickAccumulator s)) eqn:E;
    try discriminate.
  - intros [= <- <-]. apply Qltb_ge in E.
    split; [reflexivity |]. split; [lia |]. split; [exact E |].
    split; [split; [lia | lra] |]. split; [lia |].
    split; [split; [auto | intros [H | H]; [exact H | lia]] | reflexivity].
  - intros H. apply IH in H. cbn in H.
    destruct H as (H2 & H3 & H4 & H5 & H6 & H7 & H8). apply Qltb_lt in E.
    split; [exact H2 |]. split; [lia |]. split; [exact H4 |].
    split; [split; [auto | lia] |]. split; [| split].
    + intros _. destruct (Z.eq_dec (server_tick s1) (server_tick s + 1)) as [He | Hne].
      * rewrite (H8 He). lra.
      * apply H6. lia.
    + split; [intros _; right; lia | intros _; apply H7; auto].
    + intros He. lia.
  - intros [= <- <-]. apply Qltb_ge in E.
    split; [reflexivity |]. split; [lia |]. split; [exact E |].
    split; [split; [lia | lra] |]. split; [lia |].
    split; [split; [auto | intros [H | H]; [exact H | lia]] | reflexivity].
Qed.

(** The server side of a frame, in terms of its loop. *)
Lemma serverFrame_loop (i : FrameInput) (rdt : Q) (a a1 : App) :
  serverFrame i rdt a = Ok a1 ->
  exists s1 ticked,
    serverLoop
      (loopFuel (server_tickAccumulator (server a) + rdt) (server_tickDuration (server a)))
      (physics i)
      (mkServer (server_game (server a)) (server_tick (server a))
         (server_tickDuration (server a)) (server_tickAccumulator (server a) + rdt)%Q)
      false = Some (s1, ticked)
    /\ server a1 = s1
    /\ a1 = if ticked
            then serverNetSend (rand_drop i) (rand_jitter i) (mkApp s1 (client a))
            else mkApp s1 (client a).
Proof.
  unfold serverFrame. cbn.
  destruct (serverLoop _ _ _ _) as [[s1 ticked] |]; [| discriminate].
  intros [= <-]. exists s1, ticked. split; [reflexivity |]. split; [| reflexivity].
  destruct ticked; [| reflexivity].
  rewrite serverNetSend_client. cbn. destruct (Qltb _ _); reflexivity.
Qed.

(** X10.  The server's side of a frame.  The tick counter never
    decreases.  A frame without a tick sends nothing.  A frame with one or
    more ticks sends at most one message, built after the last tick (the
    intermediate ticks are not transmitted): it is dropped when
    [rand_drop < packetLoss] and otherwise appended to the queue. *)
Theorem one_snapshot_per_frame (i : FrameInput) (rdt : Q) (a a1 : App) :
  serverFrame i rdt a = Ok a1 ->
  let s := server a in
  let s1 := server a1 in
  let cond := sim (net (client a)) in
  server_tick s <= server_tick s1
  /\ (server_tick s1 = server_tick s -> client a1 = client a)
  /\ (server_tick s < server_tick s1 ->
      (rand_drop i < sim_packetLoss cond)%Q -> client a1 = client a)
  /\ (server_tick s < server_tick s1 ->
      (sim_packetLoss cond <= rand_drop i)%Q ->
      client a1
      = set_inFlightMessages
          (inFlightMessages cond
           ++ [mkInFlight
                 (mkMessage (server_tick s1) (map position (entities (server_game s1))))
                 (sendDelay (sim_latency cond) (sim_jitter cond) (rand_jitter i))])
          (client a)).
Proof.
  intros H s s1 cond.
  destruct (serverFrame_loop _ _ _ _ H) as (s1' & ticked & Hloop & Hs1 & Ha1).
  destruct (serverLoop_counts _ _ _ _ _ _ Hloop) as (_ & H3 & _ & _ & _ & H7 & _).
  cbn in H3, H7. subst s s1. rewrite Hs1.
  split; [exact H3 |].
  rewrite Ha1. split; [| split].
  - intros He. destruct ticked; [| reflexivity].
    destruct (proj1 H7 eq_refl) as [Hf | Hlt]; [discriminate | lia].
  - intros Hlt Hdrop. destruct ticked; [| reflexivity].
    rewrite serverNetSend_client. cbn. apply Qltb_lt in Hdrop.
    fold cond. rewrite Hdrop. reflexivity.
  - intros Hlt Hkeep. rewrite (proj2 H7 (or_intror Hlt)).
    rewrite serverNetSend_client. cbn. apply Qltb_ge in Hkeep.
    fold cond. rewrite Hkeep. reflexivity.
Qed.

Lemma one_snapshot_per_frame_witness :
  exists a1,
    serverFrame (frameAt 50) (1 / 20) (initAppState exampleEntities) = Ok a1
    /\ server_tick (server a1) = 4
    /\ queueTicks (client a1) = [4].
Proof.
  eexists. split; [vm_compute; reflexivity |]. split; [reflexivity |].
  match goal with
  | |- queueTicks (client ?a1) = _ =>
      destruct (one_snapshot_per_frame (frameAt 50) (1 / 20)
                  (initAppState exampleEntities) a1)
        as (_ & _ & _ & H)
  end.
  - vm_compute. reflexivity.
  - rewrite H; [reflexivity | reflexivity | vm_compute; discriminate].
Defined.

(** ** The server's clock *)

Lemma frameStep_server_tick (i : FrameInput) (w w' : World) :
  frameStep i w = Ok w' -> server_tick (server (app w)) <= server_tick (server (app w')).
Proof.
  intros H. unfold frameStep in H.
  destruct (serverFrame _ _ _) as [a1 |] eqn:Es; [| discriminate]. cbn [bind] in H.
  destruct (clientFrame _ _) as [c1 |]; [| discriminate]. cbn [bind] in H.
  destruct (drawEntities c1) as [[] |]; [| discriminate]. cbn [bind] in H.
  injection H as <-. cbn [app server].
  destruct (serverFrame_loop _ _ _ _ Es) as (s1 & ticked & Hloop & -> & _).
  destruct (serverLoop_counts _ _ _ _ _ _ Hloop) as (_ & H3 & _). exact H3.
Qed.

Lemma runFrames_server_tick (ins : list FrameInput) (w w' : World) :
  runFrames ins w = Ok w' -> server_tick (server (app w)) <= server_tick (server (app w')).
Proof.
  revert w. induction ins as [| i ins IH]; intros w H.
  - injection H as <-. lia.
  - cbn in H. destruct (frameStep i w) as [w1 |] eqn:E; [| discriminate]. cbn in H.
    pose proof (frameStep_server_tick _ _ _ E). specialize (IH _ H). lia.
Qed.

Lemma frameStep_serverClock (i : FrameInput) (w w' : World) :
  serverClock w ->
  (0 <= (frame_t i - lastFrameTime w) / 1000)%Q ->
  frameStep i w = Ok w' ->
  serverClock w'.
Proof.
  intros (Hd & Ht & Ha0 & Ha1 & Hpos) Hr H. unfold frameStep in H.
  destruct (serverFrame _ _ _) as [a1 |] eqn:Es; [| discriminate]. cbn [bind] in H.
  destruct (clientFrame _ _) as [c1 |]; [| discriminate]. cbn [bind] in H.
  destruct (drawEntities c1) as [[] |]; [| discriminate]. cbn [bind] in H.
  injection H as <-.
  destruct (serverFrame_loop _ _ _ _ Es) as (s1 & ticked & Hloop & Hs1 & _).
  destruct (serverLoop_counts _ _ _ _ _ _ Hloop) as (H2 & H3 & H4 & H5 & H6 & _ & H8).
  cbn in H2, H3, H4, H5, H6, H8. rewrite Hd in *.
  unfold serverClock. cbn. rewrite Hs1.
  set (rdt := ((frame_t i - lastFrameTime w) / 1000)%Q) in *.
  split; [exact H2 |]. split; [lia |].
  assert (Hnn : (0 <= server_tickAccumulator s1)%Q).
  { destruct (Z.eq_dec (server_tick s1) (server_tick (server (app w)))) as [He | Hne].
    - rewrite (H8 He). lra.
    - apply Qlt_le_weak, H6. lia. }
  split; [exact Hnn |]. split; [exact H4 |].
  intros Hp.
  destruct (Z.eq_dec (server_tick s1) (server_tick (server (app w)))) as [He | Hne].
  - rewrite (H8 He). rewrite He in Hp. specialize (Hpos Hp). lra.
  - apply H6. lia.
Qed.

Lemma runFrames_serverClock (ins : list FrameInput) (w w' : World) :
  serverClock w ->
  framesAllowed (fun r => (0 <= r)%Q) ins (lastFrameTime w) ->
  runFrames ins w = Ok w' ->
  serverClock w'.
Proof.
  revert w. induction ins as [| i ins IH]; intros w Hc Hr H.
  - injection H as <-. exact Hc.
  - cbn in H. destruct (frameStep i w) as [w1 |] eqn:E; [| discriminate]. cbn in H.
    destruct Hr as [Hr1 Hr2].
    pose proof (frameStep_serverClock _ _ _ Hc Hr1 E) as Hc1.
    rewrite <- (frameStep_lastFrameTime _ _ _ E) in Hr2.
    exact (IH w1 Hc1 Hr2 H).
Qed.

Lemma serverClock_initWorld (es : list Entity) : serverClock (initWorld es).
Proof.
  unfold serverClock. cbn.
  split; [reflexivity |]. split; [lia |]. split; [lra |].
  split; [vm_compute; discriminate | lia].
Qed.

(** Two runs that end at the timestamp 400, computed in binary64: one
    frame counts 35 ticks, two frames count 36.  The number of ticks
    counted up to a timestamp depends on the spacing of the frames. *)
Lemma tick_count_depends_on_spacing64 :
  option_map fst (serverClock64 100 [400]%float 0 0 0) = Some 35
  /\ option_map fst (serverClock64 100 [200; 400]%float 0 0 0) = Some 36.
Proof. split; vm_compute; reflexivity. Qed.

(** X11.  The server's clock.  After any run of frames from the initial
    state with non-decreasing timestamps, [tickDuration] is still
    [SERVER_TICK_DURATION] and the accumulator lies in
    [[0, SERVER_TICK_DURATION]]: it is never negative, it can equal the
    tick duration (the loop runs only while it is greater), and it is
    strictly positive once a tick has been counted.  The tick counter
    starts at [0] and never decreases, in any run from there on. *)
Theorem server_accumulator_bounds (es : list Entity) (ins : list FrameInput) (w : World) :
  runFrames ins (initWorld es) = Ok w ->
  framesAllowed (fun r => (0 <= r)%Q) ins 0 ->
  let s := server (app w) in
  server_tickDuration s = SERVER_TICK_DURATION
  /\ (0 <= server_tickAccumulator s)%Q
  /\ (server_tickAccumulator s <= SERVER_TICK_DURATION)%Q
  /\ (0 < server_tick s -> (0 < server_tickAccumulator s)%Q)
  /\ 0 <= server_tick s
  /\ (forall ins' w', runFrames ins' w = Ok w' ->
                      server_tick s <= server_tick (server (app w'))).
Proof.
  intros H Hr s.
  destruct (runFrames_serverClock ins _ _ (serverClock_initWorld es) Hr H)
    as (Hd & Ht & Ha & Hb & Hp).
  split; [exact Hd |]. split; [exact Ha |]. split; [exact Hb |].
  split; [exact Hp |]. split; [exact Ht |].
  intros ins' w'. apply runFrames_server_tick.
Qed.

Lemma server_accumulator_bounds_witness :
  exists w,
    runFrames [frameAt 20; frameAt 120] (initWorld exampleEntities) = Ok w
    /\ server_tick (server (app w)) = 10
    /\ (0 < server_tickAccumulator (server (app w)))%Q
    /\ (server_tickAccumulator (server (app w)) <= SERVER_TICK_DURATION)%Q.
Proof.
  eexists. split; [vm_compute; reflexivity |]. split; [reflexivity |].
  match goal with
  | |- (0 < server_tickAccumulator (server (app ?w0)))%Q /\ _ =>
      destruct (server_accumulator_bounds exampleEntities
                  [frameAt 20; frameAt 120] w0)
        as (_ & _ & Hle & Hpos & _)
  end.
  - vm_compute. reflexivity.
  - cbn. repeat split; vm_compute; discriminate.
  - split; [apply Hpos; reflexivity | exact Hle].
Defined.

(** ** What a transport advance does to the queue *)







(** ** The newest snapshot is never trimmed *)

Lemma interpolateAt_last (t : Q) (c c' : Client) :
  interpolateAt t c = Ok c' ->
  last (backBuffer (net c')) = last (backBuffer (net c)).
Proof.
  intros H. destruct (interpolateAt_result t c c' H) as (i & HB & _).
  destruct HB as [Hall | nx rest Hbuf Hnx | old pv nx rest Hbuf Hall Hnx];
    try reflexivity.
  rewrite Hbuf, last_app.
  destruct (last (pv :: nx :: rest)) eqn:E; [reflexivity |].
  apply last_None in E. discriminate.
Qed.

Lemma renderClient_last (c c' : Client) :
  renderClient c = Ok c' ->
  last (backBuffer (net c')) = last (backBuffer (net c)).
Proof.
  unfold renderClient.
  assert (Hpause : forall d,
            Ok (if clockPaused c then c else set_clockPaused true c) = Ok d ->
            last (backBuffer (net d)) = last (backBuffer (net c))).
  { intros d [= <-]. destruct (clockPaused c); reflexivity. }
  destruct (last (backBuffer (net c))) as [newest |] eqn:El; [| apply Hpause].
  destruct (Qltb _ _); [apply Hpause |].
  intros H. rewrite (interpolateAt_last _ _ _ H). exact El.
Qed.

Lemma newest_runClient (ops : list ClientOp) (c c' : Client) :
  newestIsLastReceived c -> runClient ops c = Ok c' -> newestIsLastReceived c'.
Proof.
  apply (inv_runClient newestIsLastReceived (fun _ => True)).
  - intros c1 m H. unfold newestIsLastReceived in *.
    rewrite receive_backBuffer, receive_lastReceivedTick.
    destruct (Z.ltb_spec (msg_tick m) (lastReceivedTick (net c1))) as [Hlt | Hge].
    + destruct (last (backBuffer (net c1))); lia.
    + rewrite last_snoc. lia.
  - intros q c1 H. exact H.
  - intros rdt c1 c2 _ H E. unfold newestIsLastReceived in *.
    destruct (updateClientClock_frame _ _ _ E) as (_ & -> & _). exact H.
  - intros c1 c2 H E. unfold newestIsLastReceived in *.
    rewrite (renderClient_last _ _ E).
    destruct (renderClient_frame _ _ E) as (_ & _ & _ & _ & _ & -> & _). exact H.
  - apply opAllowed_True.
Qed.

Lemma nonempty_runClient (ops : list ClientOp) (c c' : Client) :
  backBuffer (net c) <> [] -> runClient ops c = Ok c' -> backBuffer (net c') <> [].
Proof.
  apply (inv_runClient (fun d => backBuffer (net d) <> []) (fun _ => True)).
  - intros c1 m H. rewrite receive_backBuffer.
    destruct (msg_tick m <? lastReceivedTick (net c1)); [exact H |].
    intros E. apply app_eq_nil in E as [_ E]. discriminate.
  - intros q c1 H. exact H.
  - intros rdt c1 c2 _ H E.
    destruct (updateClientClock_frame _ _ _ E) as (_ & -> & _). exact H.
  - intros c1 c2 H E Hnil. apply H. apply last_None.
    rewrite <- (renderClient_last _ _ E), Hnil. reflexivity.
  - apply opAllowed_True.
Qed.

(** X13.  The newest snapshot is never trimmed.  In every state reached
    by client operations against an arbitrary sender, the last entry of
    the buffer carries [lastReceivedTick], and while the buffer is empty
    no message has been admitted ([lastReceivedTick] is still [0]).  Once
    a message has been admitted the buffer never becomes empty again, so
    the test [backBuffer.length === 0] of the pause check can only succeed
    before the first admission. *)
Theorem newest_snapshot_retained (ops ops' : list ClientOp) (c c' : Client) :
  runClient ops client0 = Ok c ->
  runClient ops' c = Ok c' ->
  match last (backBuffer (net c)) with
  | Some newest => msg_tick newest = lastReceivedTick (net c)
  | None => lastReceivedTick (net c) = 0
  end
  /\ (backBuffer (net c) <> [] -> backBuffer (net c') <> [])
  /\ (backBuffer (net c') = [] -> lastReceivedTick (net c') = 0).
Proof.
  intros H H'.
  assert (H0 : newestIsLastReceived client0) by reflexivity.
  pose proof (newest_runClient ops _ _ H0 H) as Hc.
  pose proof (newest_runClient ops' _ _ Hc H') as Hc'.
  split; [exact Hc |]. split; [intros Hne; exact (nonempty_runClient ops' _ _ Hne H') |].
  intros Hnil. unfold newestIsLastReceived in Hc'. rewrite Hnil in Hc'. exact Hc'.
Qed.

Lemma newest_snapshot_retained_witness :
  exists c c',
    runClient [OpReceive (exampleMessage 4); OpReceive (exampleMessage 2)] client0 = Ok c
    /\ runClient [OpFrame 0.5; OpReceive (exampleMessage 9); OpFrame 0.01] c = Ok c'
    /\ backBuffer (net c') <> [].
Proof.
  eexists _, _. split; [vm_compute; reflexivity |]. split; [vm_compute; reflexivity |].
  refine (proj1 (proj2 (newest_snapshot_retained
            [OpReceive (exampleMessage 4); OpReceive (exampleMessage 2)]
            [OpFrame 0.5; OpReceive (exampleMessage 9); OpFrame 0.01] _ _ _ _)) _).
  - vm_compute. reflexivity.
  - vm_compute. reflexivity.
  - discriminate.
Defined.

(** ** Without jitter no message is ever stale *)

Lemma none_expired_after (rdt : Q) (f : ClientInFlightMessage)
    (q : list ClientInFlightMessage) :
  expired rdt f = false ->
  Forall (Qle (timeRemaining f)) (map timeRemaining q) ->
  List.filter (expired rdt) q = [] /\ List.filter (fun g => negb (expired rdt g)) q = q.
Proof.
  intros Hf. apply expired_false_iff in Hf.
  induction q as [| g q IH]; cbn; [auto |].
  intros H. apply Forall_cons in H as [Hg Hq]. destruct (IH Hq) as [IH1 IH2].
  assert (Eg : expired rdt g = false) by (apply expired_false_iff; lra).
  rewrite Eg. cbn. rewrite IH2. auto.
Qed.

(** In a queue ordered by time remaining the expired messages are a
    prefix. *)
Lemma sorted_expired_prefix (rdt : Q) (q : list ClientInFlightMessage) :
  StronglySorted Qle (map timeRemaining q) ->
  exists q1 q2,
    q = q1 ++ q2
    /\ List.filter (expired rdt) q = q1
    /\ List.filter (fun g => negb (expired rdt g)) q = q2.
Proof.
  induction q as [| f q IH]; cbn.
  - intros _. exists [], []. auto.
  - intros H. apply StronglySorted_cons in H as [Hf Hq].
    destruct (expired rdt f) eqn:E; cbn.
    + destruct (IH Hq) as (q1 & q2 & -> & H1 & H2).
      exists (f :: q1), q2. rewrite H1, H2. auto.
    + destruct (none_expired_after rdt f q E Hf) as [H1 H2].
      exists [], (f :: q). rewrite H1, H2. auto.
Qed.

Lemma fold_receive_fresh (ms : list ServerNetMessage) (c : Client) :
  StronglySorted Z.lt (map msg_tick ms) ->
  Forall (fun t => lastReceivedTick (net c) <= t) (map msg_tick ms) ->
  let c' := fold_left onReceiveServerMessage ms c in
  bufferTicks c' = bufferTicks c ++ map msg_tick ms
  /\ lastReceivedTick (net c') = default (lastReceivedTick (net c)) (last (map msg_tick ms)).
Proof.
  revert c. induction ms as [| m ms IH]; intros c Hs Hf; cbn [fold_left map].
  - cbn. rewrite app_nil_r. auto.
  - apply StronglySorted_cons in Hs as [Hlt Hs]. apply Forall_cons in Hf as [Hm Hf].
    destruct (IH (onReceiveServerMessage c m) Hs) as [H1 H2].
    + rewrite receive_lastReceivedTick.
      eapply Forall_impl; [exact Hlt |]. cbn. intros t Ht. lia.
    + cbv zeta. rewrite H1, H2, bufferTicks_receive, receive_lastReceivedTick.
      destruct (Z.ltb_spec (msg_tick m) (lastReceivedTick (net c))) as [Hx | _]; [lia |].
      rewrite <- app_assoc. split; [reflexivity |].
      rewrite Z.max_r by lia.
      destruct (map msg_tick ms) as [| t' ts] eqn:Ets; [reflexivity |].
      change (last (msg_tick m :: t' :: ts)) with (last (t' :: ts)).
      destruct (last (t' :: ts)) eqn:El; [reflexivity |].
      apply last_None in El. discriminate.
Qed.

Lemma fifo_serverFrame (i : FrameInput) (rdt : Q) (a a1 : App) :
  fifoQueue a -> serverFrame i rdt a = Ok a1 -> fifoQueue a1.
Proof.
  intros (Hj & Hs & Hf & Hl & Ht & Hd) H.
  destruct (serverFrame_loop _ _ _ _ H) as (s1 & ticked & Hloop & _ & ->).
  destruct (serverLoop_counts _ _ _ _ _ _ Hloop) as (_ & H3 & _ & _ & _ & H7 & _).
  cbn in H3, H7.
  assert (Hkeep : fifoQueue (mkApp s1 (client a))).
  { unfold fifoQueue. cbn. repeat split; auto; try lia.
    eapply Forall_impl; [exact Hf |]. cbn. intros t Hx. lia. }
  destruct ticked; [| exact Hkeep].
  destruct (proj1 H7 eq_refl) as [Hx | Hlt]; [discriminate |].
  rewrite serverNetSend_client. cbn. destruct (Qltb _ _); [exact Hkeep |].
  unfold fifoQueue, queueTicks. cbn.
  set (q := inFlightMessages (sim (net (client a)))) in *.
  set (d := sendDelay _ _ _).
  assert (Hdelay : (d == sim_latency (sim (net (client a))) / 2 / 1000)%Q).
  { unfold d, sendDelay, jitterOffset. rewrite Hj. field. }
  split; [exact Hj |]. rewrite !map_app. cbn [map].
  split; [| split; [| split; [lia | split]]].
  - apply StronglySorted_app_2; [| exact Hs | repeat constructor].
    intros t1 t2 H1 H2. apply list_elem_of_singleton in H2. subst t2.
    rewrite Forall_forall in Hf. specialize (Hf _ H1). unfold inFlightTick. cbn. lia.
  - apply Forall_app. split.
    + eapply Forall_impl; [exact Hf |]. cbn. intros t Hx. lia.
    + repeat constructor; unfold inFlightTick; cbn; lia.
  - apply StronglySorted_app_2; [| exact Ht | repeat constructor].
    intros t1 t2 H1 H2. apply list_elem_of_singleton in H2. subst t2. cbn.
    apply list_elem_of_In, in_map_iff in H1. destruct H1 as (f & <- & Hin).
    rewrite Forall_forall in Hd. apply list_elem_of_In in Hin.
    specialize (Hd _ Hin). cbn in Hd. lra.
  - apply Forall_app. split; [exact Hd |]. repeat constructor. cbn. lra.
Qed.

(** The delivery phase of a frame on a first-in-first-out queue: the
    delivered messages are a prefix of the queue and all of them are
    admitted. *)
Lemma fifo_handleReceived (rdt : Q) (s : Server) (c : Client) :
  fifoQueue (mkApp s c) -> (0 <= rdt)%Q ->
  fifoQueue (mkApp s (handleReceived rdt c))
  /\ bufferTicks (handleReceived rdt c)
     = bufferTicks c ++ map msg_tick (delivered rdt (inFlightMessages (sim (net c))))
  /\ delivered rdt (inFlightMessages (sim (net c)))
     `prefix_of` map message (inFlightMessages (sim (net c))).
Proof.
  intros (Hj & Hs & Hf & Hl & Ht & Hd) Hr. cbn [client server] in *.
  rewrite handleReceived_spec.
  unfold queueTicks in Hs, Hf.
  set (q := inFlightMessages (sim (net c))) in *.
  destruct (sorted_expired_prefix rdt q Ht) as (q1 & q2 & Hq & H1 & H2).
  assert (Hdel : delivered rdt q = map message q1) by (unfold delivered; rewrite H1; reflexivity).
  assert (Hrem : remaining rdt q = map (aged rdt) q2)
    by (unfold remaining; rewrite H2; reflexivity).
  rewrite Hdel, Hrem.
  rewrite Hq, map_app in Hs, Hf.
  apply StronglySorted_app in Hs as (Hcross & Hs1 & Hs2).
  apply Forall_app in Hf as [Hf1 Hf2].
  assert (Et : map msg_tick (map message q1) = map inFlightTick q1) by apply map_map.
  destruct (fold_receive_fresh (map message q1) c) as [Hb Hlast].
  { rewrite Et. exact Hs1. }
  { rewrite Et. eapply Forall_impl; [exact Hf1 |]. cbn. intros t Hx. lia. }
  cbv zeta in Hb, Hlast. rewrite Et in Hb, Hlast.
  set (c1 := fold_left onReceiveServerMessage (map message q1) c) in *.
  split; [| split].
  - assert (Esim : sim (net c1) = sim (net c)) by apply fold_receive_sim.
    unfold fifoQueue, queueTicks. cbn. rewrite Esim.
    assert (Elast : lastReceivedTick (net c1) = lastReceivedTick (net c)
                    \/ lastReceivedTick (net c1) ∈ map inFlightTick q1).
    { rewrite Hlast. destruct (last (map inFlightTick q1)) as [t |] eqn:El; [| auto].
      right. apply last_Some in El as [l' El]. rewrite El.
      apply elem_of_app. right. apply list_elem_of_singleton. reflexivity. }
    assert (Eq2 : map inFlightTick (map (aged rdt) q2) = map inFlightTick q2)
      by (rewrite map_map; reflexivity).
    split; [exact Hj |]. rewrite Eq2. split; [exact Hs2 |]. split; [| split; [| split]].
    + rewrite Forall_forall. intros t Hin2.
      rewrite Forall_forall in Hf2. specialize (Hf2 _ Hin2).
      destruct Elast as [-> | Hin1]; [lia |].
      specialize (Hcross _ _ Hin1 Hin2). lia.
    + destruct Elast as [-> | Hin1]; [lia |].
      rewrite Forall_forall in Hf1. specialize (Hf1 _ Hin1). lia.
    + rewrite Hq, map_app in Ht. apply StronglySorted_app_1_r in Ht.
      rewrite map_map. cbn.
      clear - Ht. induction q2 as [| f q2 IH]; cbn in *; [constructor |].
      apply StronglySorted_cons in Ht as [Hf Ht].
      apply StronglySorted_cons. split; [| apply IH, Ht].
      clear - Hf. induction q2 as [| g q2 IH]; cbn in *; [constructor |].
      apply Forall_cons in Hf as [Hg Hf]. constructor; [lra | apply IH, Hf].
    + rewrite Hq in Hd. apply Forall_app in Hd as [_ Hd2].
      apply Forall_map. eapply Forall_impl; [exact Hd2 |]. cbn. intros f Hx. lra.
  - change (bufferTicks c1 = bufferTicks c ++ map msg_tick (map message q1)).
    rewrite Hb, Et. reflexivity.
  - rewrite Hq, map_app. exists (map message q2). reflexivity.
Qed.

Lemma fifo_clientFrame (rdt : Q) (s : Server) (c c' : Client) :
  fifoQueue (mkApp s c) -> (0 <= rdt)%Q -> clientFrame rdt c = Ok c' ->
  fifoQueue (mkApp s c').
Proof.
  intros H Hr. destruct (fifo_handleReceived rdt s c H Hr) as [H1 _].
  unfold clientFrame.
  destruct (updateClientClock rdt (handleReceived rdt c)) as [c1 |] eqn:E;
    [| discriminate].
  cbn. intros Er.
  destruct (updateClientClock_frame _ _ _ E) as (_ & Hn & _).
  destruct (renderClient_frame _ _ Er) as (_ & _ & _ & Hsim & _ & Hl & _).
  unfold fifoQueue, queueTicks in *. cbn in *. rewrite Hsim, Hl, Hn. exact H1.
Qed.

Lemma fifo_frameStep (i : FrameInput) (w w' : World) :
  fifoQueue (app w) ->
  (0 <= (frame_t i - lastFrameTime w) / 1000)%Q ->
  frameStep i w = Ok w' -> fifoQueue (app w').
Proof.
  intros H Hr. unfold frameStep.
  destruct (serverFrame _ _ _) as [a1 |] eqn:Es; [| discriminate]. cbn.
  destruct (clientFrame _ _) as [c1 |] eqn:Ec; [| discriminate]. cbn.
  destruct (drawEntities c1) as [[] |]; [| discriminate]. cbn.
  intros [= <-]. cbn.
  apply (fifo_serverFrame _ _ _ _ H) in Es.
  destruct a1 as [s1 c0]. exact (fifo_clientFrame _ _ _ _ Es Hr Ec).
Qed.

Lemma fifo_runFrames (ins : list FrameInput) (w w' : World) :
  fifoQueue (app w) ->
  framesAllowed (fun r => (0 <= r)%Q) ins (lastFrameTime w) ->
  runFrames ins w = Ok w' -> fifoQueue (app w').
Proof.
  revert w. induction ins as [| i ins IH]; intros w Hc Hr H.
  - injection H as <-. exact Hc.
  - cbn in H. destruct (frameStep i w) as [w1 |] eqn:E; [| discriminate]. cbn in H.
    destruct Hr as [Hr1 Hr2].
    pose proof (fifo_frameStep _ _ _ Hc Hr1 E) as Hc1.
    rewrite <- (frameStep_lastFrameTime _ _ _ E) in Hr2.
    exact (IH w1 Hc1 Hr2 H).
Qed.

Lemma fifo_initWorld (es : list Entity) : fifoQueue (app (initWorld es)).
Proof.
  unfold fifoQueue. cbn. repeat split; try constructor; try reflexivity.
Qed.

(** X14.  With the initial network conditions (no jitter) and
    non-decreasing timestamps, messages arrive in the order they were
    sent and none is ever stale.  In the delivery phase of any frame of a
    run from the initial state, every message in flight is newer than
    [lastReceivedTick], the delivered messages are a prefix of the queue,
    and every one of them is admitted: their ticks are appended to the
    buffer in order. *)
Theorem zero_jitter_never_stale (es : list Entity) (ins : list FrameInput) (w : World)
    (i : FrameInput) (a1 : App) :
  runFrames ins (initWorld es) = Ok w ->
  framesAllowed (fun r => (0 <= r)%Q) ins 0 ->
  let rdt := ((frame_t i - lastFrameTime w) / 1000)%Q in
  (0 <= rdt)%Q ->
  serverFrame i rdt (app w) = Ok a1 ->
  let q := inFlightMessages (sim (net (client a1))) in
  Forall (fun t => lastReceivedTick (net (client (app w))) < t) (queueTicks (client a1))
  /\ delivered rdt q `prefix_of` map message q
  /\ bufferTicks (handleReceived rdt (client a1))
     = bufferTicks (client (app w)) ++ map msg_tick (delivered rdt q).
Proof.
  intros Hrun Hal rdt Hr Hs q.
  pose proof (fifo_runFrames ins _ _ (fifo_initWorld es) Hal Hrun) as Hw.
  pose proof (fifo_serverFrame _ _ _ _ Hw Hs) as H1.
  assert (Hsame : lastReceivedTick (net (client a1)) = lastReceivedTick (net (client (app w)))
                  /\ bufferTicks (client a1) = bufferTicks (client (app w))).
  { destruct (serverFrame_client _ _ _ _ Hs) as [-> | [f ->]]; auto. }
  destruct Hsame as [El Eb].
  destruct a1 as [s1 c1]. cbn [client] in *.
  destruct (fifo_handleReceived rdt s1 c1 H1 Hr) as (_ & H2 & H3).
  destruct H1 as (_ & _ & Hf & _). cbn [client server] in Hf.
  split; [| split].
  - rewrite <- El. eapply Forall_impl; [exact Hf |]. cbn. intros t Hx. lia.
  - exact H3.
  - rewrite H2, Eb. reflexivity.
Qed.

Lemma zero_jitter_never_stale_witness :
  exists w a1,
    runFrames [frameAt 20; frameAt 60] (initWorld exampleEntities) = Ok w
    /\ serverFrame (frameAt 165) ((165 - 60) / 1000) (app w) = Ok a1
    /\ queueTicks (client a1) = [1; 5; 14]
    /\ bufferTicks (handleReceived ((165 - 60) / 1000) (client a1)) = [1; 5; 14].
Proof.
  eexists _, _. split; [vm_compute; reflexivity |].
  match goal with
  | |- serverFrame _ _ (app ?w0) = _ /\ _ => set (w := w0)
  end.
  split; [vm_compute; reflexivity |]. split; [reflexivity |].
  match goal with
  | |- bufferTicks (handleReceived _ (client ?a)) = _ =>
      destruct (zero_jitter_never_stale exampleEntities [frameAt 20; frameAt 60] w
                  (frameAt 165) a) as (_ & _ & H)
  end.
  - vm_compute. reflexivity.
  - cbn. repeat split; vm_compute; discriminate.
  - vm_compute. discriminate.
  - vm_compute. reflexivity.
  - cbv zeta in H. etransitivity; [exact H | reflexivity].
Defined.

(** ** Positions stay in the unit square *)

Lemma clamp_unit (p v : Q) :
  let r := if Qltb 1 p then (1%Q, (- Qabs v)%Q)
           else if Qltb p 0 then (0%Q, Qabs v) else (p, v) in
  (0 <= fst r)%Q /\ (fst r <= 1)%Q
  /\ ((0 <= p)%Q -> (p <= 1)%Q -> r = (p, v))
  /\ ((1 < p)%Q -> r = (1%Q, (- Qabs v)%Q))
  /\ ((p < 0)%Q -> r = (0%Q, Qabs v)).
Proof.
  cbv zeta.
  destruct (Qltb 1 p) eqn:E1; [apply Qltb_lt in E1 | apply Qltb_ge in E1].
  - cbn. split; [lra |]. split; [lra |]. split; [intros; lra |].
    split; [reflexivity | intros; lra].
  - destruct (Qltb p 0) eqn:E0; [apply Qltb_lt in E0 | apply Qltb_ge in E0]; cbn.
    + split; [lra |]. split; [lra |]. split; [intros; lra |].
      split; [intros; lra | reflexivity].
    + split; [lra |]. split; [lra |]. split; [reflexivity |]. split; intros; lra.
Qed.

Lemma moveEntity_position (M : MathLib) (rTurn rVelocity dt : Q) (e : Entity) :
  inUnitSquare (position (moveEntity M rTurn rVelocity dt e)).
Proof.
  unfold moveEntity. cbv zeta.
  set (px := (x (position e) + _)%Q). set (py := (y (position e) + _)%Q).
  set (vx := (Math_cos M _ * speed e)%Q). set (vy := (Math_sin M _ * speed e)%Q).
  destruct (clamp_unit px vx) as (Hx0 & Hx1 & _). cbv zeta in Hx0, Hx1.
  destruct (clamp_unit py vy) as (Hy0 & Hy1 & _). cbv zeta in Hy0, Hy1.
  destruct (if Qltb 1 px then _ else _) as [px1 vx1].
  destruct (if Qltb 1 py then _ else _) as [py1 vy1].
  cbn in *. unfold inUnitSquare. cbn. auto.
Qed.

Lemma moveEntity_speed (M : MathLib) (rTurn rVelocity dt : Q) (e : Entity) :
  speed (moveEntity M rTurn rVelocity dt e) = speed e.
Proof.
  unfold moveEntity. cbv zeta.
  destruct (if Qltb 1 _ then _ else _) as [x1 vx1].
  destruct (if Qltb 1 _ then _ else _) as [y1 vy1]. reflexivity.
Qed.

Lemma moveEntity_angle (M : MathLib) (rTurn rVelocity dt : Q) (e : Entity) :
  (forall a b, (- Math_PI M <= Math_atan2 M a b)%Q) -> (0 <= Math_PI M)%Q ->
  (0 <= angle (moveEntity M rTurn rVelocity dt e))%Q.
Proof.
  intros Hatan Hpi. unfold moveEntity. cbv zeta.
  destruct (if Qltb 1 _ then _ else _) as [x1 vx1].
  destruct (if Qltb 1 _ then _ else _) as [y1 vy1].
  cbn [angle]. specialize (Hatan vy1 vx1).
  destruct (Qltb (Math_atan2 M vy1 vx1) 0) eqn:E;
    [apply Qltb_lt in E | apply Qltb_ge in E]; lra.
Qed.

Lemma entityPhysics_bounded (M : MathLib) (rTurn rVelocity : Z -> nat -> Q) :
  boundedPhysics (entityPhysics M rTurn rVelocity).
Proof. intros tk dt idx e. apply moveEntity_position. Qed.

(** X15.  One server tick, whatever the cosine, sine and arc tangent
    return and wherever the entity was.  On each axis the coordinate
    after the plain step [position + velocity * dt] is kept when it is in
    [[0, 1]], set to [1] when it is above [1] and to [0] when it is below
    [0], so the position ends in the unit square; the velocity component
    of an axis that hit the wall at [1] becomes [- |v|], at [0] it becomes
    [|v|], and otherwise it is unchanged.  The new angle is [Math.atan2] of
    that velocity, plus [2 * Math.PI] when negative, so it ends
    non-negative when [Math.atan2] returns at least [-Math.PI].  The speed
    is unchanged; the angular velocity changes only when [rTurn < 0.05],
    then to [2 * rVelocity - 1], which is in [[-1, 1)].  A whole
    [serverTick] moves every entity so, keeps their number and counts one
    tick. *)
Theorem server_tick_keeps_unit_square (M : MathLib) (rTurn rVelocity dt : Q) (e : Entity) :
  (0 <= rVelocity)%Q -> (rVelocity < 1)%Q ->
  let e' := moveEntity M rTurn rVelocity dt e in
  let a1 := (angle e + angularVelocity e' * dt)%Q in
  let vx := (Math_cos M a1 * speed e)%Q in
  let vy := (Math_sin M a1 * speed e)%Q in
  let px := (x (position e) + vx * dt)%Q in
  let py := (y (position e) + vy * dt)%Q in
  inUnitSquare (position e')
  /\ ((0 <= px)%Q -> (px <= 1)%Q -> x (position e') = px)
  /\ ((1 < px)%Q -> x (position e') = 1%Q)
  /\ ((px < 0)%Q -> x (position e') = 0%Q)
  /\ ((0 <= py)%Q -> (py <= 1)%Q -> y (position e') = py)
  /\ ((1 < py)%Q -> y (position e') = 1%Q)
  /\ ((py < 0)%Q -> y (position e') = 0%Q)
  /\ (exists vx1 vy1,
        angle e' = (let a := Math_atan2 M vy1 vx1 in
                    if Qltb a 0 then (a + 2 * Math_PI M)%Q else a)
        /\ ((0 <= px)%Q -> (px <= 1)%Q -> vx1 = vx)
        /\ ((1 < px)%Q -> vx1 = (- Qabs vx)%Q)
        /\ ((px < 0)%Q -> vx1 = Qabs vx)
        /\ ((0 <= py)%Q -> (py <= 1)%Q -> vy1 = vy)
        /\ ((1 < py)%Q -> vy1 = (- Qabs vy)%Q)
        /\ ((py < 0)%Q -> vy1 = Qabs vy))
  /\ speed e' = speed e
  /\ ((0.05 <= rTurn)%Q -> angularVelocity e' = angularVelocity e)
  /\ ((rTurn < 0.05)%Q ->
      angularVelocity e' = (2 * rVelocity - 1)%Q
      /\ (-1 <= angularVelocity e')%Q /\ (angularVelocity e' < 1)%Q)
  /\ ((forall a b, (- Math_PI M <= Math_atan2 M a b)%Q) -> (0 <= Math_PI M)%Q ->
      (0 <= angle e')%Q)
  /\ (forall (rT rV : Z -> nat -> Q) (s : Server),
        let s' := serverTick (entityPhysics M rT rV) dt s in
        Forall (fun e0 => inUnitSquare (position e0)) (entities (server_game s'))
        /\ length (entities (server_game s')) = length (entities (server_game s))
        /\ server_tick s' = server_tick s + 1).
Proof.
  intros Hv0 Hv1 e' a1 vx vy px py.
  split; [apply moveEntity_position |].
  assert (Hav : angularVelocity e'
                = if Qltb rTurn 0.05 then (2 * rVelocity - 1)%Q else angularVelocity e).
  { unfold e', moveEntity. cbv zeta.
    destruct (if Qltb 1 _ then _ else _); destruct (if Qltb 1 _ then _ else _);
      reflexivity. }
  set (rx := if Qltb 1 px then (1%Q, (- Qabs vx)%Q)
             else if Qltb px 0 then (0%Q, Qabs vx) else (px, vx)).
  set (ry := if Qltb 1 py then (1%Q, (- Qabs vy)%Q)
             else if Qltb py 0 then (0%Q, Qabs vy) else (py, vy)).
  assert (Hpos : position e' = mkVec2 (fst rx) (fst ry)
                 /\ angle e' = (let a := Math_atan2 M (snd ry) (snd rx) in
                                if Qltb a 0 then (a + 2 * Math_PI M)%Q else a)).
  { subst rx ry px py vx vy a1. rewrite Hav. unfold e', moveEntity. cbv zeta.
    destruct (if Qltb 1 _ then _ else _); destruct (if Qltb 1 _ then _ else _);
      split; reflexivity. }
  destruct Hpos as [Hpos Hang].
  destruct (clamp_unit px vx) as (_ & _ & Hxin & Hxhi & Hxlo).
  destruct (clamp_unit py vy) as (_ & _ & Hyin & Hyhi & Hylo).
  cbv zeta in Hxin, Hxhi, Hxlo, Hyin, Hyhi, Hylo.
  fold rx in Hxin, Hxhi, Hxlo. fold ry in Hyin, Hyhi, Hylo.
  rewrite Hpos. cbn [x y].
  split; [intros H0 H1; rewrite (Hxin H0 H1); reflexivity |].
  split; [intros H; rewrite (Hxhi H); reflexivity |].
  split; [intros H; rewrite (Hxlo H); reflexivity |].
  split; [intros H0 H1; rewrite (Hyin H0 H1); reflexivity |].
  split; [intros H; rewrite (Hyhi H); reflexivity |].
  split; [intros H; rewrite (Hylo H); reflexivity |].
  split.
  { exists (snd rx), (snd ry). split; [exact Hang |].
    split; [intros H0 H1; rewrite (Hxin H0 H1); reflexivity |].
    split; [intros H; rewrite (Hxhi H); reflexivity |].
    split; [intros H; rewrite (Hxlo H); reflexivity |].
    split; [intros H0 H1; rewrite (Hyin H0 H1); reflexivity |].
    split; [intros H; rewrite (Hyhi H); reflexivity |].
    intros H; rewrite (Hylo H); reflexivity. }
  split; [apply moveEntity_speed |].
  split; [intros H; rewrite Hav, (proj2 (Qltb_ge _ _) H); reflexivity |].
  split.
  { intros H. rewrite Hav, (proj2 (Qltb_lt _ _) H). split; [reflexivity |]. split; lra. }
  split; [apply moveEntity_angle |].
  intros rT rV s. unfold serverTick. cbn.
  split; [| split; [apply length_imap | reflexivity]].
  apply Forall_lookup. intros idx e0 He0.
  rewrite list_lookup_imap in He0.
  destruct (entities (server_game s) !! idx) as [e1 |]; [| discriminate].
  cbn in He0. injection He0 as <-. apply moveEntity_position.
Qed.

Lemma server_tick_keeps_unit_square_witness :
  let M := mkMathLib (fun _ => 1%Q) (fun _ => (-1)%Q) (fun _ _ => 0%Q) (355 / 113)%Q in
  let e := mkEntity (mkVec2 0.99 0.02) 0.3 0 0 in
  let e' := moveEntity M 0.5 0 (1 / 10) e in
  x (position e') = 1%Q /\ y (position e') = 0%Q /\ inUnitSquare (position e').
Proof.
  cbv zeta.
  destruct (server_tick_keeps_unit_square
              (mkMathLib (fun _ => 1%Q) (fun _ => (-1)%Q) (fun _ _ => 0%Q) (355 / 113)%Q)
              0.5 0 (1 / 10) (mkEntity (mkVec2 0.99 0.02) 0.3 0 0))
    as (H1 & _ & Hx & _ & _ & _ & Hy & _).
  - vm_compute. discriminate.
  - reflexivity.
  - split; [apply Hx; reflexivity |]. split; [apply Hy; reflexivity | exact H1].
Defined.

Lemma serverLoop_positions (phys : Physics) (fuel : nat) :
  boundedPhysics phys ->
  forall (s : Server) (tk : bool) (s1 : Server) (tk1 : bool),
    serverLoop fuel phys s tk = Some (s1, tk1) ->
    (tk = true -> Forall (fun e => inUnitSquare (position e)) (entities (server_game s))) ->
    tk1 = true ->
    Forall (fun e => inUnitSquare (position e)) (entities (server_game s1)).
Proof.
  intros Hb. induction fuel as [| n IH]; intros s tk s1 tk1; cbn [serverLoop];
    destruct (Qltb _ _); try discriminate.
  - intros [= <- <-]. auto.
  - intros H _. apply (IH _ _ _ _ H). intros _. cbn.
    apply Forall_lookup. intros idx e He. rewrite list_lookup_imap in He.
    destruct (entities (server_game s) !! idx) as [e1 |]; [| discriminate].
    cbn in He. injection He as <-. apply Hb.
  - intros [= <- <-]. auto.
Qed.

Lemma unit_serverFrame (i : FrameInput) (rdt : Q) (a a1 : App) :
  boundedPhysics (physics i) -> unitSquares (client a) ->
  serverFrame i rdt a = Ok a1 -> unitSquares (client a1).
Proof.
  intros Hb (He & Hq & Hbuf) H.
  destruct (serverFrame_loop _ _ _ _ H) as (s1 & ticked & Hloop & _ & ->).
  destruct ticked; [| exact (conj He (conj Hq Hbuf))].
  pose proof (serverLoop_positions _ _ Hb _ _ _ _ Hloop ltac:(discriminate) eq_refl) as Hs1.
  rewrite serverNetSend_client. cbn.
  destruct (Qltb _ _); [exact (conj He (conj Hq Hbuf)) |].
  unfold unitSquares. cbn. split; [exact He |]. split; [| exact Hbuf].
  apply Forall_app. split; [exact Hq |]. repeat constructor.
  unfold unitMessage. cbn. apply Forall_map. exact Hs1.
Qed.

Lemma fold_receive_messages (P : ServerNetMessage -> Prop)
    (ms : list ServerNetMessage) (c : Client) :
  Forall P ms -> Forall P (backBuffer (net c)) ->
  Forall P (backBuffer (net (fold_left onReceiveServerMessage ms c)))
  /\ game (fold_left onReceiveServerMessage ms c) = game c.
Proof.
  intros Hms. revert c. induction Hms as [| m ms Hm _ IH]; intros c Hb; [auto |].
  cbn [fold_left]. destruct (IH (onReceiveServerMessage c m)) as [H1 H2].
  - rewrite receive_backBuffer.
    destruct (msg_tick m <? lastReceivedTick (net c)); [exact Hb |].
    apply Forall_app. split; [exact Hb | repeat constructor; exact Hm].
  - split; [exact H1 |]. rewrite H2. unfold onReceiveServerMessage. cbn.
    destruct (msg_tick m <? lastReceivedTick (net c)); [reflexivity |].
    destruct (clockPaused c); reflexivity.
Qed.

Lemma unit_handleReceived (rdt : Q) (c : Client) :
  unitSquares c -> unitSquares (handleReceived rdt c).
Proof.
  intros (He & Hq & Hb). rewrite handleReceived_spec.
  destruct (fold_receive_messages unitMessage
              (delivered rdt (inFlightMessages (sim (net c)))) c) as [H1 H2].
  - unfold delivered. apply Forall_map.
    revert Hq. generalize (inFlightMessages (sim (net c))). intros q Hq.
    induction Hq as [| f q Hf _ IH]; cbn; [constructor |].
    destruct (expired rdt f); [constructor; assumption | assumption].
  - exact Hb.
  - unfold unitSquares. cbn. rewrite H2. split; [exact He |]. split; [| exact H1].
    unfold remaining. apply Forall_map.
    revert Hq. generalize (inFlightMessages (sim (net c))). intros q Hq.
    induction Hq as [| f q Hf _ IH]; cbn; [constructor |].
    destruct (expired rdt f); cbn; [assumption | constructor; assumption].
Qed.

Lemma lerp_unit (a b alpha : Q) :
  (0 <= alpha)%Q -> (alpha <= 1)%Q ->
  (0 <= a)%Q /\ (a <= 1)%Q -> (0 <= b)%Q /\ (b <= 1)%Q ->
  (0 <= lerp a b alpha)%Q /\ (lerp a b alpha <= 1)%Q.
Proof.
  intros H0 H1 [Ha0 Ha1] [Hb0 Hb1].
  destruct (lerp_between a b alpha H0 H1) as [Hlo Hhi].
  pose proof (Q.min_glb a b 0 Ha0 Hb0). pose proof (Q.max_lub a b 1 Ha1 Hb1).
  split; lra.
Qed.

Lemma unit_interpolateAt (t : Q) (c c' : Client) :
  unitSquares c -> interpolateAt t c = Ok c' -> unitSquares c'.
Proof.
  intros (He & Hq & Hb) H.
  destruct (interpolateAt_frame _ _ _ H) as (_ & _ & _ & _ & Hsim & _).
  destruct (interpolateAt_result t c c' H) as (i & HB & Hg).
  unfold unitSquares. rewrite Hsim.
  assert (Hb' : Forall unitMessage (backBuffer (net c'))).
  { destruct HB as [| | old pv nx rest Hbuf _ _]; auto.
    rewrite Hbuf in Hb. apply Forall_app in Hb. apply Hb. }
  split; [| auto].
  destruct (prevNetState c') as [pv |] eqn:Ep; [| rewrite Hg; exact He].
  destruct (nextNetState c') as [nx |] eqn:En; [| rewrite Hg; exact He].
  destruct (bracket_encloses _ _ _ _ _ _ HB) as [Hlo Hhi].
  destruct (alpha_range t (msg_tick pv) (msg_tick nx) Hlo Hhi) as (Ha0 & Ha1 & _).
  assert (Hpn : unitMessage pv /\ unitMessage nx).
  { inversion HB as [| | old pv' nx' rest Hbuf _ _ E1 E2 E3 E4]. rewrite <- E4 in Hb'.
    apply Forall_cons in Hb' as [H1 Hb']. apply Forall_cons in Hb' as [H2 _]. auto. }
  destruct Hpn as [Hpv Hnx].
  destruct (interpolateEntities_spec _ _ _ _ _ _ Hg) as [_ Hall].
  apply Forall_lookup. intros idx e' He'.
  destruct (Hall idx e' He') as (e & pp & np & _ & Hpp & Hnp & ->).
  pose proof (Forall_lookup_1 _ _ _ _ Hpv Hpp) as [Hpx Hpy].
  pose proof (Forall_lookup_1 _ _ _ _ Hnx Hnp) as [Hnx' Hny].
  cbn. split; apply lerp_unit; auto; lra.
Qed.

Lemma unit_clientFrame (rdt : Q) (c c' : Client) :
  unitSquares c -> clientFrame rdt c = Ok c' -> unitSquares c'.
Proof.
  intros H. apply (unit_handleReceived rdt) in H. unfold clientFrame.
  destruct (updateClientClock rdt (handleReceived rdt c)) as [c1 |] eqn:E;
    [| discriminate].
  cbn. intros Er.
  assert (H1 : unitSquares c1).
  { destruct (updateClientClock_frame _ _ _ E) as (Hg & Hn & _).
    unfold unitSquares in *. rewrite Hg, Hn. exact H. }
  unfold renderClient in Er.
  assert (Hpause : forall d,
            Ok (if clockPaused c1 then c1 else set_clockPaused true c1) = Ok d ->
            unitSquares d).
  { intros d [= <-]. destruct (clockPaused c1); exact H1. }
  destruct (last (backBuffer (net c1))); [| exact (Hpause _ Er)].
  destruct (Qltb _ _); [exact (Hpause _ Er) |].
  exact (unit_interpolateAt _ _ _ H1 Er).
Qed.

Lemma unit_runFrames (ins : list FrameInput) (w w' : World) :
  Forall (fun i => boundedPhysics (physics i)) ins ->
  unitSquares (client (app w)) ->
  runFrames ins w = Ok w' -> unitSquares (client (app w')).
Proof.
  intros Hins. revert w. induction Hins as [| i ins Hi _ IH]; intros w Hc H.
  - injection H as <-. exact Hc.
  - cbn in H. destruct (frameStep i w) as [w1 |] eqn:E; [| discriminate]. cbn in H.
    apply (IH w1); [| exact H]. unfold frameStep in E.
    destruct (serverFrame _ _ _) as [a1 |] eqn:Es; [| discriminate]. cbn in E.
    destruct (clientFrame _ _) as [c1 |] eqn:Ec; [| discriminate]. cbn in E.
    destruct (drawEntities c1) as [[] |]; [| discriminate]. cbn in E.
    injection E as <-. cbn.
    exact (unit_clientFrame _ _ _ (unit_serverFrame _ _ _ _ Hi Hc Es) Ec).
Qed.

(** X16.  Everything the client sees is in the unit square.  In a run of
    frames from the initial state whose entity motion keeps positions in
    the unit square, as the program's own motion does for any cosine, sine
    and arc tangent, every position carried by a message in flight or in
    the buffer and every position of a client entity is in [[0, 1]] on
    both axes, wherever the server's entities started. *)
Theorem client_positions_in_unit_square (es : list Entity) (ins : list FrameInput)
    (w : World) :
  runFrames ins (initWorld es) = Ok w ->
  Forall (fun i => boundedPhysics (physics i)) ins ->
  Forall (fun e => inUnitSquare (position e)) (entities (game (client (app w))))
  /\ Forall (fun f => Forall inUnitSquare (entityPositions (message f)))
       (inFlightMessages (sim (net (client (app w)))))
  /\ Forall (fun m => Forall inUnitSquare (entityPositions m))
       (backBuffer (net (client (app w))))
  /\ (forall M rTurn rVelocity, boundedPhysics (entityPhysics M rTurn rVelocity)).
Proof.
  intros Hrun Hins.
  destruct (unit_runFrames ins (initWorld es) w Hins) as (H1 & H2 & H3).
  - unfold unitSquares. cbn. split; [| split; constructor].
    repeat constructor; vm_compute; discriminate.
  - exact Hrun.
  - split; [exact H1 |]. split; [exact H2 |]. split; [exact H3 |].
    apply entityPhysics_bounded.
Qed.

Lemma client_positions_in_unit_square_witness :
  let phys := entityPhysics exampleMath (fun _ _ => 0.5%Q) (fun _ _ => 0%Q) in
  let es := [mkEntity (mkVec2 3 (-2)) 0.3 0 0; mkEntity (mkVec2 0.2 0.2) 0.1 0 0;
             mkEntity (mkVec2 0.5 0.5) 0.2 0 0; mkEntity (mkVec2 0.9 0.1) 0.3 0 0] in
  let ins := [mkFrameInput 20 0 0 phys; mkFrameInput 120 0 0 phys;
              mkFrameInput 130 0 0 phys] in
  exists w, runFrames ins (initWorld es) = Ok w
            /\ bufferTicks (client (app w)) = [1; 10]
            /\ Forall (fun e => inUnitSquare (position e))
                 (entities (game (client (app w)))).
Proof.
  intros phys es ins. eexists.
  split; [vm_compute; reflexivity |]. split; [reflexivity |].
  refine (proj1 (client_positions_in_unit_square es ins _ _ _)).
  - vm_compute. reflexivity.
  - repeat constructor; apply entityPhysics_bounded.
Defined.

(** ** Total loss *)

Lemma starved_frameStep (i : FrameInput) (w w' : World) :
  starved (client (app w)) ->
  (rand_drop i < 1)%Q ->
  frameStep i w = Ok w' ->
  starved (client (app w'))
  /\ clockPaused (client (app w')) = true
  /\ game (client (app w')) = game (client (app w))
  /\ lastReceivedTick (net (client (app w'))) = lastReceivedTick (net (client (app w)))
  /\ (clockPaused (client (app w)) = true ->
      tick (client (app w')) = tick (client (app w))
      /\ tickAccumulator (client (app w')) = tickAccumulator (client (app w))).
Proof.
  intros (Hq & Hb & Hl) Hr H. unfold frameStep in H.
  destruct (serverFrame _ _ _) as [a1 |] eqn:Es; [| discriminate].
  cbn [bind] in H.
  destruct (clientFrame _ _) as [c1 |] eqn:Ec; [| discriminate].
  cbn [bind] in H.
  destruct (drawEntities c1) as [[] |]; [| discriminate].
  cbn [bind] in H. injection H as <-. cbn [app client].
  assert (Hc : client a1 = client (app w)).
  { destruct (serverFrame_loop _ _ _ _ Es) as (s1 & ticked & _ & _ & ->).
    destruct ticked; [| reflexivity].
    rewrite serverNetSend_client. cbn [client].
    assert (Hdrop : (rand_drop i < sim_packetLoss (sim (net (client (app w)))))%Q) by lra.
    apply Qltb_lt in Hdrop. rewrite Hdrop. reflexivity. }
  rewrite Hc in Ec. clear Es Hc. set (c := client (app w)) in *.
  unfold clientFrame in Ec.
  assert (Hh : handleReceived ((frame_t i - lastFrameTime w) / 1000) c
               = set_inFlightMessages [] c).
  { rewrite handleReceived_spec, Hq. reflexivity. }
  rewrite Hh in Ec.
  destruct (updateClientClock _ _) as [c2 |] eqn:Eu; [| discriminate].
  cbn [bind] in Ec.
  destruct (updateClientClock_frame _ _ _ Eu) as (Hg & Hn & Hp & _).
  assert (Hb2 : backBuffer (net c2) = []) by (rewrite Hn; exact Hb).
  unfold renderClient in Ec. rewrite Hb2 in Ec.
  change (Ok (if clockPaused c2 then c2 else set_clockPaused true c2) = Ok c1) in Ec.
  assert (Hres : game c1 = game c2 /\ net c1 = net c2 /\ clockPaused c1 = true
                 /\ tick c1 = tick c2 /\ tickAccumulator c1 = tickAccumulator c2).
  { injection Ec as <-. destruct (clockPaused c2) eqn:E2; auto 10. }
  destruct Hres as (Rg & Rn & Rp & Rt & Ra).
  unfold starved. rewrite Rn, Hn, Rg, Hg, Rt, Ra.
  split; [exact (conj eq_refl (conj Hb Hl)) |].
  split; [exact Rp |]. split; [reflexivity |]. split; [reflexivity |].
  intros Hpaused.
  rewrite updateClientClock_paused in Eu by exact Hpaused.
  injection Eu as <-. auto.
Qed.

(** X17.  Total loss (Scenario B of the specification).  From the initial
    state with [packetLoss >= 1], after any non-empty run of frames the
    queue and the buffer are empty, the clock is paused, [lastReceivedTick]
    is still [0] and the client's entities are where they started; the
    run only ever moved the client's clock in its first frame. *)
Theorem total_loss_pauses_forever (es : list Entity) (i : FrameInput)
    (ins : list FrameInput) (w1 w : World) :
  Forall (fun j => (rand_drop j < 1)%Q) (i :: ins) ->
  frameStep i (totalLossWorld es) = Ok w1 ->
  runFrames ins w1 = Ok w ->
  inFlightMessages (sim (net (client (app w)))) = []
  /\ backBuffer (net (client (app w))) = []
  /\ clockPaused (client (app w)) = true
  /\ lastReceivedTick (net (client (app w))) = 0
  /\ entities (game (client (app w))) = replicate NUM_ENTITIES clientEntity0
  /\ tick (client (app w)) = tick (client (app w1))
  /\ tickAccumulator (client (app w)) = tickAccumulator (client (app w1)).
Proof.
  intros Hr H1 Hrun. apply Forall_cons in Hr as [Hi Hins].
  assert (H0 : starved (client (app (totalLossWorld es)))).
  { unfold starved. cbn. repeat split; auto. lra. }
  destruct (starved_frameStep _ _ _ H0 Hi H1) as (Hs1 & Hp1 & Hg1 & Hl1 & _).
  assert (Hgen : forall ins' w' w'',
            Forall (fun j => (rand_drop j < 1)%Q) ins' ->
            starved (client (app w')) -> clockPaused (client (app w')) = true ->
            runFrames ins' w' = Ok w'' ->
            starved (client (app w'')) /\ clockPaused (client (app w'')) = true
            /\ game (client (app w'')) = game (client (app w'))
            /\ lastReceivedTick (net (client (app w'')))
               = lastReceivedTick (net (client (app w')))
            /\ tick (client (app w'')) = tick (client (app w'))
            /\ tickAccumulator (client (app w'')) = tickAccumulator (client (app w'))).
  { intros ins' w' w'' Hf. revert w'.
    induction Hf as [| j ins' Hj _ IH]; intros w' Hs Hp Hrun'.
    - injection Hrun' as <-. auto 10.
    - cbn in Hrun'. destruct (frameStep j w') as [w2 |] eqn:E; [| discriminate].
      cbn in Hrun'.
      destruct (starved_frameStep _ _ _ Hs Hj E) as (Hs2 & Hp2 & Hg2 & Hl2 & Hfz).
      destruct (Hfz Hp) as [Ht2 Ha2].
      destruct (IH w2 Hs2 Hp2 Hrun') as (R1 & R2 & R3 & R4 & R5 & R6).
      rewrite R3, R4, R5, R6, Hg2, Hl2, Ht2, Ha2. auto 10. }
  destruct (Hgen ins w1 w Hins Hs1 Hp1 Hrun) as ((Q1 & Q2 & _) & R2 & R3 & R4 & R5 & R6).
  rewrite R3, R4, Hg1, Hl1. auto 10.
Qed.

Lemma total_loss_pauses_forever_witness :
  exists w1 w,
    frameStep (frameAt 20) (totalLossWorld exampleEntities) = Ok w1
    /\ runFrames [frameAt 120; frameAt 405] w1 = Ok w
    /\ clockPaused (client (app w)) = true
    /\ backBuffer (net (client (app w))) = []
    /\ server_tick (server (app w)) = 36.
Proof.
  eexists _, _. split; [vm_compute; reflexivity |]. split; [vm_compute; reflexivity |].
  split; [| split; [| reflexivity]].
  - refine (proj1 (proj2 (proj2 (total_loss_pauses_forever exampleEntities (frameAt 20)
                                   [frameAt 120; frameAt 405] _ _ _ _ _)))).
    + repeat constructor; vm_compute; reflexivity.
    + vm_compute. reflexivity.
    + vm_compute. reflexivity.
  - refine (proj1 (proj2 (total_loss_pauses_forever exampleEntities (frameAt 20)
                            [frameAt 120; frameAt 405] _ _ _ _ _))).
    + repeat constructor; vm_compute; reflexivity.
    + vm_compute. reflexivity.
    + vm_compute. reflexivity.
Defined.

(** ** Causality *)

(** X19.  The client never holds data from the future.  In every state of
    a run of frames from the initial state, every tick in flight and every
    buffered tick is at most the server's tick counter, and so is
    [lastReceivedTick]; the queue lists the messages in the order they
    were sent, with strictly increasing ticks (so each tick is sent at most
    once), and no message in flight carries the tick last admitted. *)
Theorem no_data_from_the_future (es : list Entity) (ins : list FrameInput) (w : World) :
  runFrames ins (initWorld es) = Ok w ->
  let c := client (app w) in
  let now := server_tick (server (app w)) in
  Forall (fun t => t <= now) (queueTicks c)
  /\ Forall (fun t => t <= now) (bufferTicks c)
  /\ lastReceivedTick (net c) <= now
  /\ StronglySorted Z.lt (queueTicks c)
  /\ lastReceivedTick (net c) ∉ queueTicks c.
Proof.
  intros Hrun c now.
  destruct (distinct_runFrames _ _ _ (distinct_initWorld es) Hrun)
    as (_ & Hb & Hs & Hq & Hl).
  fold c now in Hb, Hs, Hq, Hl.
  split; [eapply Forall_impl; [exact Hq | intros t [Ht _]; exact Ht] |].
  split; [eapply Forall_impl; [exact Hb | intros t Ht; cbn in Ht; lia] |].
  split; [exact Hl |]. split; [exact Hs |].
  intros Hin. rewrite Forall_forall in Hq.
  destruct (Hq _ Hin) as [_ Hne]. apply Hne. reflexivity.
Qed.

Lemma no_data_from_the_future_witness :
  exists w,
    runFrames [frameAt 20; frameAt 120; frameAt 130] (initWorld exampleEntities) = Ok w
    /\ server_tick (server (app w)) = 11
    /\ lastReceivedTick (net (client (app w))) <= 11.
Proof.
  eexists. split; [vm_compute; reflexivity |]. split; [reflexivity |].
  refine (proj1 (proj2 (proj2 (no_data_from_the_future exampleEntities
                                 [frameAt 20; frameAt 120; frameAt 130] _ _)))).
  vm_compute. reflexivity.
Defined.
